(** * shennong.processor.vtln : the VTLN processor, embedded and verified

    A shallow embedding of [shennong/processor/vtln.py].  Python floats are
    idealised as exact rationals ([Qc], canonical fractions, so that equality
    is Leibniz equality); rounding error is outside the model, except where an
    integer is read off a float: the two lines of [process] that compute the
    warp grid are given in IEEE 754 binary64 arithmetic as well
    ([Floating]).  Python
    exceptions are values of [exn] carried by the [result] monad; the methods
    that mutate [self] or the UBM thread a state.  Kaldi, numpy and the other
    shennong modules are collaborators: the simple vector primitives are
    written out, the rest is an interface ([Numerics], [Collaborators]). *)

From Stdlib Require Import ZArith QArith Qcanon Qround Lia Lqa List String Field.
From Stdlib Require Qcabs.
From Stdlib Require Import SpecFloat.
From stdpp Require Import base gmap strings list.

Open Scope Qc_scope.

(** ** Python values and exceptions *)

Inductive exn : Type :=
| ValueError (msg : string)
| TypeError (msg : string)
| OSError (msg : string)
| KeyError (key : string)
| IndexError
| ZeroDivisionError
| AttributeError
| KaldiError (msg : string)
| OverflowError.

Inductive result (A : Type) : Type :=
| Ok (a : A)
| Raise (e : exn).
Arguments Ok {A} a.
Arguments Raise {A} e.

Definition rbind {A B} (m : result A) (k : A -> result B) : result B :=
  match m with
  | Ok a => k a
  | Raise e => Raise e
  end.

Declare Scope py_scope.
Delimit Scope py_scope with py.
Notation "'let*' x := m 'in' k" := (rbind m (fun x => k))
  (at level 10, x pattern, m at level 100, k at level 200) : py_scope.
Open Scope py_scope.

Definition is_ok {A} (r : result A) : bool :=
  match r with Ok _ => true | Raise _ => false end.

(** [for x in xs: acc = body(acc, x)], stopping at the first exception. *)
Fixpoint for_each {A S} (xs : list A) (body : S -> A -> result S) (acc : S) : result S :=
  match xs with
  | [] => Ok acc
  | x :: rest => let* acc' := body acc x in for_each rest body acc'
  end.

(** A list comprehension whose element expression may raise. *)
Fixpoint comprehension {A B} (f : A -> result B) (xs : list A) : result (list B) :=
  match xs with
  | [] => Ok []
  | x :: rest => let* y := f x in let* ys := comprehension f rest in Ok (y :: ys)
  end.

(** Equality and order on [Qc] decided by computation on the canonical
    fractions. *)
Definition Qc_eqb (x y : Qc) : bool := Qeq_bool x y.

#[global] Instance Qc_eq_decision : EqDecision Qc.
Proof.
  intros x y. destruct (Qc_eqb x y) eqn:E.
  - left. apply Qc_is_canon, Qeq_bool_iff, E.
  - right. intros ->. unfold Qc_eqb in E.
    rewrite (proj2 (Qeq_bool_iff y y) (Qeq_refl y)) in E. discriminate E.
Defined.

Definition Qc_ltb (x y : Qc) : bool :=
  match (x ?= y) with Lt => true | _ => false end.

(** Python's float division: [a / b] raises [ZeroDivisionError] when [b] is
    zero. *)
Definition py_div (a b : Qc) : result Qc :=
  if decide (b = 0) then Raise ZeroDivisionError else Ok (a / b).

(** Python's [int(x)] on a float: truncation toward zero. *)
Definition py_int (x : Qc) : Z := Z.quot (Qnum x) (Zpos (Qden x)).

(** Rationals written as fractions of integers. *)
Definition frac (n : Z) (d : positive) : Qc := Q2Qc (n # d).
Definition of_Z (n : Z) : Qc := Q2Qc (inject_Z n).

(** ** Dictionaries

    A Python [dict] keeps its keys in insertion order and the code iterates
    over several of them, so a dictionary is an association list with
    distinct keys. *)

Abbreviation dict V := (list (string * V)).

Fixpoint dict_get {V} (k : string) (d : dict V) : option V :=
  match d with
  | [] => None
  | (k', v) :: rest => if decide (k' = k) then Some v else dict_get k rest
  end.

(** [d[k] = v]: overwrite in place when [k] is present, append otherwise. *)
Fixpoint dict_set {V} (k : string) (v : V) (d : dict V) : dict V :=
  match d with
  | [] => [(k, v)]
  | (k', v') :: rest =>
      if decide (k' = k) then (k, v) :: rest else (k', v') :: dict_set k v rest
  end.

Definition dict_mem {V} (k : string) (d : dict V) : bool :=
  match dict_get k d with Some _ => true | None => false end.

(** [d[k]] as an expression: [KeyError] when [k] is absent. *)
Definition dict_index {V} (d : dict V) (k : string) : result V :=
  match dict_get k d with
  | Some v => Ok v
  | None => Raise (KeyError k)
  end.

(** [{k: v for k, v in items}]: later items overwrite earlier ones. *)
Definition dict_of_items {V} (items : list (string * V)) : dict V :=
  fold_left (fun d kv => dict_set kv.1 kv.2 d) items [].

(** ** Kaldi vectors and matrices

    A [kaldi.matrix.Vector] is a list of numbers, a [Matrix] or a packed
    symmetric [SpMatrix] a list of rows.  The in-place primitives used by the
    processor are written as functions returning the updated receiver. *)

Abbreviation vec := (list Qc).
Abbreviation mat := (list (list Qc)).

(** [Vector(n)], [Matrix(r, c)]: zero-initialised. *)
Definition Vector (n : nat) : vec := replicate n 0.
Definition Matrix (r c : nat) : mat := replicate r (Vector c).

(** [vec_vec(a, b)]: the dot product. *)
Definition vec_vec (a b : vec) : Qc := foldr Qcplus 0 (zip_with Qcmult a b).

(** [self.scale_(alpha)] *)
Definition scale_ (alpha : Qc) (self : vec) : vec := map (Qcmult alpha) self.

(** [self.add_vec_(alpha, v)]: [self += alpha * v] *)
Definition add_vec_ (alpha : Qc) (v : vec) (self : vec) : vec :=
  zip_with (fun s x => s + alpha * x) self v.

(** [self.add_vec2_(alpha, v)] on a vector: [self += alpha * v.^2] *)
Definition add_vec2_ (alpha : Qc) (v : vec) (self : vec) : vec :=
  zip_with (fun s x => s + alpha * (x * x)) self v.

(** [self.add_vec_vec_(alpha, v, r, beta)] on a vector:
    [self = beta * self + alpha * v .* r] *)
Definition add_vec_vec_ (alpha : Qc) (v r : vec) (beta : Qc) (self : vec) : vec :=
  zip_with (fun s vr => beta * s + alpha * vr) self (zip_with Qcmult v r).

(** [self.add_vec_vec_(alpha, a, b)] on a matrix: [self += alpha * a b^T];
    [SpMatrix.add_vec2_(alpha, v)] is the case [a = b = v]. *)
Definition mat_add_vec_vec_ (alpha : Qc) (a b : vec) (self : mat) : mat :=
  zip_with (fun row ai => add_vec_ (alpha * ai) b row) self a.

Definition sp_add_vec2_ (alpha : Qc) (v : vec) (self : mat) : mat :=
  mat_add_vec_vec_ alpha v v self.

(** [self.add_mat_vec_(alpha, M, NO_TRANS, v, beta)]:
    [self = beta * self + alpha * M v] *)
Definition add_mat_vec_ (alpha : Qc) (M : mat) (v : vec) (beta : Qc) (self : vec) : vec :=
  zip_with (fun s row => beta * s + alpha * vec_vec row v) self M.

(** [v.resize_(n, COPY_DATA)]: keep the data, pad with zeros. *)
Definition resize_ (n : nat) (v : vec) : vec := resize n 0 v.

(** [v[i]] for an index the code keeps in range. *)
Definition at_ (v : vec) (i : nat) : Qc := nth i v 0.
Definition row_ (M : mat) (i : nat) : vec := nth i M [].

Definition unit_vec (n i : nat) : vec := <[i := 1]> (Vector n).
Definition identity (n : nat) : mat := map (unit_vec n) (seq 0 n).

(** The numerical routines that are not written out: Kaldi's in-place
    inversion of a packed symmetric matrix ([None] when it reports a singular
    matrix) and numpy's square root. *)
Class Numerics : Type := {
  sp_invert : mat -> option mat;
  np_sqrt : Qc -> Qc
}.

(** ** Feature containers

    A numpy 2-D array is kept as its declared column count and its rows; a row
    is always read through [rows], which gives it exactly [num_cols] entries.
    The time stamps and the property dictionary of a [Features] object are
    opaque to the processor. *)

Class Carriers : Type := {
  Times : Type;
  Properties : Type;
  Utterances : Type;
  FeaturesConfig : Type;   (* the feature-extraction configuration, cmvn entry apart *)
  CmvnConfig : Type;
  UbmConfig : Type;
  VadConfig : Type;
  Ubm : Type;              (* a DiagUbmProcessor object *)
  Gmm : Type;              (* its trained [gmm] *)
  GmmAccs : Type;
  FmllrDiagGmmAccs : Type;
  Blob : Type              (* the contents of a binary model file *)
}.

Record ndarray : Type := { num_cols : nat; raw_rows : list vec }.

Definition num_rows (a : ndarray) : nat := length (raw_rows a).
Definition rows (a : ndarray) : mat := map (resize_ (num_cols a)) (raw_rows a).

Record Features `{Carriers} : Type :=
  { data : ndarray; times : Times; properties : Properties }.

Definition ndims `{Carriers} (f : Features) : nat := num_cols (data f).

Abbreviation FeaturesCollection := (dict Features).

(** ** The Kaldi [LinearVtln] object

    One linear transform and one warp factor per class.  Kaldi's constructor
    and setters assert that the class index is in range. *)

Record LinearVtln : Type := {
  lv_dim : nat;
  lv_default_class : Z;
  lv_A : list mat;
  lv_warps : vec
}.

Definition lv_num_classes (lv : LinearVtln) : Z := Z.of_nat (length (lv_A lv)).

Definition LinearVtln_new (dim : nat) (num_classes default_class : Z) : result LinearVtln :=
  if decide (0 <= default_class < num_classes)%Z then
    Ok {| lv_dim := dim;
          lv_default_class := default_class;
          lv_A := replicate (Z.to_nat num_classes) (identity dim);
          lv_warps := replicate (Z.to_nat num_classes) 1 |}
  else Raise (KaldiError "default class out of range").

Definition class_in_range (lv : LinearVtln) (i : Z) : bool :=
  bool_decide (0 <= i < lv_num_classes lv)%Z.

Definition set_transform (i : Z) (A : mat) (lv : LinearVtln) : result LinearVtln :=
  if class_in_range lv i then
    Ok {| lv_dim := lv_dim lv;
          lv_default_class := lv_default_class lv;
          lv_A := <[Z.to_nat i := A]> (lv_A lv);
          lv_warps := lv_warps lv |}
  else Raise (KaldiError "class index out of range").

Definition set_warp (i : Z) (warp : Qc) (lv : LinearVtln) : result LinearVtln :=
  if class_in_range lv i then
    Ok {| lv_dim := lv_dim lv;
          lv_default_class := lv_default_class lv;
          lv_A := lv_A lv;
          lv_warps := <[Z.to_nat i := warp]> (lv_warps lv) |}
  else Raise (KaldiError "class index out of range").

Definition get_transform (lv : LinearVtln) (i : Z) : option mat :=
  if class_in_range lv i then lv_A lv !! Z.to_nat i else None.

Definition get_warp (lv : LinearVtln) (i : Z) : result Qc :=
  if class_in_range lv i then
    match lv_warps lv !! Z.to_nat i with
    | Some w => Ok w
    | None => Raise (KaldiError "class index out of range")
    end
  else Raise (KaldiError "class index out of range").

(** [isinstance(self.lvtln, LinearVtln)] guards every method that uses the
    model. *)
Definition initialized (lvtln : option LinearVtln) : result LinearVtln :=
  match lvtln with
  | Some lv => Ok lv
  | None => Raise (TypeError "VTLN not initialized")
  end.

(** ** [VtlnProcessor.compute_mapping_transform] *)

(** The accumulators of the weighted least-squares fit (the locals [Q], [l],
    [c], [beta], [sum_xplus], [sumsq_x], [sumsq_diff]). *)
Record mapping_accs : Type := {
  acc_Q : mat;
  acc_l : mat;
  acc_c : vec;
  acc_beta : Qc;
  acc_sum_xplus : vec;
  acc_sumsq_x : vec;
  acc_sumsq_diff : vec
}.

Definition mapping_accs_init (dim : nat) : mapping_accs :=
  {| acc_Q := Matrix (dim + 1) (dim + 1);
     acc_l := Matrix dim (dim + 1);
     acc_c := Vector dim;
     acc_beta := 0;
     acc_sum_xplus := Vector (dim + 1);
     acc_sumsq_x := Vector dim;
     acc_sumsq_diff := Vector dim |}.

(** The body of the loop over the frames of one utterance. *)
Definition accumulate_frame (dim : nat) (weight : Qc) (x_row y_row : vec)
    (a : mapping_accs) : mapping_accs :=
  let xplus_row_dbl := <[dim := 1]> (resize_ (dim + 1) x_row) in
  let y_row_dbl := y_row in
  {| acc_Q := sp_add_vec2_ weight xplus_row_dbl (acc_Q a);
     acc_l := mat_add_vec_vec_ weight y_row_dbl xplus_row_dbl (acc_l a);
     acc_beta := acc_beta a + weight;
     acc_sum_xplus := add_vec_ weight xplus_row_dbl (acc_sum_xplus a);
     acc_sumsq_x := add_vec2_ weight x_row (acc_sumsq_x a);
     acc_sumsq_diff :=
       add_vec_vec_ (- (2) * weight) x_row y_row 1
         (add_vec2_ weight y_row (add_vec2_ weight x_row (acc_sumsq_diff a)));
     acc_c := add_vec2_ weight y_row (acc_c a) |}.

Definition accumulate_frames (dim : nat) (this_weights : vec) (x_feats y_feats : ndarray)
    (a : mapping_accs) : mapping_accs :=
  foldl (fun a i =>
           accumulate_frame dim (at_ this_weights i)
             (row_ (rows x_feats) i) (row_ (rows y_feats) i) a)
        a (seq 0 (num_rows x_feats)).

(** [this_weights]: the utterance's weights when [weights] is given (Kaldi's
    [copy_] asserts equal sizes), ones otherwise. *)
Definition utterance_weights (weights : option (dict vec)) (utt : string) (n : nat)
    : result vec :=
  match weights with
  | Some ws =>
      match dict_get utt ws with
      | None => Raise (ValueError "No weights for utterance")
      | Some w =>
          if decide (length w = n) then Ok w
          else Raise (KaldiError "vector size mismatch")
      end
  | None => Ok (map (fun w => w + 1) (Vector n))
  end.

(** The body of the loop over the utterances of [feats_untransformed]. *)
Definition accumulate_utterance `{Carriers} (dim : nat)
    (feats_transformed : FeaturesCollection) (weights : option (dict vec))
    (a : mapping_accs) (item : string * Features) : result mapping_accs :=
  let utt := item.1 in
  match dict_get utt feats_transformed with
  | None => Raise (ValueError "No transformed features for key")
  | Some fy =>
      let x_feats := data item.2 in
      let y_feats := data fy in
      if negb (bool_decide (num_rows x_feats = num_rows y_feats))
         || negb (bool_decide (num_cols x_feats = num_cols y_feats))
         || negb (bool_decide (num_cols x_feats = dim))
      then Raise (ValueError "Number of rows and/or columns differs")
      else
        let* this_weights := utterance_weights weights utt (num_rows x_feats) in
        Ok (accumulate_frames dim this_weights x_feats y_feats a)
  end.

(** The normal-equations solution [w_i] for output row [i]. *)
Definition solve_row (dim : nat) (Qinv : mat) (a : mapping_accs) (i : nat) : vec :=
  add_mat_vec_ 1 Qinv (row_ (acc_l a) i) 0 (Vector (dim + 1)).

(** The body of the loop over the output rows: the row [a_i] of [A], scaled.
    The arguments of the debug message are evaluated (and may raise) whatever
    the log level. *)
Definition fit_row `{Numerics} (dim : nat) (Qinv : mat) (a : mapping_accs) (i : nat)
    : result vec :=
  let beta := acc_beta a in
  let w_i := solve_row dim Qinv a i in
  let l_i := row_ (acc_l a) i in
  let a_i := take dim w_i in
  let Qw := add_mat_vec_ 1 (acc_Q a) w_i 0 (Vector (dim + 1)) in
  let* error := py_div (vec_vec w_i Qw - 2 * vec_vec w_i l_i + at_ (acc_c a) i) beta in
  let* sqdiff := py_div (at_ (acc_sumsq_diff a) i) beta in
  let* scatter := py_div (at_ (acc_sumsq_x a) i) beta in
  let* mean_x := py_div (at_ (acc_sum_xplus a) i) beta in
  let x_var := scatter - mean_x * mean_x in
  let* wQw := py_div (vec_vec w_i Qw) beta in
  let* mean_y := py_div (vec_vec w_i (acc_sum_xplus a)) beta in
  let y_var := wQw - mean_y * mean_y in
  let* ratio := py_div x_var y_var in
  let scale := np_sqrt ratio in
  Ok (scale_ scale a_i).

Definition fit_transform `{Numerics} (dim : nat) (a : mapping_accs) : result mat :=
  match sp_invert (acc_Q a) with
  | None => Raise (KaldiError "matrix is singular")
  | Some Qinv => comprehension (fit_row dim Qinv a) (seq 0 dim)
  end.

Definition mapping_stats `{Carriers} (dim : nat)
    (feats_untransformed feats_transformed : FeaturesCollection)
    (weights : option (dict vec)) : result mapping_accs :=
  for_each feats_untransformed
    (accumulate_utterance dim feats_transformed weights) (mapping_accs_init dim).

(** The method; it returns the updated [self.lvtln]. *)
Definition compute_mapping_transform `{Carriers} `{Numerics}
    (lvtln : option LinearVtln)
    (feats_untransformed feats_transformed : FeaturesCollection)
    (class_idx : Z) (warp : Qc) (weights : option (dict vec)) : result LinearVtln :=
  let* lv := initialized lvtln in
  let dim := lv_dim lv in
  let* a := mapping_stats dim feats_untransformed feats_transformed weights in
  let* A := fit_transform dim a in
  let* lv := set_transform class_idx A lv in
  set_warp class_idx warp lv.

(** ** Collaborators

    Everything the processor calls outside this module: shennong's utterance
    list, feature pipeline, post-processors and UBM, and the Kaldi transform
    library.  A mutating method returns the updated object. *)

(** [dict[str, list[list[tuple[int, float]]]]] *)
Abbreviation Posteriors := (dict (list (list (Z * Qc)))).

Class Collaborators `{Carriers} : Type := {
  (* shennong.Utterances *)
  has_speakers : Utterances -> bool;
  utterance_items : Utterances -> list (string * string);  (* (utt.name, utt.speaker) *)
  by_speaker_names : Utterances -> dict (list string);     (* speaker -> names of its utterances *)
  (* shennong.pipeline *)
  extract_features : FeaturesConfig -> Utterances -> FeaturesCollection;
  extract_features_warp : FeaturesConfig -> Utterances -> Qc -> FeaturesCollection;
  (* shennong.postprocessor *)
  vad_process : VadConfig -> Features -> list bool;
  cmvn_process : CmvnConfig -> Features -> Features;
  (* FeaturesCollection and Features methods *)
  trim : FeaturesCollection -> dict (list bool) -> FeaturesCollection;
  copy_subsample : Z -> Features -> Features;
  partition : FeaturesCollection -> dict string -> result (dict FeaturesCollection);
  (* shennong.processor.ubm.DiagUbmProcessor *)
  DiagUbmProcessor : UbmConfig -> Ubm;
  ubm_process : Ubm -> Utterances -> Ubm;
  ubm_gmm : Ubm -> option Gmm;
  ubm_get_params : Ubm -> UbmConfig;
  ubm_vad : Ubm -> VadConfig;
  gaussian_selection : Ubm -> FeaturesCollection -> Ubm;
  gaussian_selection_to_post : Ubm -> FeaturesCollection -> Posteriors;
  ubm_accumulate : Ubm -> FeaturesCollection -> GmmAccs;
  ubm_estimate : Ubm -> GmmAccs -> Ubm;
  gmm_dim : Gmm -> nat;
  (* kaldi.transform *)
  from_dim : nat -> FmllrDiagGmmAccs;
  accumulate_from_posteriors_preselect :
    option Gmm -> list Z -> vec -> vec -> FmllrDiagGmmAccs -> FmllrDiagGmmAccs;
  (* [LinearVtln.compute_transform]: (class_idx, transform, objf_impr, count) *)
  compute_transform : LinearVtln -> FmllrDiagGmmAccs -> string -> Qc -> Z * mat * Qc * Qc;
  lvtln_write : LinearVtln -> Blob;
  lvtln_read : Blob -> result LinearVtln
}.

(** ** The processor object *)

Record VtlnProcessor `{Carriers} : Type := {
  num_iters : Z;
  min_warp : Qc;
  max_warp : Qc;
  warp_step : Qc;
  logdet_scale : Qc;
  norm_type : string;
  subsample : Z;
  by_speaker : bool;
  features : FeaturesConfig;
  sliding_window_cmvn : option CmvnConfig;   (* [features['sliding_window_cmvn']] *)
  ubm : UbmConfig;
  lvtln : option LinearVtln;
  transforms : option (dict mat);
  warps : option (dict Qc)
}.

(** The [norm_type] setter. *)
Definition set_norm_type `{Carriers} (value : string) (self : VtlnProcessor)
    : result VtlnProcessor :=
  if bool_decide (value ∈ ["offset"; "none"; "diag"]%string) then
    Ok {| num_iters := num_iters self; min_warp := min_warp self;
          max_warp := max_warp self; warp_step := warp_step self;
          logdet_scale := logdet_scale self; norm_type := value;
          subsample := subsample self; by_speaker := by_speaker self;
          features := features self;
          sliding_window_cmvn := sliding_window_cmvn self;
          ubm := ubm self; lvtln := lvtln self;
          transforms := transforms self; warps := warps self |}
  else Raise (ValueError "Invalid norm type").

(** ** [VtlnProcessor.estimate] *)

Section Estimate.
Context `{Collaborators}.

(** The loop over the frames of one utterance: [post[i]] is split into
    [gselect] and [this_post] and accumulated with row [i]. *)
Definition accumulate_posteriors (gmm : option Gmm) (feats : ndarray)
    (post : list (list (Z * Qc))) (spk_stats : FmllrDiagGmmAccs) : FmllrDiagGmmAccs :=
  foldl (fun stats i =>
           let gselect := map fst (nth i post []) in
           let this_post := map snd (nth i post []) in
           accumulate_from_posteriors_preselect gmm gselect
             (row_ (rows feats) i) this_post stats)
        spk_stats (seq 0 (length post)).

(** One utterance: its posteriors must exist and have one entry per row. *)
Definition accumulate_for_utterance (ubm : Ubm) (posteriors : Posteriors)
    (spk_stats : FmllrDiagGmmAccs) (item : string * Features) : result FmllrDiagGmmAccs :=
  match dict_get item.1 posteriors with
  | None => Raise (ValueError "No posterior for utterance")
  | Some post =>
      let feats := data item.2 in
      if decide (length post = num_rows feats) then
        Ok (accumulate_posteriors (ubm_gmm ubm) feats post spk_stats)
      else Raise (ValueError "Posterior has wrong size")
  end.

(** The locals of [estimate]: the tables [transforms], [warps] and
    [class_counts], and the totals [tot_lvtln_impr] and [tot_t]. *)
Record estimate_tables : Type := {
  es_transforms : dict mat;
  es_warps : dict Qc;
  es_class_counts : vec
}.

Record estimate_state : Type := {
  es_tables : estimate_tables;
  es_tot_lvtln_impr : Qc;
  es_tot_t : Qc
}.

(** [class_counts[class_idx] += 1] *)
Definition count_class (class_counts : vec) (class_idx : Z) : result vec :=
  if bool_decide (0 <= class_idx < Z.of_nat (length class_counts))%Z then
    Ok (<[Z.to_nat class_idx := at_ class_counts (Z.to_nat class_idx) + 1]> class_counts)
  else Raise IndexError.

(** One unit (a speaker, or an utterance on its own), up to the debug
    message: accumulate over its utterances, let Kaldi choose the class and
    the transform, record them under the unit's key.  It returns the new
    tables with the unit's [objf_impr] and [count]. *)
Definition unit_outcome (self : VtlnProcessor) (lv : LinearVtln) (ubm : Ubm)
    (posteriors : Posteriors) (tables : estimate_tables)
    (unit : string * FeaturesCollection) : result (estimate_tables * (Qc * Qc)) :=
  let key := unit.1 in
  let* spk_stats :=
    for_each unit.2 (accumulate_for_utterance ubm posteriors) (from_dim (lv_dim lv)) in
  let '(class_idx, transform, objf_impr, count) :=
    compute_transform lv spk_stats (norm_type self) (logdet_scale self) in
  let* class_counts := count_class (es_class_counts tables) class_idx in
  let transforms := dict_set key transform (es_transforms tables) in
  let* warp := get_warp lv class_idx in
  let warps := dict_set key warp (es_warps tables) in
  Ok ({| es_transforms := transforms; es_warps := warps;
         es_class_counts := class_counts |}, (objf_impr, count)).

(** The whole loop body: the debug message divides [objf_impr] by [count],
    then the totals are updated. *)
Definition estimate_unit (self : VtlnProcessor) (lv : LinearVtln) (ubm : Ubm)
    (posteriors : Posteriors) (st : estimate_state)
    (unit : string * FeaturesCollection) : result estimate_state :=
  let* (tables, (objf_impr, count)) :=
    unit_outcome self lv ubm posteriors (es_tables st) unit in
  let* per_frame := py_div objf_impr count in
  Ok {| es_tables := tables;
        es_tot_lvtln_impr := es_tot_lvtln_impr st + objf_impr;
        es_tot_t := es_tot_t st + count |}.

Definition estimate_init (lv : LinearVtln) : estimate_state :=
  {| es_tables := {| es_transforms := []; es_warps := [];
                     es_class_counts := Vector (Z.to_nat (lv_num_classes lv)) |};
     es_tot_lvtln_impr := 0; es_tot_t := 0 |}.

(** The units of adaptation: the speakers' collections when [utt2speak] is
    given, every utterance on its own otherwise. *)
Definition estimate_units (feats_collection : FeaturesCollection)
    (utt2speak : option (dict string)) : result (list (string * FeaturesCollection)) :=
  match utt2speak with
  | Some u2s => partition feats_collection u2s
  | None => Ok (map (fun item => (item.1, [item])) feats_collection)
  end.

Definition estimate (self : VtlnProcessor) (ubm : Ubm)
    (feats_collection : FeaturesCollection) (posteriors : Posteriors)
    (utt2speak : option (dict string)) : result (dict mat * dict Qc) :=
  let* lv := initialized (lvtln self) in
  let* units := estimate_units feats_collection utt2speak in
  let* st := for_each units (estimate_unit self lv ubm posteriors) (estimate_init lv) in
  let* per_frame := py_div (es_tot_lvtln_impr st) (es_tot_t st) in
  Ok (es_transforms (es_tables st), es_warps (es_tables st)).

(** The same loop without the debug divisions: the [(objf_impr, count)] of
    every unit, in order.  It names what [estimate] has accumulated when it
    reaches its final message. *)
Fixpoint unit_outcomes (self : VtlnProcessor) (lv : LinearVtln) (ubm : Ubm)
    (posteriors : Posteriors) (units : list (string * FeaturesCollection))
    (tables : estimate_tables) : result (list (Qc * Qc)) :=
  match units with
  | [] => Ok []
  | unit :: rest =>
      let* (tables', oc) := unit_outcome self lv ubm posteriors tables unit in
      let* ocs := unit_outcomes self lv ubm posteriors rest tables' in
      Ok (oc :: ocs)
  end.

(** [tot_t]: the counts added up in the order of the loop. *)
Definition total_count (outcomes : list (Qc * Qc)) : Qc :=
  foldl (fun tot oc => tot + oc.2) 0 outcomes.
End Estimate.

(** ** Persistence: [save] and [load]

    The file system as far as the two methods see it: a path names a regular
    file with its contents, a directory, or nothing. *)

Inductive node `{Carriers} : Type :=
| RegularFile (contents : Blob)
| Directory.

Abbreviation filesystem := (gmap string node).

Section Persistence.
Context `{Collaborators}.

Definition path_exists (fs : filesystem) (path : string) : Prop :=
  is_Some (fs !! path).

(** [os.path.isfile(path)] *)
Definition isfile (fs : filesystem) (path : string) : bool :=
  match fs !! path with
  | Some (RegularFile _) => true
  | _ => false
  end.

(** [kaldi.util.io.xopen(path, mode='wb')] followed by the write: opening a
    directory for writing fails, anything else is created or truncated. *)
Definition xopen_write (fs : filesystem) (path : string) (contents : Blob)
    : result unit * filesystem :=
  match fs !! path with
  | Some Directory => (Raise (KaldiError "error opening output stream"), fs)
  | _ => (Ok tt, <[path := RegularFile contents]> fs)
  end.

Definition save (self : VtlnProcessor) (path : string) (fs : filesystem)
    : result unit * filesystem :=
  if isfile fs path then (Raise (OSError "file already exists"), fs)
  else
    match lvtln self with
    | None => (Raise (TypeError "VTLN not initialized"), fs)
    | Some lv => xopen_write fs path (lvtln_write lv)
    end.

(** [load] is a class method: it builds a processor with the constructor's
    defaults ([fresh]) and reads the model into it. *)
Definition load (fresh : VtlnProcessor) (path : string) (fs : filesystem)
    : result VtlnProcessor :=
  if negb (isfile fs path) then Raise (OSError "file not found")
  else
    let* lv0 := LinearVtln_new 0 1 0 in
    match fs !! path with
    | Some (RegularFile contents) =>
        let* lv := lvtln_read contents in
        Ok {| num_iters := num_iters fresh; min_warp := min_warp fresh;
              max_warp := max_warp fresh; warp_step := warp_step fresh;
              logdet_scale := logdet_scale fresh; norm_type := norm_type fresh;
              subsample := subsample fresh; by_speaker := by_speaker fresh;
              features := features fresh;
              sliding_window_cmvn := sliding_window_cmvn fresh;
              ubm := ubm fresh; lvtln := Some lv;
              transforms := transforms fresh; warps := warps fresh |}
    | _ => Raise (KaldiError "error opening input stream")
    end.
End Persistence.

(** ** Persistence of the warps: [save_warps] and [load_warps]

    PyYAML is a collaborator: [yaml_dump] writes a dictionary of warps as the
    contents of a file, [yaml_load] parses the contents of a file into the
    Python object they denote, or fails with [YAMLError] ([None]). *)

Class Yaml `{Carriers} : Type := {
  PyObject : Type;
  yaml_dump : dict Qc -> Blob;
  yaml_load : Blob -> option PyObject
}.

Section WarpsPersistence.
Context `{Yaml}.

(** [open(path, 'w')] followed by the write: a directory cannot be opened,
    anything else is created or truncated. *)
Definition open_write (fs : filesystem) (path : string) (contents : Blob)
    : result unit * filesystem :=
  match fs !! path with
  | Some Directory => (Raise (OSError "Is a directory"), fs)
  | _ => (Ok tt, <[path := RegularFile contents]> fs)
  end.

Definition save_warps (self : VtlnProcessor) (path : string) (fs : filesystem)
    : result unit * filesystem :=
  if isfile fs path then (Raise (OSError "file already exists"), fs)
  else
    match warps self with
    | None => (Raise (TypeError "Warps not computed"), fs)
    | Some w => open_write fs path (yaml_dump w)
    end.

(** [load_warps] is a class method; it returns whatever the document
    denotes. *)
Definition load_warps (path : string) (fs : filesystem) : result PyObject :=
  if negb (isfile fs path) then Raise (OSError "file not found")
  else
    match fs !! path with
    | Some (RegularFile contents) =>
        match yaml_load contents with
        | Some warps => Ok warps
        | None => Raise (ValueError "Error in VTLN warps file when loading")
        end
    | _ => Raise (OSError "file not found")
    end.

End WarpsPersistence.

(** ** [VtlnProcessor.process]

    [process] mutates [self] and calls the collaborators in a fixed order.
    The state threaded through it is the processor object together with the
    record, in program order, of the calls made. *)

Inductive call `{Carriers} : Type :=
| call_ubm_process (u : Ubm)
| call_LinearVtln_new (dim : nat) (num_classes default_class : Z)
| call_extract_features
| call_extract_features_warp (warp : Qc)
| call_compute_mapping_transform (class_idx : Z) (warp : Qc)
| call_gaussian_selection (u : Ubm) (feats : FeaturesCollection)
| call_gaussian_selection_to_post (u : Ubm) (feats : FeaturesCollection)
| call_ubm_accumulate (u : Ubm) (feats : FeaturesCollection)
| call_ubm_estimate (u : Ubm) (accs : GmmAccs)
| call_estimate (u : Ubm) (feats : FeaturesCollection) (posteriors : Posteriors).

Record pstate `{Carriers} : Type := { processor : VtlnProcessor; calls : list call }.

Definition M `{Carriers} (A : Type) : Type := pstate -> result A * pstate.

Definition ret `{Carriers} {A} (a : A) : M A := fun s => (Ok a, s).
Definition raise `{Carriers} {A} (e : exn) : M A := fun s => (Raise e, s).
Definition lift `{Carriers} {A} (r : result A) : M A := fun s => (r, s).

Definition bind `{Carriers} {A B} (m : M A) (k : A -> M B) : M B :=
  fun s =>
    match m s with
    | (Ok a, s') => k a s'
    | (Raise e, s') => (Raise e, s')
    end.

Notation "'let!' x := m 'in' k" := (bind m (fun x => k))
  (at level 10, x pattern, m at level 100, k at level 200) : py_scope.

Definition get_self `{Carriers} : M VtlnProcessor := fun s => (Ok (processor s), s).

Definition put_self `{Carriers} (v : VtlnProcessor) : M unit :=
  fun s => (Ok tt, {| processor := v; calls := calls s |}).

Definition record `{Carriers} (c : call) : M unit :=
  fun s => (Ok tt, {| processor := processor s; calls := calls s ++ [c] |}).

(** [for x in xs: acc = body(acc, x)] in the state monad. *)
Fixpoint for_loop `{Carriers} {A S} (xs : list A) (body : S -> A -> M S) (acc : S) : M S :=
  match xs with
  | [] => ret acc
  | x :: rest => let! acc' := body acc x in for_loop rest body acc'
  end.

(** [range(n)] *)
Definition py_range (n : Z) : list Z := map Z.of_nat (seq 0 (Z.to_nat n)).

(** Assignments to the attributes of [self]. *)
Definition with_ubm `{Carriers} (cfg : UbmConfig) (self : VtlnProcessor) : VtlnProcessor :=
  {| num_iters := num_iters self; min_warp := min_warp self; max_warp := max_warp self;
     warp_step := warp_step self; logdet_scale := logdet_scale self;
     norm_type := norm_type self; subsample := subsample self;
     by_speaker := by_speaker self; features := features self;
     sliding_window_cmvn := sliding_window_cmvn self;
     ubm := cfg; lvtln := lvtln self;
     transforms := transforms self; warps := warps self |}.

Definition with_lvtln `{Carriers} (lv : option LinearVtln) (self : VtlnProcessor)
    : VtlnProcessor :=
  {| num_iters := num_iters self; min_warp := min_warp self; max_warp := max_warp self;
     warp_step := warp_step self; logdet_scale := logdet_scale self;
     norm_type := norm_type self; subsample := subsample self;
     by_speaker := by_speaker self; features := features self;
     sliding_window_cmvn := sliding_window_cmvn self;
     ubm := ubm self; lvtln := lv;
     transforms := transforms self; warps := warps self |}.

Definition with_cmvn `{Carriers} (cmvn : option CmvnConfig) (self : VtlnProcessor)
    : VtlnProcessor :=
  {| num_iters := num_iters self; min_warp := min_warp self; max_warp := max_warp self;
     warp_step := warp_step self; logdet_scale := logdet_scale self;
     norm_type := norm_type self; subsample := subsample self;
     by_speaker := by_speaker self; features := features self;
     sliding_window_cmvn := cmvn;
     ubm := ubm self; lvtln := lvtln self;
     transforms := transforms self; warps := warps self |}.

Definition with_assignment `{Carriers} (tr : dict mat) (wp : dict Qc)
    (self : VtlnProcessor) : VtlnProcessor :=
  {| num_iters := num_iters self; min_warp := min_warp self; max_warp := max_warp self;
     warp_step := warp_step self; logdet_scale := logdet_scale self;
     norm_type := norm_type self; subsample := subsample self;
     by_speaker := by_speaker self; features := features self;
     sliding_window_cmvn := sliding_window_cmvn self;
     ubm := ubm self; lvtln := lvtln self;
     transforms := Some tr; warps := Some wp |}.

(** The warp grid: [num_classes] and [default_class] as [process] computes
    them, in exact arithmetic; [Floating.num_classes_of] and
    [Floating.default_class_of] below have the arithmetic as a parameter. *)
Definition num_classes_of (min_warp max_warp warp_step : Qc) : result Z :=
  let* steps := py_div (max_warp - min_warp) warp_step in
  Ok (py_int (frac 3 2 + steps)).

Definition default_class_of (min_warp warp_step : Qc) : result Z :=
  let* steps := py_div (1 - min_warp) warp_step in
  Ok (py_int (frac 1 2 + steps)).

(** [this_warp] for class [c] in the sweep over the grid. *)
Definition class_warp (min_warp warp_step : Qc) (c : Z) : Qc :=
  min_warp + of_Z c * warp_step.

Section Process.
Context `{Collaborators} `{Numerics}.

(** The checks at the head of [process]; they return [utt2speak]. *)
Definition validate (self : VtlnProcessor) (utterances : Utterances) (group_by : string)
    : result (option (dict string)) :=
  if negb (bool_decide (group_by ∈ ["utterance"; "speaker"]%string)) then
    Raise (ValueError "group_by must be utterance or speaker")
  else if bool_decide (group_by = "speaker"%string) && negb (by_speaker self) then
    Raise (ValueError "Asking to group warps by speaker but they are computed per utterance")
  else if by_speaker self && negb (has_speakers utterances) then
    Raise (ValueError "Requested speaker based VTLN, but speaker information is missing")
  else
    let utt2speak :=
      if by_speaker self then Some (dict_of_items (utterance_items utterances)) else None in
    if Qc_ltb (max_warp self) (min_warp self) then Raise (ValueError "Min warp > max warp")
    else Ok utt2speak.

(** Train a UBM, or take the caller's if it is trained. *)
Definition acquire_ubm (utterances : Utterances) (given : option Ubm) : M Ubm :=
  let! self := get_self in
  match given with
  | None =>
      let u := DiagUbmProcessor (ubm self) in
      let! _ := record (call_ubm_process u) in
      ret (ubm_process u utterances)
  | Some u =>
      match ubm_gmm u with
      | None => raise (ValueError "Given UBM-GMM has not been trained")
      | Some _ =>
          let! _ := put_self (with_ubm (ubm_get_params u) self) in
          ret u
      end
  end.

(** Create [self.lvtln]; it returns [num_classes]. *)
Definition initialize_lvtln (u : Ubm) : M Z :=
  let! self := get_self in
  let! gmm := lift (match ubm_gmm u with Some g => Ok g | None => Raise AttributeError end) in
  let dim := gmm_dim gmm in
  let! num_classes :=
    lift (num_classes_of (min_warp self) (max_warp self) (warp_step self)) in
  let! default_class := lift (default_class_of (min_warp self) (warp_step self)) in
  let! _ := record (call_LinearVtln_new dim num_classes default_class) in
  let! lv := lift (LinearVtln_new dim num_classes default_class) in
  let! _ := put_self (with_lvtln (Some lv) self) in
  ret num_classes.

(** [FeaturesCollection({utt: feats.copy(subsample=n) for utt, feats in c.items()})] *)
Definition subsampled (n : Z) (c : FeaturesCollection) : FeaturesCollection :=
  dict_of_items (map (fun item => (item.1, copy_subsample n item.2)) c).

Definition vad_decisions (u : Ubm) (raw_mfcc : FeaturesCollection) : dict (list bool) :=
  dict_of_items (map (fun item => (item.1, vad_process (ubm_vad u) item.2)) raw_mfcc).

Definition apply_cmvn (cmvn_config : option CmvnConfig) (raw_mfcc : FeaturesCollection)
    : FeaturesCollection :=
  match cmvn_config with
  | Some cfg => dict_of_items (map (fun item => (item.1, cmvn_process cfg item.2)) raw_mfcc)
  | None => raw_mfcc
  end.

(** One pass of the sweep over the warp grid. *)
Definition base_transform (utterances : Utterances) (vad : dict (list bool))
    (featsub_unwarped : FeaturesCollection) (_ : unit) (c : Z) : M unit :=
  let! self := get_self in
  let this_warp := class_warp (min_warp self) (warp_step self) c in
  let! _ := record (call_extract_features_warp this_warp) in
  let featsub_warped :=
    subsampled (subsample self)
      (trim (extract_features_warp (features self) utterances this_warp) vad) in
  let! _ := record (call_compute_mapping_transform c this_warp) in
  let! lv :=
    lift (compute_mapping_transform (lvtln self) featsub_unwarped featsub_warped
            c this_warp None) in
  put_self (with_lvtln (Some lv) self).

(** [np.dot(feats.data, linear_part.T) + offset] for one utterance:
    [linear_part] is the first [feats.ndims] columns of the transform and
    [offset] its column [feats.ndims], whose reading fails when the transform
    has no such column. *)
Definition affine (transform : mat) (feats : Features) : result Features :=
  let n := ndims feats in
  if decide (n < length (row_ transform 0))%nat then
    Ok {| data :=
            {| num_cols := length transform;
               raw_rows :=
                 map (fun x =>
                        map (fun t_i => vec_vec x (take n t_i) + at_ t_i n) transform)
                     (rows (data feats)) |};
          times := times feats;
          properties := properties feats |}
  else Raise IndexError.

(** The features adapted by the current transforms. *)
Definition transform_features (self : VtlnProcessor) (orig_features : FeaturesCollection)
    (utt2speak : option (dict string)) : result FeaturesCollection :=
  for_each orig_features
    (fun features item =>
       let* ind := match utt2speak with
                   | None => Ok item.1
                   | Some u2s => dict_index u2s item.1
                   end in
       let* tr := match transforms self with
                  | Some tr => Ok tr
                  | None => Raise (TypeError "NoneType is not subscriptable")
                  end in
       let* transform := dict_index tr ind in
       let* adapted := affine transform item.2 in
       Ok (dict_set item.1 adapted features))
    [].

(** [self.transforms, self.warps = self.estimate(...)] *)
Definition reestimate (u : Ubm) (orig_features : FeaturesCollection)
    (posteriors : Posteriors) (utt2speak : option (dict string)) : M unit :=
  let! self := get_self in
  let! _ := record (call_estimate u orig_features posteriors) in
  let! tw := lift (estimate self u orig_features posteriors utt2speak) in
  put_self (with_assignment tw.1 tw.2 self).

(** The body of the loop [for i in range(self.num_iters)]; the UBM object is
    updated in place, so the updated object is what the next pass sees. *)
Definition em_pass (orig_features : FeaturesCollection) (utt2speak : option (dict string))
    (u : Ubm) (i : Z) : M Ubm :=
  let! self := get_self in
  let! features := lift (transform_features self orig_features utt2speak) in
  let! _ := record (call_ubm_accumulate u features) in
  let gmm_accs := ubm_accumulate u features in
  let! _ := record (call_ubm_estimate u gmm_accs) in
  let u := ubm_estimate u gmm_accs in
  let! _ := record (call_gaussian_selection_to_post u features) in
  let posteriors := gaussian_selection_to_post u features in
  let! _ := reestimate u orig_features posteriors utt2speak in
  ret u.

Definition em_refinement (orig_features : FeaturesCollection)
    (utt2speak : option (dict string)) (u : Ubm) : M Ubm :=
  let! self := get_self in
  for_loop (py_range (num_iters self)) (em_pass orig_features utt2speak) u.

(** [{utt: table[spk] for utt, spk in utt2speak.items()}] *)
Definition broadcast {V} (table : dict V) (utt2speak : dict string) : result (dict V) :=
  let* items :=
    comprehension (fun item => let* v := dict_index table item.2 in Ok (item.1, v))
                  utt2speak in
  Ok (dict_of_items items).

Definition broadcast_to_utterances (utt2speak : option (dict string)) : M unit :=
  let! self := get_self in
  if by_speaker self then
    let! u2s := lift (match utt2speak with
                      | Some u2s => Ok u2s
                      | None => Raise AttributeError
                      end) in
    let! tr := lift (match transforms self with
                     | Some tr => Ok tr
                     | None => Raise (TypeError "NoneType is not subscriptable")
                     end) in
    let! tr' := lift (broadcast tr u2s) in
    let! wp := lift (match warps self with
                     | Some wp => Ok wp
                     | None => Raise (TypeError "NoneType is not subscriptable")
                     end) in
    let! wp' := lift (broadcast wp u2s) in
    put_self (with_assignment tr' wp' self)
  else ret tt.

(** The value returned: [self.warps], or one warp per speaker read at the
    speaker's first utterance. *)
Definition report (utterances : Utterances) (group_by : string) : M (dict Qc) :=
  let! self := get_self in
  let! wp := lift (match warps self with
                   | Some wp => Ok wp
                   | None => Raise (TypeError "NoneType is not subscriptable")
                   end) in
  if bool_decide (group_by = "utterance"%string) then ret wp
  else
    let! items :=
      lift (comprehension
              (fun item =>
                 let* first := match item.2 with
                               | name :: _ => Ok name
                               | [] => Raise IndexError
                               end in
                 let* w := dict_index wp first in
                 Ok (item.1, w))
              (by_speaker_names utterances)) in
    ret (dict_of_items items).

Definition process (utterances : Utterances) (given_ubm : option Ubm)
    (group_by : string) (njobs : Z) : M (dict Qc) :=
  let! self := get_self in
  let! utt2speak := lift (validate self utterances group_by) in
  let! u := acquire_ubm utterances given_ubm in
  let! num_classes := initialize_lvtln u in
  let! self := get_self in
  let cmvn_config := sliding_window_cmvn self in
  let! _ := put_self (with_cmvn None self) in
  let! self := get_self in
  let! _ := record call_extract_features in
  let raw_mfcc := extract_features (features self) utterances in
  let vad := vad_decisions u raw_mfcc in
  let orig_features := apply_cmvn cmvn_config raw_mfcc in
  let orig_features := trim orig_features vad in
  let orig_features := subsampled (subsample self) orig_features in
  let! _ := record call_extract_features in
  let featsub_unwarped :=
    subsampled (subsample self) (trim (extract_features (features self) utterances) vad) in
  let! _ := for_loop (py_range num_classes)
              (base_transform utterances vad featsub_unwarped) tt in
  let! self := get_self in
  let! _ := match cmvn_config with
            | Some cfg => put_self (with_cmvn (Some cfg) self)
            | None => ret tt
            end in
  let! _ := record (call_gaussian_selection u orig_features) in
  let u := gaussian_selection u orig_features in
  let! _ := record (call_gaussian_selection_to_post u orig_features) in
  let posteriors := gaussian_selection_to_post u orig_features in
  let! _ := reestimate u orig_features posteriors utt2speak in
  let! u := em_refinement orig_features utt2speak u in
  let! _ := broadcast_to_utterances utt2speak in
  report utterances group_by.

End Process.

(** ** A reference implementation of the collaborators

    Small executable stand-ins, used to run the processor on concrete data:
    one-dimensional features, a UBM that counts its re-estimations,
    posteriors read off the frames, and an exact matrix inverse by cofactors. *)

Module Reference.

(** The determinant by expansion along the first row; [n] is the number of
    rows. *)
Definition sign (j : nat) : Qc := if Nat.even j then 1 else - (1).

Fixpoint det (n : nat) (M : mat) : Qc :=
  match n, M with
  | S n', r :: M' =>
      foldr (fun j acc => sign j * at_ r j * det n' (map (delete j) M') + acc)
            0 (seq 0 (length r))
  | _, _ => 1
  end.

Definition minor (i j : nat) (M : mat) : mat := map (delete j) (delete i M).

Definition adjugate (n : nat) (M : mat) : mat :=
  map (fun i => map (fun j => sign (i + j) * det (n - 1) (minor j i M)) (seq 0 n))
      (seq 0 n).

(** [M v] *)
Definition mat_vec (M : mat) (v : vec) : vec := map (fun row => vec_vec row v) M.

(** The inverse of a symmetric matrix, checked against its rows before it is
    returned. *)
Definition invert (M : mat) : option mat :=
  let n := length M in
  let d := det n M in
  if decide (d = 0) then None
  else
    let Mi := map (scale_ (/ d)) (adjugate n M) in
    if bool_decide (map (mat_vec Mi) M = identity n) then Some Mi else None.

(** The square root of a fraction of perfect squares. *)
Definition sqrt (x : Qc) : Qc :=
  frac (Z.sqrt (Qnum x)) (Z.to_pos (Z.sqrt (Zpos (Qden x)))).

#[local] Instance numerics : Numerics := {| sp_invert := invert; np_sqrt := sqrt |}.

#[local] Instance carriers : Carriers := {|
  Times := unit;
  Properties := unit;
  Utterances := list (string * string);
  FeaturesConfig := unit;
  CmvnConfig := unit;
  UbmConfig := unit;
  VadConfig := unit;
  Ubm := bool * nat;
  Gmm := unit;
  GmmAccs := unit;
  FmllrDiagGmmAccs := Qc;
  Blob := LinearVtln
|}.

Definition frames (xs : list Qc) : Features :=
  {| data := {| num_cols := 1; raw_rows := map (fun x => [x]) xs |};
     times := tt; properties := tt |}.

(** Every utterance has the two frames [1] and [2]; a warp scales them. *)
Definition extract (us : list (string * string)) (warp : Qc) : FeaturesCollection :=
  map (fun u => (u.1, frames [warp * 1; warp * of_Z 2])) us.

Definition speakers (items : list (string * string)) : list string :=
  remove_dups (map snd items).

Definition group_by_speaker {V} (c : dict V) (utt2speak : dict string)
    : result (dict (dict V)) :=
  if forallb (fun item => dict_mem item.1 utt2speak) c then
    Ok (map (fun spk =>
               (spk, filter (fun item => dict_get item.1 utt2speak = Some spk) c))
            (speakers utt2speak))
  else Raise (ValueError "undefined utterances in the partition index").

#[local] Instance collaborators : Collaborators := {|
  has_speakers := fun us => forallb (fun u => negb (String.eqb u.2 "")) us;
  utterance_items := fun us => us;
  by_speaker_names := fun us =>
    map (fun spk => (spk, map fst (filter (fun u => u.2 = spk) us))) (speakers us);
  extract_features := fun _ us => extract us 1;
  extract_features_warp := fun _ us warp => extract us warp;
  vad_process := fun _ f => replicate (num_rows (data f)) true;
  cmvn_process := fun _ f => f;
  trim := fun c _ => c;
  copy_subsample := fun _ f => f;
  partition := group_by_speaker;
  DiagUbmProcessor := fun _ => (false, O);
  ubm_process := fun u _ => (true, u.2);
  ubm_gmm := fun u => if u.1 then Some tt else None;
  ubm_get_params := fun _ => tt;
  ubm_vad := fun _ => tt;
  gaussian_selection := fun u _ => u;
  gaussian_selection_to_post := fun _ c =>
    map (fun item => (item.1, map (fun x => [(0%Z, at_ x 0)]) (rows (data item.2)))) c;
  ubm_accumulate := fun _ _ => tt;
  ubm_estimate := fun u _ => (u.1, S u.2);
  gmm_dim := fun _ => 1%nat;
  from_dim := fun _ => 0;
  accumulate_from_posteriors_preselect := fun _ _ _ this_post stats =>
    stats + foldr Qcplus 0 this_post;
  compute_transform := fun lv stats _ _ =>
    (lv_default_class lv,
     map (fun row => row ++ [1]) (default [] (get_transform lv (lv_default_class lv))),
     1, stats);
  lvtln_write := fun lv => lv;
  lvtln_read := fun b => Ok b
|}.

(** The processor of the module's docstring, on a three-point warp grid. *)
Definition vtln : VtlnProcessor := {|
  num_iters := 2;
  min_warp := frac 1 2;
  max_warp := frac 3 2;
  warp_step := frac 1 2;
  logdet_scale := 0;
  norm_type := "offset";
  subsample := 5;
  by_speaker := true;
  features := tt;
  sliding_window_cmvn := Some tt;
  ubm := tt;
  lvtln := None;
  transforms := None;
  warps := None
|}.

Definition utterances : list (string * string) :=
  [("utt1", "spk1"); ("utt2", "spk1")]%string.

Definition start : pstate := {| processor := vtln; calls := [] |}.

(** The same processor on the grid [0.75, 1.0] with step 1. *)
Definition narrow : VtlnProcessor := {|
  num_iters := 2;
  min_warp := frac 3 4;
  max_warp := 1;
  warp_step := 1;
  logdet_scale := 0;
  norm_type := "offset";
  subsample := 5;
  by_speaker := true;
  features := tt;
  sliding_window_cmvn := Some tt;
  ubm := tt;
  lvtln := None;
  transforms := None;
  warps := None
|}.

Definition narrow_start : pstate := {| processor := narrow; calls := [] |}.

(** A model with three classes, and the paired collections of one sweep
    step. *)
Definition model : LinearVtln :=
  {| lv_dim := 1; lv_default_class := 1;
     lv_A := replicate 3 (identity 1); lv_warps := replicate 3 1 |}.

Definition unwarped : FeaturesCollection := extract utterances 1.
Definition warped (warp : Qc) : FeaturesCollection := extract utterances warp.

Definition frame_weights : dict vec :=
  [("utt1", [frac 1 2; frac 1 3]); ("utt2", [1; frac 1 4])]%string.

(** A file system holding one saved model. *)
Definition disk : filesystem := {["lvtln.bin"%string := RegularFile model]}.

(** A processor holding [model], and posteriors that select no Gaussian in
    any frame. *)
Definition trained : VtlnProcessor := with_lvtln (Some model) vtln.

Definition empty_posteriors : Posteriors :=
  [("utt1", [[]; []]); ("utt2", [[]; []])]%string.

(** The same processor on the grid [0, 1] with step 1/2: the features warped
    by the factor 0 of its first class are all zero. *)
Definition flat : VtlnProcessor := {|
  num_iters := 2;
  min_warp := 0;
  max_warp := 1;
  warp_step := frac 1 2;
  logdet_scale := 0;
  norm_type := "offset";
  subsample := 5;
  by_speaker := true;
  features := tt;
  sliding_window_cmvn := Some tt;
  ubm := tt;
  lvtln := None;
  transforms := None;
  warps := None
|}.

Definition flat_start : pstate := {| processor := flat; calls := [] |}.

(** The same processor with a step of zero, and on the grid [2, 3] with step
    1/4, which lies above 1.0. *)
Definition stalled : VtlnProcessor := {|
  num_iters := 2; min_warp := frac 1 2; max_warp := frac 3 2; warp_step := 0;
  logdet_scale := 0; norm_type := "offset"; subsample := 5; by_speaker := true;
  features := tt; sliding_window_cmvn := Some tt; ubm := tt;
  lvtln := None; transforms := None; warps := None
|}.

Definition stalled_start : pstate := {| processor := stalled; calls := [] |}.

Definition above : VtlnProcessor := {|
  num_iters := 2; min_warp := of_Z 2; max_warp := of_Z 3; warp_step := frac 1 4;
  logdet_scale := 0; norm_type := "offset"; subsample := 5; by_speaker := true;
  features := tt; sliding_window_cmvn := Some tt; ubm := tt;
  lvtln := None; transforms := None; warps := None
|}.

Definition above_start : pstate := {| processor := above; calls := [] |}.

End Reference.

Module TextFiles.

(** Files that hold dictionaries of warps, written and parsed without loss. *)
#[local] Instance carriers : Carriers := {|
  Times := unit; Properties := unit; Utterances := unit; FeaturesConfig := unit;
  CmvnConfig := unit; UbmConfig := unit; VadConfig := unit; Ubm := unit; Gmm := unit;
  GmmAccs := unit; FmllrDiagGmmAccs := unit;
  Blob := dict Qc
|}.

#[local] Instance yaml : Yaml := {|
  PyObject := dict Qc;
  yaml_dump := fun w => w;
  yaml_load := fun contents => Some contents
|}.

Definition speaker_warps : dict Qc := [("spk1"%string, frac 21 20); ("spk2"%string, 1)].

Definition processed : VtlnProcessor := {|
  num_iters := 15; min_warp := frac 17 20; max_warp := frac 5 4; warp_step := frac 1 100;
  logdet_scale := 0; norm_type := "offset"; subsample := 5; by_speaker := true;
  features := tt; sliding_window_cmvn := Some tt; ubm := tt;
  lvtln := None; transforms := None; warps := Some speaker_warps
|}.

End TextFiles.

(** ** The warp grid in floating-point arithmetic

    [num_classes] and [default_class] are integers that [int()] reads off
    floating-point values, and an error of one unit in the last place of the
    value can change the integer.  The arithmetic of these two lines is
    therefore a parameter of [Floating.process]: exact, as everywhere else
    in this development, or IEEE 754 binary64, as Python computes. *)

Record PyFloat : Type := {
  pyfloat : Type;
  (** the float held by a field, or written as a literal *)
  float_of : Qc -> pyfloat;
  float_add : pyfloat -> pyfloat -> pyfloat;
  float_sub : pyfloat -> pyfloat -> pyfloat;
  (** [x / y], which raises [ZeroDivisionError] when [y] is zero *)
  float_truediv : pyfloat -> pyfloat -> result pyfloat;
  (** [int(x)] *)
  float_int : pyfloat -> result Z
}.

Definition exact_arithmetic : PyFloat := {|
  pyfloat := Qc;
  float_of := fun x => x;
  float_add := Qcplus;
  float_sub := Qcminus;
  float_truediv := py_div;
  float_int := fun x => Ok (py_int x)
|}.

(** The binary64 number nearest to a rational, ties to the even mantissa:
    the number itself when it is a binary64 number. *)
Definition binary64_of_Qc (x : Qc) : spec_float :=
  match Qnum x with
  | Z0 => S754_zero false
  | Zpos n =>
      let '(m, e, l) := SFdiv_core_binary 53 1024 (Zpos n) 0 (Zpos (Qden x)) 0 in
      binary_round_aux 53 1024 false m e l
  | Zneg n =>
      let '(m, e, l) := SFdiv_core_binary 53 1024 (Zpos n) 0 (Zpos (Qden x)) 0 in
      binary_round_aux 53 1024 true m e l
  end.

Definition binary64_truediv (x y : spec_float) : result spec_float :=
  match y with
  | S754_zero _ => Raise ZeroDivisionError
  | _ => Ok (SFdiv 53 1024 x y)
  end.

(** [int(x)] truncates toward zero; it raises [OverflowError] on an infinity
    and [ValueError] on a NaN. *)
Definition binary64_int (x : spec_float) : result Z :=
  match x with
  | S754_zero _ => Ok 0%Z
  | S754_finite s m e => Ok (cond_Zopp s (Z.shiftl (Zpos m) e))
  | S754_infinity _ => Raise OverflowError
  | S754_nan => Raise (ValueError "cannot convert float NaN to integer")
  end.

Definition binary64 : PyFloat := {|
  pyfloat := spec_float;
  float_of := binary64_of_Qc;
  float_add := SFadd 53 1024;
  float_sub := SFsub 53 1024;
  float_truediv := binary64_truediv;
  float_int := binary64_int
|}.

Section Train.
Context `{Collaborators} `{Numerics}.

(** [process] from the line after the creation of the model to its end. *)
Definition train (utterances : Utterances) (group_by : string)
    (utt2speak : option (dict string)) (u : Ubm) (num_classes : Z) : M (dict Qc) :=
  let! self := get_self in
  let cmvn_config := sliding_window_cmvn self in
  let! _ := put_self (with_cmvn None self) in
  let! self := get_self in
  let! _ := record call_extract_features in
  let raw_mfcc := extract_features (features self) utterances in
  let vad := vad_decisions u raw_mfcc in
  let orig_features := apply_cmvn cmvn_config raw_mfcc in
  let orig_features := trim orig_features vad in
  let orig_features := subsampled (subsample self) orig_features in
  let! _ := record call_extract_features in
  let featsub_unwarped :=
    subsampled (subsample self) (trim (extract_features (features self) utterances) vad) in
  let! _ := for_loop (py_range num_classes)
              (base_transform utterances vad featsub_unwarped) tt in
  let! self := get_self in
  let! _ := match cmvn_config with
            | Some cfg => put_self (with_cmvn (Some cfg) self)
            | None => ret tt
            end in
  let! _ := record (call_gaussian_selection u orig_features) in
  let u := gaussian_selection u orig_features in
  let! _ := record (call_gaussian_selection_to_post u orig_features) in
  let posteriors := gaussian_selection_to_post u orig_features in
  let! _ := reestimate u orig_features posteriors utt2speak in
  let! u := em_refinement orig_features utt2speak u in
  let! _ := broadcast_to_utterances utt2speak in
  report utterances group_by.

End Train.

Module Floating.
Section Arithmetic.
Variable A : PyFloat.
Context `{Collaborators} `{Numerics}.

(** [int(1.5 + (self.max_warp - self.min_warp) / self.warp_step)] *)
Definition num_classes_of (min_warp max_warp warp_step : Qc) : result Z :=
  let* steps := float_truediv A (float_sub A (float_of A max_warp) (float_of A min_warp))
                  (float_of A warp_step) in
  float_int A (float_add A (float_of A (frac 3 2)) steps).

(** [int(0.5 + (1 - self.min_warp) / self.warp_step)] *)
Definition default_class_of (min_warp warp_step : Qc) : result Z :=
  let* steps := float_truediv A (float_sub A (float_of A 1) (float_of A min_warp))
                  (float_of A warp_step) in
  float_int A (float_add A (float_of A (frac 1 2)) steps).

(** Create [self.lvtln], with the grid computed in the arithmetic [A]; it
    returns [num_classes]. *)
Definition initialize_lvtln (u : Ubm) : M Z :=
  let! self := get_self in
  let! gmm := lift (match ubm_gmm u with Some g => Ok g | None => Raise AttributeError end) in
  let dim := gmm_dim gmm in
  let! num_classes :=
    lift (num_classes_of (min_warp self) (max_warp self) (warp_step self)) in
  let! default_class := lift (default_class_of (min_warp self) (warp_step self)) in
  let! _ := record (call_LinearVtln_new dim num_classes default_class) in
  let! lv := lift (LinearVtln_new dim num_classes default_class) in
  let! _ := put_self (with_lvtln (Some lv) self) in
  ret num_classes.

Definition process (utterances : Utterances) (given_ubm : option Ubm)
    (group_by : string) (njobs : Z) : M (dict Qc) :=
  let! self := get_self in
  let! utt2speak := lift (validate self utterances group_by) in
  let! u := acquire_ubm utterances given_ubm in
  let! num_classes := initialize_lvtln u in
  train utterances group_by utt2speak u num_classes.

End Arithmetic.
End Floating.

(** An invariant of the processor that a computation keeps, whether it
    returns or raises. *)
Definition preserves `{Carriers} {A} (I : VtlnProcessor -> Prop) (m : M A) : Prop :=
  forall s, I (processor s) -> I (processor (m s).2).

(** ** Vocabulary of the specification *)

(** Python's [round]: to the nearest integer, ties to the even one. *)
Definition py_round (x : Qc) : Z :=
  let f := Qfloor x in
  let r := x - of_Z f in
  if Qc_ltb r (frac 1 2) then f
  else if Qc_ltb (frac 1 2) r then (f + 1)%Z
  else if Z.even f then f else (f + 1)%Z.

(** The distance of class [c]'s warp factor to 1.0 (no warping). *)
Definition distance_to_unwarped (min_warp warp_step : Qc) (c : Z) : Qc :=
  Qcabs.Qcabs (class_warp min_warp warp_step c - 1).

(** Every weight of every utterance multiplied by [k]. *)
Definition scale_weights (k : Qc) (weights : dict vec) : dict vec :=
  map (fun item => (item.1, scale_ k item.2)) weights.

(** The accumulators of the least-squares fit, all multiplied by [k]. *)
Definition scale_accs (k : Qc) (a : mapping_accs) : mapping_accs :=
  {| acc_Q := map (scale_ k) (acc_Q a);
     acc_l := map (scale_ k) (acc_l a);
     acc_c := scale_ k (acc_c a);
     acc_beta := k * acc_beta a;
     acc_sum_xplus := scale_ k (acc_sum_xplus a);
     acc_sumsq_x := scale_ k (acc_sumsq_x a);
     acc_sumsq_diff := scale_ k (acc_sumsq_diff a) |}.

(** What a processor keeps through [process]: its configuration. *)
Definition same_configuration `{Carriers} (v v' : VtlnProcessor) : Prop :=
  num_iters v' = num_iters v /\ min_warp v' = min_warp v /\ max_warp v' = max_warp v /\
  warp_step v' = warp_step v /\ by_speaker v' = by_speaker v.

(** The model held by a processor has [n] classes and default class [d]. *)
Definition grid_model `{Carriers} (n d : Z) (v : VtlnProcessor) : Prop :=
  exists lv, lvtln v = Some lv /\ lv_num_classes lv = n /\ lv_default_class lv = d.

(** Which recorded calls are calls of [estimate]. *)
Definition is_call_estimate `{Carriers} (c : call) : bool :=
  match c with
  | call_estimate _ _ _ => true
  | _ => false
  end.

(** From state [s] to state [s'] the configuration was kept and [estimate]
    was not called. *)
Definition quiet_step `{Carriers} (s s' : pstate) : Prop :=
  same_configuration (processor s) (processor s') /\
  exists cs, calls s' = calls s ++ cs /\ Forall (fun c => is_call_estimate c = false) cs.

Section CallsOfTheEMStage.
Context `{Collaborators}.

(** The calls of one pass of the EM stage as the code makes them: the UBM [u]
    is re-estimated on the features adapted by the current transforms, the
    posteriors are computed by the re-estimated UBM on those adapted
    features, and [estimate] receives the original features, the
    re-estimated UBM and these posteriors. *)
Definition em_pass_calls (orig_features : FeaturesCollection)
    (utt2speak : option (dict string)) (u : Ubm) (pass : list call) : Prop :=
  exists (self : VtlnProcessor) (adapted : FeaturesCollection),
    transform_features self orig_features utt2speak = Ok adapted /\
    let u' := ubm_estimate u (ubm_accumulate u adapted) in
    pass = [call_ubm_accumulate u adapted;
            call_ubm_estimate u (ubm_accumulate u adapted);
            call_gaussian_selection_to_post u' adapted;
            call_estimate u' orig_features (gaussian_selection_to_post u' adapted)].

(** The UBM after a pass. *)
Definition ubm_after_pass (u : Ubm) (pass : list call) : Ubm :=
  match pass with
  | call_ubm_accumulate _ adapted :: _ => ubm_estimate u (ubm_accumulate u adapted)
  | _ => u
  end.

(** The passes of the EM stage, each starting from the UBM the previous one
    has left. *)
Fixpoint em_passes (orig_features : FeaturesCollection)
    (utt2speak : option (dict string)) (u : Ubm) (passes : list (list call)) : Prop :=
  match passes with
  | [] => True
  | pass :: rest =>
      em_pass_calls orig_features utt2speak u pass /\
      em_passes orig_features utt2speak (ubm_after_pass u pass) rest
  end.

(** One pass as the specification describes it: the posteriors, and so the
    call that computes them, are on the original features. *)
Definition em_pass_calls_on_original (orig_features : FeaturesCollection)
    (pass : list call) : Prop :=
  exists (u : Ubm) (adapted : FeaturesCollection),
    let u' := ubm_estimate u (ubm_accumulate u adapted) in
    pass = [call_ubm_accumulate u adapted;
            call_ubm_estimate u (ubm_accumulate u adapted);
            call_gaussian_selection_to_post u' orig_features;
            call_estimate u' orig_features
              (gaussian_selection_to_post u' orig_features)].

(** A call of [estimate] whose posteriors are not the ones its UBM computes
    on the features it is given. *)
Definition off_original (c : call) : bool :=
  match c with
  | call_estimate u feats posteriors =>
      negb (bool_decide (posteriors = gaussian_selection_to_post u feats))
  | _ => false
  end.

(** The calls recorded after the first call of [estimate]. *)
Fixpoint after_first_estimate (cs : list call) : list call :=
  match cs with
  | [] => []
  | c :: rest => if is_call_estimate c then rest else after_first_estimate rest
  end.

End CallsOfTheEMStage.

(** What holds of the accumulators while the warped frames are the unwarped
    ones: [l] is [Q] without its last row, and [sumsq_x] is the diagonal of
    [Q]. *)
Record same_frames_invariant (dim : nat) (a : mapping_accs) : Prop := {
  inv_Q_rows : length (acc_Q a) = (dim + 1)%nat;
  inv_Q_cols : forall i, (i < dim + 1)%nat -> length (row_ (acc_Q a) i) = (dim + 1)%nat;
  inv_l : acc_l a = take dim (acc_Q a);
  inv_sumsq_len : length (acc_sumsq_x a) = dim;
  inv_sumsq : forall i, (i < dim)%nat -> at_ (acc_sumsq_x a) i = at_ (row_ (acc_Q a) i) i
}.

(** A dictionary has distinct keys. *)
Definition distinct_keys {V} (d : dict V) : Prop := NoDup (map fst d).

(** What exact inversion of a symmetric matrix satisfies: the result has the
    shape of the argument, it maps row [i] of the argument (which is also its
    column [i]) to the [i]-th unit vector, and it commutes with rescaling. *)
Definition inverts_in_place `{Numerics} : Prop :=
  forall M Mi, sp_invert M = Some Mi -> length Mi = length M.

Definition inverts_rows `{Numerics} : Prop :=
  forall M Mi i r, sp_invert M = Some Mi -> M !! i = Some r ->
    map (fun row => vec_vec row r) Mi = unit_vec (length M) i.

Definition inverts_homogeneously `{Numerics} : Prop :=
  forall (k : Qc) M, k <> 0 ->
    sp_invert (map (scale_ k) M) = option_map (map (scale_ (/ k))) (sp_invert M).

(** ** Vocabulary of the further properties *)

(** An utterance of [feats_untransformed] has a partner in
    [feats_transformed] with as many rows and columns, the columns being the
    model's dimension. *)
Definition paired `{Carriers} (dim : nat) (feats_transformed : FeaturesCollection)
    (item : string * Features) : bool :=
  match dict_get item.1 feats_transformed with
  | Some fy =>
      bool_decide (num_rows (data item.2) = num_rows (data fy))
      && bool_decide (num_cols (data item.2) = num_cols (data fy))
      && bool_decide (num_cols (data item.2) = dim)
  | None => false
  end.

(** When weights are given, the utterance has one weight per frame. *)
Definition weighted `{Carriers} (weights : option (dict vec)) (item : string * Features)
    : bool :=
  match weights with
  | None => true
  | Some ws =>
      match dict_get item.1 ws with
      | Some w => bool_decide (length w = num_rows (data item.2))
      | None => false
      end
  end.

(** A model holds one warp factor per class. *)
Definition well_formed (lv : LinearVtln) : Prop :=
  length (lv_warps lv) = length (lv_A lv).

(** No accumulator is larger than the constructor made it. *)
Definition accs_bounded (dim : nat) (a : mapping_accs) : Prop :=
  (length (acc_Q a) <= dim + 1)%nat /\
  Forall (fun row => (length row <= dim + 1)%nat) (acc_Q a) /\
  (length (acc_l a) <= dim)%nat /\
  Forall (fun row => (length row <= dim + 1)%nat) (acc_l a) /\
  (length (acc_c a) <= dim)%nat /\
  (length (acc_sum_xplus a) <= dim + 1)%nat /\
  (length (acc_sumsq_x a) <= dim)%nat /\
  (length (acc_sumsq_diff a) <= dim)%nat.

(** The utterance has a list of posteriors with one entry per frame. *)
Definition posteriors_fit `{Carriers} (posteriors : Posteriors) (item : string * Features)
    : bool :=
  match dict_get item.1 posteriors with
  | Some post => bool_decide (length post = num_rows (data item.2))
  | None => false
  end.

(** [w] is the warp factor of one of the classes of the model. *)
Definition warp_of_model (lv : LinearVtln) (w : Qc) : Prop :=
  exists c, (0 <= c < lv_num_classes lv)%Z /\ get_warp lv c = Ok w.

(** What [process] does about the UBM: the processor after the UBM has been
    acquired, the UBM itself, and the calls made. *)
Definition adopted `{Collaborators} (given : option Ubm) (self : VtlnProcessor)
    : VtlnProcessor :=
  match given with
  | None => self
  | Some g => with_ubm (ubm_get_params g) self
  end.

Definition acquired `{Collaborators} (utterances : Utterances) (given : option Ubm)
    (self : VtlnProcessor) : Ubm :=
  match given with
  | None => ubm_process (DiagUbmProcessor (ubm self)) utterances
  | Some g => g
  end.

Definition ubm_calls `{Collaborators} (given : option Ubm) (self : VtlnProcessor)
    : list call :=
  match given with
  | None => [call_ubm_process (DiagUbmProcessor (ubm self))]
  | Some _ => []
  end.

(** The calls of the sweep over the warp grid: for each class in increasing
    order, the extraction of the features warped by the class's factor and
    the fit of the class's base transform. *)
Definition sweep_calls `{Carriers} (min_warp warp_step : Qc) (classes : list Z) : list call :=
  concat (map (fun c => [call_extract_features_warp (class_warp min_warp warp_step c);
                         call_compute_mapping_transform c (class_warp min_warp warp_step c)])
              classes).

(** The original features of a run: cmvn applied when configured, voiced
    frames only, subsampled. *)
Definition original_features `{Collaborators} (self : VtlnProcessor)
    (utterances : Utterances) (u : Ubm) : FeaturesCollection :=
  let raw_mfcc := extract_features (features self) utterances in
  subsampled (subsample self)
    (trim (apply_cmvn (sliding_window_cmvn self) raw_mfcc) (vad_decisions u raw_mfcc)).

(** The EM stage as a chain.  Each pass adapts the original features with the
    transforms that the preceding call of [estimate] has returned,
    re-estimates the UBM on the adapted features, and calls [estimate] again
    with posteriors of the re-estimated UBM; [p] is the processor with the
    model of the sweep.  The chain relates the UBM and the tables before the
    stage to those after it, through the calls of its passes. *)
Fixpoint em_chain `{Collaborators} (p : VtlnProcessor) (orig_features : FeaturesCollection)
    (utt2speak : option (dict string)) (u : Ubm) (tw : dict mat * dict Qc)
    (passes : list (list call)) (u_end : Ubm) (tw_end : dict mat * dict Qc) : Prop :=
  match passes with
  | [] => u_end = u /\ tw_end = tw
  | pass :: rest =>
      exists adapted tw',
        let self := with_assignment tw.1 tw.2 p in
        let u' := ubm_estimate u (ubm_accumulate u adapted) in
        let posteriors := gaussian_selection_to_post u' adapted in
        transform_features self orig_features utt2speak = Ok adapted /\
        estimate self u' orig_features posteriors utt2speak = Ok tw' /\
        pass = [call_ubm_accumulate u adapted;
                call_ubm_estimate u (ubm_accumulate u adapted);
                call_gaussian_selection_to_post u' adapted;
                call_estimate u' orig_features posteriors] /\
        em_chain p orig_features utt2speak u' tw' rest u_end tw_end
  end.

(** The warp read for a speaker: the one stored for its first utterance. *)
Definition speaker_warp (wp : dict Qc) (item : string * list string)
    : result (string * Qc) :=
  let* first := match item.2 with
                | name :: _ => Ok name
                | [] => Raise IndexError
                end in
  let* w := dict_index wp first in
  Ok (item.1, w).

(** [w] is one of the [n] warp factors of the grid. *)
Definition on_grid (min_warp warp_step : Qc) (n : Z) (w : Qc) : Prop :=
  exists c, (0 <= c < n)%Z /\ w = class_warp min_warp warp_step c.

(** Which recorded calls train a UBM from scratch. *)
Definition is_call_ubm_process `{Carriers} (c : call) : bool :=
  match c with
  | call_ubm_process _ => true
  | _ => false
  end.

(** The last call recorded is the fit of a base transform. *)
Definition stopped_in_fit `{Carriers} (cs : list call) : bool :=
  match last cs with
  | Some (call_compute_mapping_transform _ _) => true
  | _ => false
  end.

(** The last call recorded belongs to the stage between the removal of the
    [sliding_window_cmvn] entry and its return: an extraction of features, or
    the fit of a base transform. *)
Definition stopped_in_sweep `{Carriers} (cs : list call) : bool :=
  match last cs with
  | Some call_extract_features => true
  | Some (call_extract_features_warp _) => true
  | Some (call_compute_mapping_transform _ _) => true
  | _ => false
  end.

(** The adapted features of an utterance keep its name, its number of frames,
    its time stamps and its properties. *)
Definition adapted_from `{Carriers} (item item' : string * Features) : Prop :=
  item'.1 = item.1 /\
  num_rows (data item'.2) = num_rows (data item.2) /\
  times item'.2 = times item.2 /\
  properties item'.2 = properties item.2.

(** The EM stage as a function of the UBM and the tables it starts from: [n]
    passes, each adapting the original features with the current transforms,
    re-estimating the UBM on the adapted features and estimating the tables
    again from the posteriors of the adapted features under that UBM. *)
Fixpoint em_iterate `{Collaborators} `{Numerics} (p : VtlnProcessor)
    (orig_features : FeaturesCollection) (utt2speak : option (dict string))
    (n : nat) (u : Ubm) (tw : dict mat * dict Qc) : result (Ubm * (dict mat * dict Qc)) :=
  match n with
  | O => Ok (u, tw)
  | S n' =>
      let self := with_assignment tw.1 tw.2 p in
      let* adapted := transform_features self orig_features utt2speak in
      let u' := ubm_estimate u (ubm_accumulate u adapted) in
      let posteriors := gaussian_selection_to_post u' adapted in
      let* tw' := estimate self u' orig_features posteriors utt2speak in
      em_iterate p orig_features utt2speak n' u' tw'
  end.

(** The processor [self] holding other tables, and holding another model as
    well. *)
Definition with_tables `{Carriers} (tr : option (dict mat)) (wp : option (dict Qc))
    (self : VtlnProcessor) : VtlnProcessor :=
  {| num_iters := num_iters self; min_warp := min_warp self; max_warp := max_warp self;
     warp_step := warp_step self; logdet_scale := logdet_scale self;
     norm_type := norm_type self; subsample := subsample self;
     by_speaker := by_speaker self; features := features self;
     sliding_window_cmvn := sliding_window_cmvn self;
     ubm := ubm self; lvtln := lvtln self;
     transforms := tr; warps := wp |}.

Definition holding `{Carriers} (lv : option LinearVtln) (tr : option (dict mat))
    (wp : option (dict Qc)) (self : VtlnProcessor) : VtlnProcessor :=
  with_lvtln lv (with_tables tr wp self).

(** The state [s] with its processor seen through [f]. *)
Definition over `{Carriers} (f : VtlnProcessor -> VtlnProcessor) (s : pstate) : pstate :=
  {| processor := f (processor s); calls := calls s |}.

(** [m1], run on a processor seen through [f], does what [m2] does on the
    processor itself: the same outcome and the same calls, and when they
    return, the processor of [m2] seen through [g]. *)
Definition mirrors `{Carriers} {A} (f g : VtlnProcessor -> VtlnProcessor)
    (m1 m2 : M A) : Prop :=
  forall s,
    (m1 (over f s)).1 = (m2 s).1 /\
    calls (m1 (over f s)).2 = calls (m2 s).2 /\
    (is_ok (m2 s).1 = true -> (m1 (over f s)).2 = over g (m2 s).2).

(** * Properties *)

(** ** Arithmetic on [Qc] *)

Lemma this_plus (x y : Qc) : (Qcanon.this (x + y) == Qcanon.this x + Qcanon.this y)%Q.
Proof. simpl. apply Qred_correct. Qed.

Lemma this_opp (x : Qc) : (Qcanon.this (- x) == - Qcanon.this x)%Q.
Proof. simpl. apply Qred_correct. Qed.

Lemma this_minus (x y : Qc) : (Qcanon.this (x - y) == Qcanon.this x - Qcanon.this y)%Q.
Proof. unfold Qcminus. rewrite this_plus, this_opp. reflexivity. Qed.

Lemma this_mult (x y : Qc) : (Qcanon.this (x * y) == Qcanon.this x * Qcanon.this y)%Q.
Proof. simpl. apply Qred_correct. Qed.

Lemma this_Q2Qc (q : Q) : (Qcanon.this (Q2Qc q) == q)%Q.
Proof. simpl. apply Qred_correct. Qed.

(** Turn an order goal on [Qc] into one on [Q], where [lra] works. *)
Ltac to_Q :=
  unfold Qcle, Qclt, of_Z, frac in *;
  repeat match goal with
  | H : context [Qcanon.this (_ + _)] |- _ => rewrite this_plus in H
  | H : context [Qcanon.this (_ - _)] |- _ => rewrite this_minus in H
  | H : context [Qcanon.this (_ * _)] |- _ => rewrite this_mult in H
  | H : context [Qcanon.this (- _)] |- _ => rewrite this_opp in H
  | H : context [Qcanon.this (Q2Qc _)] |- _ => rewrite this_Q2Qc in H
  | |- context [Qcanon.this (_ + _)] => rewrite this_plus
  | |- context [Qcanon.this (_ - _)] => rewrite this_minus
  | |- context [Qcanon.this (_ * _)] => rewrite this_mult
  | |- context [Qcanon.this (- _)] => rewrite this_opp
  | |- context [Qcanon.this (Q2Qc _)] => rewrite this_Q2Qc
  end;
  change (inject_Z 0) with 0%Q in *.

Lemma Qc_eqb_spec (x y : Qc) : Qc_eqb x y = true <-> x = y.
Proof.
  unfold Qc_eqb. rewrite Qeq_bool_iff. split.
  - apply Qc_is_canon.
  - intros ->. reflexivity.
Qed.

Lemma Qc_ltb_spec (x y : Qc) : Qc_ltb x y = true <-> x < y.
Proof.
  unfold Qc_ltb. rewrite Qclt_alt. destruct (x ?= y); split; congruence.
Qed.

Lemma of_Z_le (a b : Z) : (a <= b)%Z -> of_Z a <= of_Z b.
Proof. unfold Qcle, of_Z. rewrite !this_Q2Qc. rewrite <- Zle_Qle. auto. Qed.

Lemma of_Z_succ (a : Z) : of_Z (a + 1) = of_Z a + 1.
Proof.
  unfold of_Z. apply Qc_is_canon.
  rewrite this_plus, !this_Q2Qc, inject_Z_plus. reflexivity.
Qed.

Lemma py_int_floor (x : Qc) : 0 <= x -> py_int x = Qfloor x.
Proof.
  intros Hx. unfold py_int, Qfloor. destruct x as [[n d] Hc]; simpl in *.
  unfold Qcle, Qle in Hx; simpl in Hx.
  apply Z.quot_div_nonneg; lia.
Qed.

Lemma py_int_bounds (x : Qc) :
  0 <= x -> of_Z (py_int x) <= x /\ x < of_Z (py_int x) + 1.
Proof.
  intros Hx. rewrite (py_int_floor x Hx). unfold Qcle, Qclt, of_Z.
  rewrite this_plus, !this_Q2Qc. split.
  - apply Qfloor_le.
  - pose proof (Qlt_floor x) as H. rewrite inject_Z_plus in H. exact H.
Qed.

Lemma py_int_nonneg (x : Qc) : 0 <= x -> (0 <= py_int x)%Z.
Proof.
  intros Hx. unfold py_int. destruct x as [[n d] Hc]; simpl in *.
  unfold Qcle, Qle in Hx; simpl in Hx.
  apply Z.quot_pos; lia.
Qed.

Lemma py_int_negative (x : Qc) : x < 0 -> (py_int x <= 0)%Z.
Proof.
  intros Hx. unfold py_int. destruct x as [[n d] Hc]; simpl in *.
  unfold Qclt, Qlt in Hx; simpl in Hx.
  assert (Hn : (n < 0)%Z) by lia.
  rewrite <- (Z.opp_involutive n), Z.quot_opp_l by lia.
  assert (0 <= Z.quot (- n) (Z.pos d))%Z by (apply Z.quot_pos; lia). lia.
Qed.

Lemma py_int_mono (x y : Qc) : 0 <= x -> x <= y -> (py_int x <= py_int y)%Z.
Proof.
  intros Hx Hxy. rewrite !py_int_floor; [| eapply Qcle_trans; eauto | auto].
  apply Qfloor_resp_le, Hxy.
Qed.

Lemma py_div_ok (a b : Qc) : b <> 0 -> py_div a b = Ok (a / b).
Proof. intros Hb. unfold py_div. destruct (decide (b = 0)); congruence. Qed.

Lemma Qcdiv_nonneg (a b : Qc) : 0 <= a -> 0 < b -> 0 <= a / b.
Proof.
  intros Ha Hb. unfold Qcdiv.
  replace 0 with (0 * / b) by ring.
  apply Qcmult_le_compat_r; [exact Ha|].
  apply Qclt_le_weak, Qcinv_pos, Hb.
Qed.

Lemma Qcdiv_le_compat (a b c : Qc) : a <= b -> 0 < c -> a / c <= b / c.
Proof.
  intros Hab Hc. unfold Qcdiv. apply Qcmult_le_compat_r; [exact Hab|].
  apply Qclt_le_weak, Qcinv_pos, Hc.
Qed.

Lemma Qclt_not_eq (a : Qc) : 0 < a -> a <> 0.
Proof. intros H ->. exact (Qlt_irrefl _ H). Qed.

(** The integer nearest to [a] with ties upward is nearer to [a] than any
    other integer. *)
Lemma nearest_integer (a : Qc) (d c : Z) :
  of_Z d <= frac 1 2 + a -> frac 1 2 + a < of_Z d + 1 ->
  Qcabs.Qcabs (of_Z d - a) <= Qcabs.Qcabs (of_Z c - a).
Proof.
  intros H1 H2.
  destruct (Z.eq_dec c d) as [->|Hne]; [apply Qcle_refl|].
  apply Qcle_trans with (frac 1 2).
  - apply Qcabs.Qcabs_Qcle_condition. split; to_Q; lra.
  - destruct (Z_lt_le_dec c d) as [Hc|Hc].
    + assert (Hc' : of_Z (c + 1) <= of_Z d) by (apply of_Z_le; lia).
      rewrite of_Z_succ in Hc'.
      rewrite <- Qcabs.Qcabs_opp. eapply Qcle_trans; [|apply Qcabs.Qcle_Qcabs].
      to_Q. lra.
    + assert (Hc' : of_Z (d + 1) <= of_Z c) by (apply of_Z_le; lia).
      rewrite of_Z_succ in Hc'.
      eapply Qcle_trans; [|apply Qcabs.Qcle_Qcabs].
      to_Q. lra.
Qed.

(** The distance of a class to 1.0, in grid steps. *)
Lemma distance_in_steps (min_warp warp_step a : Qc) (c : Z) :
  0 < warp_step -> a = (1 - min_warp) / warp_step ->
  distance_to_unwarped min_warp warp_step c = warp_step * Qcabs.Qcabs (of_Z c - a).
Proof.
  intros Hs ->. unfold distance_to_unwarped, class_warp.
  rewrite <- (Qcabs.Qcabs_pos warp_step) at 2 by (apply Qclt_le_weak, Hs).
  rewrite <- Qcabs.Qcabs_Qcmult. f_equal. field. apply Qclt_not_eq, Hs.
Qed.

Lemma of_Z_lt_inv (a b : Z) : of_Z a < of_Z b -> (a < b)%Z.
Proof. unfold Qclt, of_Z. rewrite !this_Q2Qc. rewrite <- Zlt_Qlt. auto. Qed.

(** ** The warp grid ([process], the lines computing [num_classes] and
    [default_class]) *)

Lemma num_classes_positive (min_warp max_warp warp_step : Qc) :
  min_warp <= max_warp -> 0 < warp_step ->
  exists n, num_classes_of min_warp max_warp warp_step = Ok n /\ (1 <= n)%Z.
Proof.
  intros Hmm Hs. unfold num_classes_of.
  rewrite py_div_ok by (apply Qclt_not_eq, Hs). simpl. eexists; split; [reflexivity|].
  assert (Hb : 0 <= (max_warp - min_warp) / warp_step).
  { apply Qcdiv_nonneg; [|exact Hs]. to_Q. lra. }
  change 1%Z with (py_int 1). apply py_int_mono.
  - to_Q. lra.
  - to_Q. lra.
Qed.

Lemma default_class_nearest (min_warp warp_step : Qc) (d : Z) :
  0 < warp_step -> default_class_of min_warp warp_step = Ok d -> (0 <= d)%Z ->
  forall c, (0 <= c)%Z ->
    distance_to_unwarped min_warp warp_step d <= distance_to_unwarped min_warp warp_step c.
Proof.
  intros Hs Hd Hd0 c Hc. unfold default_class_of in Hd.
  rewrite py_div_ok in Hd by (apply Qclt_not_eq, Hs). simpl in Hd.
  injection Hd as Hd.
  set (a := (1 - min_warp) / warp_step) in *.
  rewrite !(distance_in_steps min_warp warp_step a) by (auto || reflexivity).
  clearbody a.
  rewrite !(Qcmult_comm warp_step).
  apply Qcmult_le_compat_r; [|apply Qclt_le_weak, Hs].
  destruct (Qclt_le_dec (frac 1 2 + a) 0) as [Hneg|Hpos].
  - (* truncation toward zero gives class 0, and every class is above 1.0 *)
    assert (Hz : d = 0%Z) by (pose proof (py_int_negative _ Hneg); lia).
    rewrite Hz.
    assert (Hc' : of_Z 0 <= of_Z c) by (apply of_Z_le, Hc).
    rewrite !Qcabs.Qcabs_pos by (to_Q; lra). to_Q. lra.
  - destruct (py_int_bounds _ Hpos) as [H1 H2]. rewrite Hd in H1, H2.
    apply nearest_integer; assumption.
Qed.

(** C3, as amended.  For every grid with [min_warp <= max_warp] and a positive
    step, [num_classes] is at least 1; when moreover the grid straddles 1.0
    ([min_warp <= 1 <= max_warp]), [default_class] lies in
    [[0, num_classes)] and no class has a warp nearer to 1.0. *)
Theorem warp_grid_default_class (min_warp max_warp warp_step : Qc) :
  min_warp <= max_warp -> 0 < warp_step ->
  exists n d,
    num_classes_of min_warp max_warp warp_step = Ok n /\
    default_class_of min_warp warp_step = Ok d /\
    (1 <= n)%Z /\
    (min_warp <= 1 -> 1 <= max_warp ->
     (0 <= d < n)%Z /\
     forall c, (0 <= c < n)%Z ->
       distance_to_unwarped min_warp warp_step d
       <= distance_to_unwarped min_warp warp_step c).
Proof.
  intros Hmm Hs.
  destruct (num_classes_positive _ _ _ Hmm Hs) as (n & Hn & Hn1).
  exists n, (py_int (frac 1 2 + (1 - min_warp) / warp_step)).
  assert (Hd : default_class_of min_warp warp_step
               = Ok (py_int (frac 1 2 + (1 - min_warp) / warp_step))).
  { unfold default_class_of. rewrite py_div_ok by (apply Qclt_not_eq, Hs). reflexivity. }
  repeat split; try assumption.
  - apply py_int_nonneg.
    assert (0 <= (1 - min_warp) / warp_step)
      by (apply Qcdiv_nonneg; [to_Q; lra | exact Hs]).
    to_Q. lra.
  - unfold num_classes_of in Hn.
    rewrite py_div_ok in Hn by (apply Qclt_not_eq, Hs). simpl in Hn.
    injection Hn as Hn.
    set (a := (1 - min_warp) / warp_step) in *.
    set (b := (max_warp - min_warp) / warp_step) in *.
    assert (Ha : 0 <= a) by (apply Qcdiv_nonneg; [to_Q; lra | exact Hs]).
    assert (Hab : a <= b) by (apply Qcdiv_le_compat; [to_Q; lra | exact Hs]).
    assert (Ha' : 0 <= frac 1 2 + a) by (to_Q; lra).
    assert (Hb' : 0 <= frac 3 2 + b) by (to_Q; lra).
    destruct (py_int_bounds _ Ha') as [H1 _].
    destruct (py_int_bounds _ Hb') as [_ H2]. rewrite Hn in H2.
    apply of_Z_lt_inv. to_Q. lra.
  - intros c Hc. apply default_class_nearest; try assumption; try lia.
    apply py_int_nonneg.
    assert (0 <= (1 - min_warp) / warp_step)
      by (apply Qcdiv_nonneg; [to_Q; lra | exact Hs]).
    to_Q. lra.
Qed.

Lemma warp_grid_default_class_witness :
  exists n d,
    num_classes_of (frac 17 20) (frac 5 4) (frac 1 100) = Ok n /\
    default_class_of (frac 17 20) (frac 1 100) = Ok d /\
    (1 <= n)%Z /\
    (frac 17 20 <= 1 -> 1 <= frac 5 4 ->
     (0 <= d < n)%Z /\
     forall c, (0 <= c < n)%Z ->
       distance_to_unwarped (frac 17 20) (frac 1 100) d
       <= distance_to_unwarped (frac 17 20) (frac 1 100) c).
Proof.
  apply (warp_grid_default_class (frac 17 20) (frac 5 4) (frac 1 100)).
  - unfold Qcle, Qle. simpl. lia.
  - reflexivity.
Defined.

(** C3 as stated fails: a grid wholly above 1.0 gives a negative default
    class, a grid wholly below 1.0 a default class past the last one. *)
Lemma default_class_out_of_range :
  (of_Z 2 <= of_Z 3 /\ 0 < frac 1 4) /\
  num_classes_of (of_Z 2) (of_Z 3) (frac 1 4) = Ok 5%Z /\
  default_class_of (of_Z 2) (frac 1 4) = Ok (-3)%Z /\
  ~ (0 <= -3 < 5)%Z /\
  (frac 1 4 <= frac 1 2 /\ 0 < frac 1 4) /\
  num_classes_of (frac 1 4) (frac 1 2) (frac 1 4) = Ok 2%Z /\
  default_class_of (frac 1 4) (frac 1 4) = Ok 3%Z /\
  ~ (0 <= 3 < 2)%Z.
Proof.
  repeat split; try reflexivity; try lia; try (unfold Qcle, Qle; simpl; lia).
Qed.

(** ** Vectors: rescaling *)

Lemma zip_with_map_l {A B} (f f' : A -> B -> A) (g : A -> A) (l : list A) (l' : list B) :
  (forall x y, f' (g x) y = g (f x y)) ->
  zip_with f' (map g l) l' = map g (zip_with f l l').
Proof.
  intros Hfg. revert l'. induction l as [|x l IH]; intros [|y l']; simpl; try reflexivity.
  rewrite Hfg, IH. reflexivity.
Qed.

Lemma zip_with_pointwise {A B C} (f g : A -> B -> C) (l : list A) (l' : list B) :
  (forall x y, f x y = g x y) -> zip_with f l l' = zip_with g l l'.
Proof.
  intros Hfg. revert l'. induction l as [|x l IH]; intros [|y l']; simpl; try reflexivity.
  rewrite Hfg, IH. reflexivity.
Qed.

Lemma at_scale (k : Qc) (v : vec) (i : nat) : at_ (scale_ k v) i = k * at_ v i.
Proof.
  unfold at_, scale_. replace 0 with (k * 0) at 1 by ring. apply map_nth.
Qed.

Lemma row_scale (k : Qc) (M : mat) (i : nat) :
  row_ (map (scale_ k) M) i = scale_ k (row_ M i).
Proof. unfold row_. change [] with (scale_ k []) at 1. apply map_nth. Qed.

Lemma scale_one (v : vec) : scale_ 1 v = v.
Proof.
  unfold scale_. induction v as [|x v IH]; simpl; [reflexivity|].
  rewrite IH. f_equal. ring.
Qed.

Lemma vec_vec_scale (a b : Qc) (x y : vec) :
  vec_vec (scale_ a x) (scale_ b y) = a * b * vec_vec x y.
Proof.
  unfold vec_vec, scale_. revert y.
  induction x as [|x0 x IH]; intros [|y0 y]; simpl; try ring.
  rewrite IH. ring.
Qed.

Lemma vec_vec_scale_l (a : Qc) (x y : vec) : vec_vec (scale_ a x) y = a * vec_vec x y.
Proof.
  rewrite <- (scale_one y) at 1. rewrite vec_vec_scale. ring.
Qed.

Lemma vec_vec_scale_r (b : Qc) (x y : vec) : vec_vec x (scale_ b y) = b * vec_vec x y.
Proof.
  rewrite <- (scale_one x) at 1. rewrite vec_vec_scale. ring.
Qed.

Lemma add_vec_scale (k alpha : Qc) (v self : vec) :
  add_vec_ (k * alpha) v (scale_ k self) = scale_ k (add_vec_ alpha v self).
Proof. apply zip_with_map_l. intros; ring. Qed.

Lemma add_vec2_scale (k alpha : Qc) (v self : vec) :
  add_vec2_ (k * alpha) v (scale_ k self) = scale_ k (add_vec2_ alpha v self).
Proof. apply zip_with_map_l. intros; ring. Qed.

Lemma add_vec_vec_scale (k alpha : Qc) (v r self : vec) :
  add_vec_vec_ (k * alpha) v r 1 (scale_ k self)
  = scale_ k (add_vec_vec_ alpha v r 1 self).
Proof. apply zip_with_map_l. intros; ring. Qed.

Lemma mat_add_vec_vec_scale (k alpha : Qc) (a b : vec) (self : mat) :
  mat_add_vec_vec_ (k * alpha) a b (map (scale_ k) self)
  = map (scale_ k) (mat_add_vec_vec_ alpha a b self).
Proof.
  apply zip_with_map_l. intros row ai.
  rewrite <- Qcmult_assoc. apply add_vec_scale.
Qed.

Lemma add_mat_vec_scale_mat (k : Qc) (M : mat) (v self : vec) :
  add_mat_vec_ 1 (map (scale_ k) M) v 0 self = scale_ k (add_mat_vec_ 1 M v 0 self).
Proof.
  unfold add_mat_vec_, scale_. revert self.
  induction M as [|row M IH]; intros [|s self]; simpl; try reflexivity.
  rewrite IH. f_equal. fold (scale_ k row). rewrite vec_vec_scale_l. ring.
Qed.

Lemma add_mat_vec_rescaled (k : Qc) (M : mat) (v self : vec) :
  k <> 0 ->
  add_mat_vec_ 1 (map (scale_ (/ k)) M) (scale_ k v) 0 self = add_mat_vec_ 1 M v 0 self.
Proof.
  intros Hk. unfold add_mat_vec_. revert self.
  induction M as [|row M IH]; intros [|s self]; simpl; try reflexivity.
  rewrite IH. f_equal. rewrite vec_vec_scale. field. exact Hk.
Qed.

Lemma py_div_scale (k a b : Qc) : k <> 0 -> py_div (k * a) (k * b) = py_div a b.
Proof.
  intros Hk. unfold py_div.
  destruct (decide (b = 0)) as [->|Hb].
  - rewrite Qcmult_0_r. destruct (decide (0 = 0)); congruence.
  - destruct (decide (k * b = 0)) as [Hkb|_].
    + apply Qcmult_integral in Hkb. tauto.
    + f_equal. field. split; assumption.
Qed.

(** ** [compute_mapping_transform]: rescaling the weights *)

Lemma mapping_accs_init_scale (k : Qc) (dim : nat) :
  scale_accs k (mapping_accs_init dim) = mapping_accs_init dim.
Proof.
  assert (Hv : forall n, scale_ k (Vector n) = Vector n).
  { intros n. unfold scale_, Vector. induction n; simpl; [reflexivity|].
    rewrite IHn. f_equal. ring. }
  assert (Hm : forall r c, map (scale_ k) (Matrix r c) = Matrix r c).
  { intros r c. unfold Matrix. induction r; simpl; [reflexivity|].
    rewrite IHr, Hv. reflexivity. }
  unfold scale_accs, mapping_accs_init. simpl.
  rewrite !Hv, !Hm. f_equal. ring.
Qed.

Lemma accumulate_frame_scale (k : Qc) (dim : nat) (weight : Qc) (x_row y_row : vec)
    (a : mapping_accs) :
  accumulate_frame dim (k * weight) x_row y_row (scale_accs k a)
  = scale_accs k (accumulate_frame dim weight x_row y_row a).
Proof.
  unfold accumulate_frame, scale_accs, sp_add_vec2_. simpl.
  rewrite !mat_add_vec_vec_scale, !add_vec_scale, !add_vec2_scale.
  replace (- (2) * (k * weight)) with (k * (- (2) * weight)) by ring.
  rewrite add_vec_vec_scale. f_equal. ring.
Qed.

Lemma accumulate_frames_scale (k : Qc) (dim : nat) (w : vec) (x_feats y_feats : ndarray)
    (a : mapping_accs) :
  accumulate_frames dim (scale_ k w) x_feats y_feats (scale_accs k a)
  = scale_accs k (accumulate_frames dim w x_feats y_feats a).
Proof.
  unfold accumulate_frames. generalize (seq 0 (num_rows x_feats)) as idx.
  intros idx. revert a. induction idx as [|i idx IH]; intros a; simpl; [reflexivity|].
  rewrite at_scale, accumulate_frame_scale. apply IH.
Qed.

Lemma dict_get_scale_weights (k : Qc) (ws : dict vec) (utt : string) :
  dict_get utt (scale_weights k ws) = option_map (scale_ k) (dict_get utt ws).
Proof.
  induction ws as [|[u w] ws IH]; simpl; [reflexivity|].
  destruct (decide (u = utt)); [reflexivity | exact IH].
Qed.

Lemma utterance_weights_scale (k : Qc) (ws : dict vec) (utt : string) (n : nat) :
  utterance_weights (Some (scale_weights k ws)) utt n
  = (let* w := utterance_weights (Some ws) utt n in Ok (scale_ k w)).
Proof.
  unfold utterance_weights. rewrite dict_get_scale_weights.
  destruct (dict_get utt ws) as [w|]; simpl; [|reflexivity].
  unfold scale_. rewrite length_map.
  destruct (decide (length w = n)); reflexivity.
Qed.

Lemma accumulate_utterance_scale `{Carriers} (k : Qc) (dim : nat)
    (feats_transformed : FeaturesCollection) (ws : dict vec) (a : mapping_accs)
    (item : string * Features) :
  accumulate_utterance dim feats_transformed (Some (scale_weights k ws))
    (scale_accs k a) item
  = (let* a' := accumulate_utterance dim feats_transformed (Some ws) a item in
     Ok (scale_accs k a')).
Proof.
  unfold accumulate_utterance.
  destruct (dict_get item.1 feats_transformed) as [fy|]; [|reflexivity].
  match goal with |- context [if ?c then _ else _] => destruct c end; [reflexivity|].
  rewrite utterance_weights_scale.
  destruct (utterance_weights (Some ws) item.1 (num_rows (data item.2))) as [w|e];
    simpl; [|reflexivity].
  rewrite accumulate_frames_scale. reflexivity.
Qed.

Lemma mapping_stats_scale `{Carriers} (k : Qc) (dim : nat)
    (feats_untransformed feats_transformed : FeaturesCollection) (ws : dict vec) :
  mapping_stats dim feats_untransformed feats_transformed (Some (scale_weights k ws))
  = (let* a := mapping_stats dim feats_untransformed feats_transformed (Some ws) in
     Ok (scale_accs k a)).
Proof.
  unfold mapping_stats. rewrite <- (mapping_accs_init_scale k dim) at 1.
  generalize (mapping_accs_init dim) as a.
  induction feats_untransformed as [|item rest IH]; intros a; simpl; [reflexivity|].
  rewrite accumulate_utterance_scale.
  destruct (accumulate_utterance dim feats_transformed (Some ws) a item) as [a'|e];
    simpl; [apply IH | reflexivity].
Qed.

Lemma comprehension_pointwise {A B} (f g : A -> result B) (xs : list A) :
  (forall x, f x = g x) -> comprehension f xs = comprehension g xs.
Proof.
  intros Hfg. induction xs as [|x xs IH]; simpl; [reflexivity|].
  rewrite Hfg, IH. reflexivity.
Qed.

Lemma solve_row_scale (k : Qc) (dim : nat) (Qinv : mat) (a : mapping_accs) (i : nat) :
  k <> 0 ->
  solve_row dim (map (scale_ (/ k)) Qinv) (scale_accs k a) i = solve_row dim Qinv a i.
Proof.
  intros Hk. unfold solve_row. simpl. rewrite row_scale.
  apply add_mat_vec_rescaled, Hk.
Qed.

Lemma fit_row_scale `{Numerics} (k : Qc) (dim : nat) (Qinv : mat) (a : mapping_accs)
    (i : nat) :
  k <> 0 ->
  fit_row dim (map (scale_ (/ k)) Qinv) (scale_accs k a) i = fit_row dim Qinv a i.
Proof.
  intros Hk. unfold fit_row. rewrite (solve_row_scale k) by exact Hk.
  set (w_i := solve_row dim Qinv a i).
  simpl. rewrite row_scale, add_mat_vec_scale_mat, !at_scale, !vec_vec_scale_r.
  set (Qw := add_mat_vec_ 1 (acc_Q a) w_i 0 (Vector (dim + 1))).
  replace (k * vec_vec w_i Qw - 2 * (k * vec_vec w_i (row_ (acc_l a) i))
           + k * at_ (acc_c a) i)
    with (k * (vec_vec w_i Qw - 2 * vec_vec w_i (row_ (acc_l a) i) + at_ (acc_c a) i))
    by ring.
  rewrite !(py_div_scale k) by exact Hk.
  reflexivity.
Qed.

Lemma fit_transform_scale `{Numerics} (k : Qc) (dim : nat) (a : mapping_accs) :
  inverts_homogeneously -> k <> 0 ->
  fit_transform dim (scale_accs k a) = fit_transform dim a.
Proof.
  intros Hinv Hk. unfold fit_transform. simpl. rewrite (Hinv k _ Hk).
  destruct (sp_invert (acc_Q a)) as [Qinv|]; simpl; [|reflexivity].
  apply comprehension_pointwise. intros i. apply fit_row_scale, Hk.
Qed.

(** C4.  Whatever the paired collections, the class, the warp and the
    weights, multiplying every weight by the same [k > 0] changes nothing in
    what [compute_mapping_transform] does: it writes the same matrix and warp
    into the model, or raises the same exception.  (Exact arithmetic; the
    matrix inversion is assumed to commute with rescaling, as exact inversion
    does.) *)
Theorem compute_mapping_transform_weight_scaling `{Carriers} `{Numerics}
    (lvtln : option LinearVtln) (feats_untransformed feats_transformed : FeaturesCollection)
    (class_idx : Z) (warp : Qc) (w : dict vec) (k : Qc) :
  inverts_homogeneously -> 0 < k ->
  compute_mapping_transform lvtln feats_untransformed feats_transformed class_idx warp
    (Some (scale_weights k w))
  = compute_mapping_transform lvtln feats_untransformed feats_transformed class_idx warp
      (Some w).
Proof.
  intros Hinv Hk. unfold compute_mapping_transform.
  destruct (initialized lvtln) as [lv|e]; simpl; [|reflexivity].
  rewrite mapping_stats_scale.
  destruct (mapping_stats (lv_dim lv) feats_untransformed feats_transformed (Some w))
    as [a|e]; simpl; [|reflexivity].
  rewrite (fit_transform_scale k) by (auto using Qclt_not_eq).
  reflexivity.
Qed.

(** ** The reference inverse satisfies the laws of exact inversion *)

Lemma Qcpower_nonzero (k : Qc) (n : nat) : k <> 0 -> k ^ n <> 0.
Proof.
  intros Hk. induction n as [|n IH]; simpl.
  - discriminate.
  - intros Hz. apply Qcmult_integral in Hz. tauto.
Qed.

Lemma scale_scale (a b : Qc) (v : vec) : scale_ a (scale_ b v) = scale_ (a * b) v.
Proof.
  unfold scale_. rewrite map_map. apply map_ext. intros x. ring.
Qed.

Lemma length_scale (k : Qc) (v : vec) : length (scale_ k v) = length v.
Proof. apply length_map. Qed.

Lemma delete_scale (k : Qc) (j : nat) (v : vec) :
  delete j (scale_ k v) = scale_ k (delete j v).
Proof. unfold scale_. symmetry. apply (list_fmap_delete (Qcmult k)). Qed.

Lemma map_delete_scale (k : Qc) (j : nat) (M : mat) :
  map (delete j) (map (scale_ k) M) = map (scale_ k) (map (delete j) M).
Proof.
  rewrite !map_map. apply map_ext. intros row. apply delete_scale.
Qed.

Lemma sum_over_scale (c : Qc) (f g : nat -> Qc) (idx : list nat) :
  (forall j, g j = c * f j) ->
  foldr (fun j acc => g j + acc) 0 idx = c * foldr (fun j acc => f j + acc) 0 idx.
Proof.
  intros Hfg. induction idx as [|j idx IH]; simpl; [ring|].
  rewrite IH, Hfg. ring.
Qed.

Lemma det_scale (k : Qc) (n : nat) (M : mat) :
  length M = n -> Reference.det n (map (scale_ k) M) = k ^ n * Reference.det n M.
Proof.
  revert M. induction n as [|n IH]; intros M Hlen.
  - destruct M; simpl; ring.
  - destruct M as [|r M]; [discriminate|]. simpl in Hlen.
    injection Hlen as Hlen. simpl. rewrite length_scale.
    apply (sum_over_scale (k * k ^ n)
             (fun j => Reference.sign j * at_ r j * Reference.det n (map (delete j) M))).
    intros j. rewrite at_scale, map_delete_scale, IH.
    + ring.
    + rewrite length_map. exact Hlen.
Qed.

Lemma minor_scale (k : Qc) (i j : nat) (M : mat) :
  Reference.minor i j (map (scale_ k) M) = map (scale_ k) (Reference.minor i j M).
Proof.
  unfold Reference.minor.
  replace (delete i (map (scale_ k) M)) with (map (scale_ k) (delete i M))
    by apply (list_fmap_delete (scale_ k)).
  apply map_delete_scale.
Qed.

Lemma length_minor (i j : nat) (M : mat) :
  (i < length M)%nat -> length (Reference.minor i j M) = (length M - 1)%nat.
Proof.
  intros Hi. unfold Reference.minor. rewrite length_map.
  apply length_delete, lookup_lt_is_Some, Hi.
Qed.

Lemma adjugate_scale (k : Qc) (n : nat) (M : mat) :
  length M = n ->
  Reference.adjugate n (map (scale_ k) M)
  = map (scale_ (k ^ (n - 1))) (Reference.adjugate n M).
Proof.
  intros Hlen. unfold Reference.adjugate. rewrite map_map.
  apply map_ext. intros i. unfold scale_ at 2. rewrite map_map.
  apply map_ext_in. intros j Hj. apply in_seq in Hj.
  rewrite minor_scale, det_scale.
  - ring.
  - rewrite length_minor by lia. lia.
Qed.

Lemma mat_vec_rescaled (k : Qc) (Mi : mat) (r : vec) :
  k <> 0 ->
  Reference.mat_vec (map (scale_ (/ k)) Mi) (scale_ k r) = Reference.mat_vec Mi r.
Proof.
  intros Hk. unfold Reference.mat_vec. rewrite map_map. apply map_ext.
  intros row. rewrite vec_vec_scale. field. exact Hk.
Qed.

Lemma reference_inverts_homogeneously : @inverts_homogeneously Reference.numerics.
Proof.
  intros k M Hk. simpl. unfold Reference.invert.
  rewrite length_map. set (n := length M).
  rewrite det_scale by reflexivity.
  destruct (decide (Reference.det n M = 0)) as [Hd|Hd].
  - rewrite Hd, Qcmult_0_r. destruct (decide (0 = 0)); [reflexivity|congruence].
  - destruct (decide (k ^ n * Reference.det n M = 0)) as [Hz|_].
    { apply Qcmult_integral in Hz. destruct Hz as [Hz|Hz]; [|tauto].
      exfalso. exact (Qcpower_nonzero k n Hk Hz). }
    rewrite adjugate_scale by reflexivity.
    assert (Hmi : map (scale_ (/ (k ^ n * Reference.det n M)))
                    (map (scale_ (k ^ (n - 1))) (Reference.adjugate n M))
                  = map (scale_ (/ k))
                      (map (scale_ (/ Reference.det n M)) (Reference.adjugate n M))).
    { rewrite !map_map. destruct n as [|n']; [reflexivity|].
      apply map_ext. intros row. rewrite !scale_scale. f_equal.
      replace (S n' - 1)%nat with n' by lia. simpl. field.
      repeat split; auto using Qcpower_nonzero. }
    rewrite Hmi.
    assert (Hck : map (Reference.mat_vec
                         (map (scale_ (/ k))
                            (map (scale_ (/ Reference.det n M)) (Reference.adjugate n M))))
                      (map (scale_ k) M)
                  = map (Reference.mat_vec
                           (map (scale_ (/ Reference.det n M)) (Reference.adjugate n M)))
                        M).
    { rewrite map_map. apply map_ext. intros r. apply mat_vec_rescaled, Hk. }
    rewrite Hck.
    destruct (bool_decide _); reflexivity.
Qed.

Lemma reference_inverts_in_place : @inverts_in_place Reference.numerics.
Proof.
  intros M Mi. simpl. unfold Reference.invert.
  destruct (decide _); [discriminate|].
  destruct (bool_decide _); [|discriminate].
  intros [= <-]. unfold Reference.adjugate. rewrite !length_map, length_seq. reflexivity.
Qed.

Lemma lookup_map {A B} (f : A -> B) (l : list A) (i : nat) :
  map f l !! i = option_map f (l !! i).
Proof. apply (list_lookup_fmap f). Qed.

Lemma reference_inverts_rows : @inverts_rows Reference.numerics.
Proof.
  intros M Mi i r. simpl. unfold Reference.invert.
  destruct (decide _); [discriminate|].
  destruct (bool_decide _) eqn:Hck; [|discriminate].
  intros [= <-] Hr. apply bool_decide_eq_true in Hck.
  assert (Hi : (i < length M)%nat) by (apply lookup_lt_is_Some; eauto).
  assert (Hl : map (Reference.mat_vec
                      (map (scale_ (/ Reference.det (length M) M))
                         (Reference.adjugate (length M) M))) M !! i
               = identity (length M) !! i) by (rewrite Hck; reflexivity).
  unfold identity in Hl.
  rewrite !lookup_map, Hr, lookup_seq_lt in Hl by exact Hi.
  simpl in Hl. injection Hl as Hl. exact Hl.
Qed.

Lemma compute_mapping_transform_weight_scaling_witness :
  @compute_mapping_transform Reference.carriers Reference.numerics
    (Some Reference.model) Reference.unwarped (Reference.warped (frac 3 2)) 2 (frac 3 2)
    (Some (scale_weights (of_Z 2) Reference.frame_weights))
  = @compute_mapping_transform Reference.carriers Reference.numerics
      (Some Reference.model) Reference.unwarped (Reference.warped (frac 3 2)) 2 (frac 3 2)
      (Some Reference.frame_weights).
Proof.
  apply (@compute_mapping_transform_weight_scaling Reference.carriers Reference.numerics).
  - exact reference_inverts_homogeneously.
  - reflexivity.
Defined.

(** ** [compute_mapping_transform]: the shape of what is written *)

Lemma rbind_ok {A B} (m : result A) (k : A -> result B) (b : B) :
  rbind m k = Ok b -> exists a, m = Ok a /\ k a = Ok b.
Proof. destruct m as [a|e]; simpl; [eauto | discriminate]. Qed.

Lemma comprehension_ok {A B} (f : A -> result B) (xs : list A) (ys : list B) :
  comprehension f xs = Ok ys ->
  length ys = length xs /\
  forall i x, xs !! i = Some x -> exists y, ys !! i = Some y /\ f x = Ok y.
Proof.
  revert ys. induction xs as [|x xs IH]; intros ys Hc; simpl in Hc.
  - injection Hc as <-. split; [reflexivity|]. intros i x Hx. discriminate.
  - apply rbind_ok in Hc. destruct Hc as (y & Hy & Hc).
    apply rbind_ok in Hc. destruct Hc as (ys' & Hys & Hc).
    injection Hc as <-. destruct (IH ys' Hys) as [Hlen Hall].
    split; [simpl; congruence|].
    intros [|i] x' Hx'; simpl in *.
    + injection Hx' as <-. eauto.
    + apply Hall, Hx'.
Qed.

Lemma length_xplus (dim : nat) (x_row : vec) :
  length (<[dim := 1]> (resize_ (dim + 1) x_row)) = (dim + 1)%nat.
Proof. unfold resize_. rewrite length_insert, length_resize. reflexivity. Qed.

Lemma length_mat_add_vec_vec (alpha : Qc) (a b : vec) (self : mat) :
  length a = length self -> length (mat_add_vec_vec_ alpha a b self) = length self.
Proof.
  intros Hlen. unfold mat_add_vec_vec_. rewrite length_zip_with. lia.
Qed.

Lemma accumulate_frames_rows (dim : nat) (w : vec) (x_feats y_feats : ndarray)
    (a : mapping_accs) :
  length (acc_Q a) = (dim + 1)%nat ->
  length (acc_Q (accumulate_frames dim w x_feats y_feats a)) = (dim + 1)%nat.
Proof.
  unfold accumulate_frames. generalize (seq 0 (num_rows x_feats)) as idx.
  intros idx. revert a. induction idx as [|i idx IH]; intros a Ha; simpl; [exact Ha|].
  apply IH. simpl. unfold sp_add_vec2_.
  rewrite length_mat_add_vec_vec; [exact Ha|]. rewrite length_xplus. congruence.
Qed.

Lemma mapping_stats_rows `{Carriers} (dim : nat)
    (feats_untransformed feats_transformed : FeaturesCollection)
    (weights : option (dict vec)) (a : mapping_accs) :
  mapping_stats dim feats_untransformed feats_transformed weights = Ok a ->
  length (acc_Q a) = (dim + 1)%nat.
Proof.
  unfold mapping_stats.
  assert (Hinit : length (acc_Q (mapping_accs_init dim)) = (dim + 1)%nat)
    by (simpl; unfold Matrix; apply length_replicate).
  revert Hinit. generalize (mapping_accs_init dim) as a0.
  induction feats_untransformed as [|item rest IH]; intros a0 Ha0 Hrun; simpl in Hrun.
  - congruence.
  - apply rbind_ok in Hrun. destruct Hrun as (a1 & Hstep & Hrun).
    apply (IH a1); [|exact Hrun].
    unfold accumulate_utterance in Hstep.
    destruct (dict_get item.1 feats_transformed) as [fy|]; [|discriminate].
    match type of Hstep with context [if ?c then _ else _] => destruct c end;
      [discriminate|].
    apply rbind_ok in Hstep. destruct Hstep as (w & _ & Hstep).
    injection Hstep as <-. apply accumulate_frames_rows, Ha0.
Qed.

Lemma length_solve_row (dim : nat) (Qinv : mat) (a : mapping_accs) (i : nat) :
  length Qinv = (dim + 1)%nat -> length (solve_row dim Qinv a i) = (dim + 1)%nat.
Proof.
  intros Hq. unfold solve_row, add_mat_vec_, Vector.
  rewrite length_zip_with, length_replicate. lia.
Qed.

Lemma fit_row_ok `{Numerics} (dim : nat) (Qinv : mat) (a : mapping_accs) (i : nat)
    (row : vec) :
  fit_row dim Qinv a i = Ok row ->
  exists scale, row = scale_ scale (take dim (solve_row dim Qinv a i)).
Proof.
  unfold fit_row. cbv zeta. intros Hfit.
  repeat (apply rbind_ok in Hfit; destruct Hfit as (? & _ & Hfit)).
  injection Hfit as <-. eauto.
Qed.

Lemma get_transform_written (lv lv1 lv2 : LinearVtln) (class_idx : Z) (A : mat) (warp : Qc) :
  set_transform class_idx A lv = Ok lv1 -> set_warp class_idx warp lv1 = Ok lv2 ->
  get_transform lv2 class_idx = Some A /\
  lv_warps lv2 = <[Z.to_nat class_idx := warp]> (lv_warps lv) /\
  lv_dim lv2 = lv_dim lv /\ lv_num_classes lv2 = lv_num_classes lv /\
  lv_default_class lv2 = lv_default_class lv.
Proof.
  unfold set_transform, set_warp, get_transform, class_in_range, lv_num_classes.
  destruct (bool_decide _) eqn:Hr; [|discriminate]. intros [= <-]. simpl.
  rewrite length_insert, Hr. intros [= <-]. simpl.
  rewrite length_insert, Hr. apply bool_decide_eq_true in Hr.
  rewrite list_lookup_insert_eq by lia.
  repeat split; reflexivity.
Qed.

(** C9.  Whenever [compute_mapping_transform] returns, the matrix it has
    written into the class is [dim] by [dim]: every normal-equations solution
    [w_i] has [dim + 1] components, and row [i] of the matrix is a multiple of
    its first [dim] components only; the last one, the fitted offset, is not
    stored. *)
Theorem compute_mapping_transform_linear_only `{Carriers} `{Numerics}
    (lvtln : option LinearVtln) (feats_untransformed feats_transformed : FeaturesCollection)
    (class_idx : Z) (warp : Qc) (weights : option (dict vec)) (lv' : LinearVtln) :
  inverts_in_place ->
  compute_mapping_transform lvtln feats_untransformed feats_transformed class_idx warp
    weights = Ok lv' ->
  exists lv a Qinv A,
    lvtln = Some lv /\
    mapping_stats (lv_dim lv) feats_untransformed feats_transformed weights = Ok a /\
    sp_invert (acc_Q a) = Some Qinv /\
    get_transform lv' class_idx = Some A /\
    length A = lv_dim lv /\
    Forall (fun row => length row = lv_dim lv) A /\
    forall i, (i < lv_dim lv)%nat ->
      let w_i := solve_row (lv_dim lv) Qinv a i in
      length w_i = (lv_dim lv + 1)%nat /\
      exists scale, A !! i = Some (scale_ scale (take (lv_dim lv) w_i)).
Proof.
  intros Hplace Hrun. unfold compute_mapping_transform in Hrun.
  apply rbind_ok in Hrun. destruct Hrun as (lv & Hlv & Hrun).
  apply rbind_ok in Hrun. destruct Hrun as (a & Ha & Hrun).
  apply rbind_ok in Hrun. destruct Hrun as (A & HA & Hrun).
  apply rbind_ok in Hrun. destruct Hrun as (lv1 & Hset & Hwarp).
  destruct lvtln as [lv0|]; [|discriminate]. injection Hlv as ->.
  unfold fit_transform in HA.
  destruct (sp_invert (acc_Q a)) as [Qinv|] eqn:Hinv; [|discriminate].
  destruct (comprehension_ok _ _ _ HA) as [Hlen Hrows].
  rewrite length_seq in Hlen.
  assert (HQ : length Qinv = (lv_dim lv + 1)%nat).
  { rewrite (Hplace _ _ Hinv). eapply mapping_stats_rows, Ha. }
  assert (Hrow : forall i, (i < lv_dim lv)%nat ->
            exists scale,
              A !! i = Some (scale_ scale (take (lv_dim lv) (solve_row (lv_dim lv) Qinv a i)))).
  { intros i Hi. destruct (Hrows i i) as (row & Hrow & Hfit).
    - apply lookup_seq_lt, Hi.
    - apply fit_row_ok in Hfit. destruct Hfit as (scale & ->). eauto. }
  exists lv, a, Qinv, A.
  destruct (get_transform_written _ _ _ _ _ _ Hset Hwarp) as (Hget & _).
  repeat split; try assumption; try reflexivity.
  - apply Forall_lookup. intros i row Hi.
    assert (Hlt : (i < lv_dim lv)%nat) by (apply lookup_lt_Some in Hi; lia).
    destruct (Hrow i Hlt) as (scale & Hs). rewrite Hs in Hi. injection Hi as <-.
    rewrite length_scale, length_take, length_solve_row by exact HQ. lia.
  - apply length_solve_row, HQ.
  - apply Hrow. assumption.
Qed.

Lemma compute_mapping_transform_linear_only_witness :
  exists lv',
    @compute_mapping_transform Reference.carriers Reference.numerics
      (Some Reference.model) Reference.unwarped (Reference.warped (frac 3 2)) 2 (frac 3 2)
      None = Ok lv' /\
    exists A, get_transform lv' 2 = Some A /\ length A = 1%nat /\
              Forall (fun row => length row = 1%nat) A.
Proof.
  destruct (@compute_mapping_transform Reference.carriers Reference.numerics
              (Some Reference.model) Reference.unwarped (Reference.warped (frac 3 2))
              2 (frac 3 2) None) as [lv'|e] eqn:Hrun.
  - exists lv'. split; [reflexivity|].
    destruct (@compute_mapping_transform_linear_only
                Reference.carriers Reference.numerics _ _ _ _ _ _ _
                reference_inverts_in_place Hrun)
      as (lv & a & Qinv & A & Hlv & _ & _ & Hget & Hlen & Hrows & _).
    injection Hlv as <-. exists A. auto.
  - exfalso.
    assert (Hok : is_ok (@compute_mapping_transform Reference.carriers Reference.numerics
                           (Some Reference.model) Reference.unwarped
                           (Reference.warped (frac 3 2)) 2 (frac 3 2) None) = true)
      by (vm_compute; reflexivity).
    rewrite Hrun in Hok. discriminate Hok.
Defined.

(** ** [compute_mapping_transform] on identical collections *)

Lemma vec_vec_zeros_l (n : nat) (v : vec) : vec_vec (Vector n) v = 0.
Proof.
  unfold vec_vec, Vector. revert v.
  induction n as [|n IH]; intros [|y v]; simpl; try reflexivity.
  rewrite IH. ring.
Qed.

Lemma vec_vec_comm (a b : vec) : vec_vec a b = vec_vec b a.
Proof.
  unfold vec_vec. revert b.
  induction a as [|x a IH]; intros [|y b]; simpl; try reflexivity.
  rewrite IH. ring.
Qed.

Lemma vec_vec_cons (x y : Qc) (a b : vec) :
  vec_vec (x :: a) (y :: b) = x * y + vec_vec a b.
Proof. reflexivity. Qed.

Lemma vec_vec_unit_l (n i : nat) (v : vec) :
  (i < n)%nat -> vec_vec (unit_vec n i) v = at_ v i.
Proof.
  unfold unit_vec, at_. revert i v.
  induction n as [|n IH]; intros i v Hi; [lia|].
  destruct v as [|y v].
  - destruct i; reflexivity.
  - destruct i as [|i].
    + change (<[0%nat := 1]> (Vector (S n))) with (1 :: Vector n).
      rewrite vec_vec_cons, vec_vec_zeros_l. simpl. ring.
    + change (<[S i := 1]> (Vector (S n))) with (0 :: <[i := 1]> (Vector n)).
      rewrite vec_vec_cons, (IH i v) by lia. simpl. ring.
Qed.

Lemma vec_vec_unit_r (n i : nat) (v : vec) :
  (i < n)%nat -> vec_vec v (unit_vec n i) = at_ v i.
Proof. intros Hi. rewrite vec_vec_comm. apply vec_vec_unit_l, Hi. Qed.

Lemma add_mat_vec_fresh (n : nat) (M : mat) (v : vec) :
  length M = n ->
  add_mat_vec_ 1 M v 0 (Vector n) = map (fun row => vec_vec row v) M.
Proof.
  intros <-. unfold add_mat_vec_, Vector.
  induction M as [|row M IH]; simpl; [reflexivity|].
  rewrite IH. f_equal. ring.
Qed.

Lemma nth_zip_with {A B C} (f : A -> B -> C) (l : list A) (k : list B) (i : nat)
    (da : A) (db : B) (dc : C) :
  (i < length l)%nat -> (i < length k)%nat ->
  nth i (zip_with f l k) dc = f (nth i l da) (nth i k db).
Proof.
  revert k i. induction l as [|x l IH]; intros [|y k] [|i] Hl Hk; simpl in *;
    try lia; try reflexivity.
  apply IH; lia.
Qed.

Lemma nth_map_lt {A B} (f : A -> B) (l : list A) (i : nat) (da : A) (db : B) :
  (i < length l)%nat -> nth i (map f l) db = f (nth i l da).
Proof.
  revert i. induction l as [|x l IH]; intros [|i] Hl; simpl in *; try lia; try reflexivity.
  apply IH. lia.
Qed.

Lemma take_xplus (dim : nat) (x_row : vec) :
  length x_row = dim -> take dim (<[dim := 1]> (resize_ (dim + 1) x_row)) = x_row.
Proof.
  intros Hlen. unfold resize_. rewrite take_insert.
  destruct (decide (dim < dim)%nat); [lia|].
  rewrite take_resize, Nat.min_l by lia.
  apply resize_all_alt. symmetry; exact Hlen.
Qed.

Lemma at_xplus (dim : nat) (x_row : vec) (i : nat) :
  length x_row = dim -> (i < dim)%nat ->
  at_ (<[dim := 1]> (resize_ (dim + 1) x_row)) i = at_ x_row i.
Proof.
  intros Hlen Hi. rewrite <- (take_xplus dim x_row Hlen) at 2.
  unfold at_. rewrite !nth_lookup, lookup_take_lt by exact Hi. reflexivity.
Qed.

Lemma take_mat_add_vec_vec (n : nat) (alpha : Qc) (a b : vec) (self : mat) :
  take n (mat_add_vec_vec_ alpha a b self)
  = mat_add_vec_vec_ alpha (take n a) b (take n self).
Proof. unfold mat_add_vec_vec_. apply zip_with_take. Qed.

Lemma same_frames_init (dim : nat) : same_frames_invariant dim (mapping_accs_init dim).
Proof.
  split; simpl; unfold Matrix, Vector.
  - apply length_replicate.
  - intros i Hi. unfold row_. rewrite nth_lookup, lookup_replicate_2 by exact Hi.
    apply length_replicate.
  - rewrite take_replicate. f_equal. lia.
  - apply length_replicate.
  - intros i Hi. unfold at_, row_.
    rewrite !nth_lookup, !lookup_replicate_2 by lia. simpl.
    rewrite lookup_replicate_2 by lia. reflexivity.
Qed.

Lemma same_frames_step (dim : nat) (weight : Qc) (x_row : vec) (a : mapping_accs) :
  length x_row = dim -> same_frames_invariant dim a ->
  same_frames_invariant dim (accumulate_frame dim weight x_row x_row a).
Proof.
  intros Hlen [HQr HQc Hl Hsl Hs].
  set (xplus := <[dim := 1]> (resize_ (dim + 1) x_row)).
  assert (Hxp : length xplus = (dim + 1)%nat) by apply length_xplus.
  split; simpl; fold xplus.
  - unfold sp_add_vec2_. rewrite length_mat_add_vec_vec; [exact HQr | congruence].
  - intros i Hi. unfold sp_add_vec2_, mat_add_vec_vec_, row_.
    rewrite (nth_zip_with _ _ _ _ [] 0) by lia.
    unfold add_vec_. rewrite length_zip_with. fold (row_ (acc_Q a) i).
    rewrite HQc by exact Hi. lia.
  - unfold sp_add_vec2_. rewrite take_mat_add_vec_vec, <- Hl.
    replace (take dim xplus) with x_row by (symmetry; apply take_xplus, Hlen).
    reflexivity.
  - unfold add_vec2_. rewrite length_zip_with. lia.
  - intros i Hi. unfold sp_add_vec2_, mat_add_vec_vec_, add_vec2_, row_, at_.
    rewrite (nth_zip_with _ _ _ _ 0 0) by lia.
    rewrite (nth_zip_with _ _ _ _ [] 0) by lia.
    unfold add_vec_. rewrite (nth_zip_with _ _ _ _ 0 0).
    + fold (at_ xplus i). fold (row_ (acc_Q a) i). fold (at_ (row_ (acc_Q a) i) i).
      fold (at_ (acc_sumsq_x a) i). fold (at_ x_row i).
      unfold xplus. rewrite at_xplus by assumption. rewrite Hs by exact Hi. ring.
    + fold (row_ (acc_Q a) i). rewrite HQc by lia. lia.
    + lia.
Qed.

Lemma length_row_of_rows (x : ndarray) (i : nat) :
  (i < num_rows x)%nat -> length (row_ (rows x) i) = num_cols x.
Proof.
  intros Hi. unfold row_, rows. rewrite (nth_map_lt _ _ _ []) by exact Hi.
  unfold resize_. apply length_resize.
Qed.

Lemma same_frames_utterance (dim : nat) (w : vec) (x : ndarray) (a : mapping_accs) :
  num_cols x = dim -> same_frames_invariant dim a ->
  same_frames_invariant dim (accumulate_frames dim w x x a).
Proof.
  intros Hcols. unfold accumulate_frames.
  assert (Hidx : Forall (fun i => (i < num_rows x)%nat) (seq 0 (num_rows x))).
  { apply Forall_forall. intros i Hi. apply elem_of_seq in Hi. lia. }
  revert Hidx. generalize (seq 0 (num_rows x)) as idx.
  intros idx Hidx. revert a. induction Hidx as [|i idx Hi _ IH]; intros a Ha; simpl.
  - exact Ha.
  - apply IH, same_frames_step; [|exact Ha].
    rewrite length_row_of_rows by exact Hi. exact Hcols.
Qed.

Lemma dict_get_distinct {V} (d : dict V) (k : string) (v : V) :
  distinct_keys d -> In (k, v) d -> dict_get k d = Some v.
Proof.
  unfold distinct_keys. induction d as [|[k' v'] d IH]; intros Hnd Hin; [destruct Hin|].
  simpl in *. apply NoDup_cons in Hnd. destruct Hnd as [Hk' Hnd].
  destruct Hin as [[= -> ->]|Hin].
  - destruct (decide (k = k)); congruence.
  - destruct (decide (k' = k)) as [->|_]; [|apply IH; assumption].
    exfalso. apply Hk'. apply list_elem_of_In. apply (in_map fst) in Hin. exact Hin.
Qed.

Lemma same_frames_for_each `{Carriers} (dim : nat) (fc xs : FeaturesCollection)
    (a0 a : mapping_accs) :
  distinct_keys fc -> (forall item, In item xs -> In item fc) ->
  same_frames_invariant dim a0 ->
  for_each xs (accumulate_utterance dim fc None) a0 = Ok a ->
  same_frames_invariant dim a.
Proof.
  intros Hnd. revert a0.
  induction xs as [|item xs IH]; intros a0 Hsub Ha0 Hrun; simpl in Hrun.
  - injection Hrun as <-. exact Ha0.
  - apply rbind_ok in Hrun. destruct Hrun as (a1 & Hstep & Hrun).
    apply (IH a1); [intros it Hit; apply Hsub; right; exact Hit| |exact Hrun].
    unfold accumulate_utterance in Hstep.
    rewrite (dict_get_distinct fc item.1 item.2 Hnd) in Hstep
      by (destruct item; apply Hsub; left; reflexivity).
    match type of Hstep with context [if ?c then _ else _] => destruct c eqn:Hc end;
      [discriminate|].
    apply orb_false_elim in Hc. destruct Hc as [_ Hc].
    apply negb_false_iff, bool_decide_eq_true in Hc.
    apply rbind_ok in Hstep. destruct Hstep as (w & _ & Hstep).
    injection Hstep as <-. apply same_frames_utterance; assumption.
Qed.

Lemma same_frames_stats `{Carriers} (dim : nat) (fc : FeaturesCollection)
    (a : mapping_accs) :
  distinct_keys fc -> mapping_stats dim fc fc None = Ok a -> same_frames_invariant dim a.
Proof.
  intros Hnd Hrun. unfold mapping_stats in Hrun.
  eapply same_frames_for_each; eauto using same_frames_init.
Qed.

Lemma py_div_self (x r : Qc) : py_div x x = Ok r -> r = 1.
Proof.
  unfold py_div. destruct (decide (x = 0)) as [|Hx]; [discriminate|].
  intros [= <-]. field. exact Hx.
Qed.

Lemma take_unit_vec (dim i : nat) :
  (i < dim)%nat -> take dim (unit_vec (dim + 1) i) = unit_vec dim i.
Proof.
  intros Hi. unfold unit_vec, Vector. rewrite take_insert.
  destruct (decide (i < dim)%nat); [|lia].
  rewrite take_replicate. do 2 f_equal. lia.
Qed.

(** With identical frames every normal-equations solution is a unit vector and
    every fitted row, when the fit goes through, the corresponding row of the
    identity. *)
Lemma same_frames_solve_row `{Numerics} (dim : nat) (Qinv : mat) (a : mapping_accs)
    (i : nat) :
  inverts_in_place -> inverts_rows ->
  same_frames_invariant dim a -> sp_invert (acc_Q a) = Some Qinv -> (i < dim)%nat ->
  solve_row dim Qinv a i = unit_vec (dim + 1) i.
Proof.
  intros Hplace Hrows [HQr HQc Hl Hsl Hs] Hinv Hi.
  assert (HQi : length Qinv = (dim + 1)%nat) by (rewrite (Hplace _ _ Hinv); exact HQr).
  unfold solve_row. rewrite add_mat_vec_fresh by exact HQi.
  rewrite <- HQr. apply (Hrows _ _ _ _ Hinv).
  rewrite Hl. unfold row_. rewrite nth_lookup, lookup_take_lt by exact Hi.
  destruct (acc_Q a !! i) eqn:Hq; [reflexivity|].
  apply lookup_ge_None in Hq. lia.
Qed.

Lemma same_frames_fit_row `{Numerics} (dim : nat) (Qinv : mat) (a : mapping_accs)
    (i : nat) (row : vec) :
  inverts_in_place -> inverts_rows -> np_sqrt 1 = 1 ->
  same_frames_invariant dim a -> sp_invert (acc_Q a) = Some Qinv -> (i < dim)%nat ->
  fit_row dim Qinv a i = Ok row -> row = unit_vec dim i.
Proof.
  intros Hplace Hrows Hsqrt Hinv_a Hinv Hi. unfold fit_row.
  rewrite (same_frames_solve_row dim Qinv a i) by assumption.
  destruct Hinv_a as [HQr HQc Hl Hsl Hs].
  rewrite add_mat_vec_fresh by exact HQr.
  rewrite !vec_vec_unit_l by lia.
  assert (Hdiag : at_ (map (fun r => vec_vec r (unit_vec (dim + 1) i)) (acc_Q a)) i
                  = at_ (acc_sumsq_x a) i).
  { unfold at_ at 1. rewrite (nth_map_lt _ _ _ []) by lia.
    fold (row_ (acc_Q a) i). rewrite vec_vec_unit_r by lia. symmetry. apply Hs, Hi. }
  rewrite Hdiag. cbv zeta. intros Hfit.
  apply rbind_ok in Hfit. destruct Hfit as (error & _ & Hfit).
  apply rbind_ok in Hfit. destruct Hfit as (sqdiff & _ & Hfit).
  apply rbind_ok in Hfit. destruct Hfit as (scatter & Hscatter & Hfit).
  apply rbind_ok in Hfit. destruct Hfit as (mean_x & Hmean & Hfit).
  rewrite Hscatter, Hmean in Hfit. simpl in Hfit.
  apply rbind_ok in Hfit. destruct Hfit as (ratio & Hratio & Hfit).
  apply py_div_self in Hratio. subst ratio.
  injection Hfit as <-. rewrite Hsqrt, take_unit_vec by exact Hi. apply scale_one.
Qed.

Lemma at_unit_vec_last (dim i : nat) : (i < dim)%nat -> at_ (unit_vec (dim + 1) i) dim = 0.
Proof.
  intros Hi. unfold at_, unit_vec, Vector.
  rewrite nth_lookup, list_lookup_insert_ne by lia.
  rewrite lookup_replicate_2 by lia. reflexivity.
Qed.

(** C5.  Called with the same collection on both sides and no weights,
    [compute_mapping_transform], whenever it returns, has written the identity
    matrix into the class; every normal-equations solution is a unit vector,
    so the fitted offset, its last component, is 0 (and by C9 is not stored).
    (Exact arithmetic, where "approximately" is "exactly"; the inversion
    routine is assumed to return an inverse, and [sqrt 1 = 1].) *)
Theorem compute_mapping_transform_identity `{Carriers} `{Numerics}
    (lvtln : option LinearVtln) (feats : FeaturesCollection)
    (class_idx : Z) (warp : Qc) (lv' : LinearVtln) :
  inverts_in_place -> inverts_rows -> np_sqrt 1 = 1 -> distinct_keys feats ->
  compute_mapping_transform lvtln feats feats class_idx warp None = Ok lv' ->
  get_transform lv' class_idx = Some (identity (lv_dim lv')) /\
  exists a Qinv,
    mapping_stats (lv_dim lv') feats feats None = Ok a /\
    sp_invert (acc_Q a) = Some Qinv /\
    forall i, (i < lv_dim lv')%nat ->
      let w_i := solve_row (lv_dim lv') Qinv a i in
      take (lv_dim lv') w_i = unit_vec (lv_dim lv') i /\ at_ w_i (lv_dim lv') = 0.
Proof.
  intros Hplace Hrows Hsqrt Hnd Hrun. unfold compute_mapping_transform in Hrun.
  apply rbind_ok in Hrun. destruct Hrun as (lv & Hlv & Hrun).
  apply rbind_ok in Hrun. destruct Hrun as (a & Ha & Hrun).
  apply rbind_ok in Hrun. destruct Hrun as (A & HA & Hrun).
  apply rbind_ok in Hrun. destruct Hrun as (lv1 & Hset & Hwarp).
  destruct (get_transform_written _ _ _ _ _ _ Hset Hwarp) as (Hget & _ & Hdim & _).
  rewrite Hdim. set (dim := lv_dim lv) in *.
  pose proof (same_frames_stats dim feats a Hnd Ha) as Hinv_a.
  unfold fit_transform in HA.
  destruct (sp_invert (acc_Q a)) as [Qinv|] eqn:Hinv; [|discriminate].
  destruct (comprehension_ok _ _ _ HA) as [Hlen Hfit]. rewrite length_seq in Hlen.
  split.
  - rewrite Hget. f_equal. apply list_eq. intros i. unfold identity.
    rewrite lookup_map. destruct (decide (i < dim)%nat) as [Hi|Hi].
    + rewrite lookup_seq_lt by exact Hi. simpl.
      destruct (Hfit i i (lookup_seq_lt _ _ _ Hi)) as (row & Hrow & Hok).
      rewrite Hrow. f_equal.
      eapply same_frames_fit_row; eassumption.
    + rewrite lookup_seq_ge by lia. simpl. apply lookup_ge_None. lia.
  - exists a, Qinv. repeat split; try assumption.
    + rewrite (same_frames_solve_row dim Qinv a i) by assumption.
      apply take_unit_vec. assumption.
    + rewrite (same_frames_solve_row dim Qinv a i) by assumption.
      apply at_unit_vec_last. assumption.
Qed.

Lemma compute_mapping_transform_identity_witness :
  exists lv',
    @compute_mapping_transform Reference.carriers Reference.numerics
      (Some Reference.model) Reference.unwarped Reference.unwarped 1 1 None = Ok lv' /\
    get_transform lv' 1 = Some (identity (lv_dim lv')).
Proof.
  destruct (@compute_mapping_transform Reference.carriers Reference.numerics
              (Some Reference.model) Reference.unwarped Reference.unwarped 1 1 None)
    as [lv'|e] eqn:Hrun.
  - exists lv'. split; [reflexivity|].
    refine (proj1 (@compute_mapping_transform_identity
                     Reference.carriers Reference.numerics _ _ _ _ _
                     reference_inverts_in_place reference_inverts_rows _ _ Hrun)).
    + apply Qc_is_canon. vm_compute. reflexivity.
    + apply (bool_decide_unpack _). vm_compute. exact I.
  - exfalso.
    assert (Hok : is_ok (@compute_mapping_transform Reference.carriers Reference.numerics
                           (Some Reference.model) Reference.unwarped Reference.unwarped
                           1 1 None) = true)
      by (vm_compute; reflexivity).
    rewrite Hrun in Hok. discriminate Hok.
Defined.

(** ** [estimate] *)

Lemma estimate_loop_total `{Collaborators} (self : VtlnProcessor) (lv : LinearVtln)
    (u : Ubm) (posteriors : Posteriors) (units : list (string * FeaturesCollection))
    (st : estimate_state) (outcomes : list (Qc * Qc)) :
  unit_outcomes self lv u posteriors units (es_tables st) = Ok outcomes ->
  for_each units (estimate_unit self lv u posteriors) st = Raise ZeroDivisionError \/
  exists st', for_each units (estimate_unit self lv u posteriors) st = Ok st' /\
              es_tot_t st' = foldl (fun tot oc => tot + oc.2) (es_tot_t st) outcomes /\
              Forall (fun oc => oc.2 <> 0) outcomes.
Proof.
  revert st outcomes. induction units as [|unit rest IH]; intros st outcomes Hout.
  - injection Hout as <-. right. exists st. repeat split. constructor.
  - simpl in Hout. apply rbind_ok in Hout. destruct Hout as ([tables [objf count]] & Hu & Hout).
    apply rbind_ok in Hout. destruct Hout as (ocs & Hrest & Hout). injection Hout as <-.
    assert (Hstep : estimate_unit self lv u posteriors st unit
                    = (let* per_frame := py_div objf count in
                       Ok {| es_tables := tables;
                             es_tot_lvtln_impr := es_tot_lvtln_impr st + objf;
                             es_tot_t := es_tot_t st + count |}))
      by (unfold estimate_unit; rewrite Hu; reflexivity).
    simpl. rewrite Hstep.
    unfold py_div. destruct (decide (count = 0)) as [Hc|Hc]; simpl.
    + left. reflexivity.
    + destruct (IH {| es_tables := tables;
                      es_tot_lvtln_impr := es_tot_lvtln_impr st + objf;
                      es_tot_t := es_tot_t st + count |} ocs Hrest)
        as [Hraise|(st' & Hok & Hsum & Hnz)].
      * left. exact Hraise.
      * right. exists st'. repeat split; try assumption. constructor; assumption.
Qed.

(** C10.  With an initialised model, when the units of adaptation are
    accumulated and assigned a class without error and the counts that Kaldi
    returns for them add up to zero, or one of them is zero, [estimate] does
    not return the two mappings: it raises [ZeroDivisionError], at the first
    unit whose own count is zero or else at the final message. *)
Theorem estimate_zero_count `{Collaborators} (self : VtlnProcessor) (u : Ubm)
    (feats_collection : FeaturesCollection) (posteriors : Posteriors)
    (utt2speak : option (dict string)) (lv : LinearVtln)
    (units : list (string * FeaturesCollection)) (outcomes : list (Qc * Qc)) :
  lvtln self = Some lv ->
  estimate_units feats_collection utt2speak = Ok units ->
  unit_outcomes self lv u posteriors units (es_tables (estimate_init lv)) = Ok outcomes ->
  total_count outcomes = 0 \/ Exists (fun oc => oc.2 = 0) outcomes ->
  estimate self u feats_collection posteriors utt2speak = Raise ZeroDivisionError.
Proof.
  intros Hlv Hunits Hout Hzero. unfold estimate. rewrite Hlv, Hunits. simpl.
  destruct (estimate_loop_total self lv u posteriors units (estimate_init lv) outcomes Hout)
    as [Hraise|(st' & Hok & Hsum & Hnz)].
  - rewrite Hraise. reflexivity.
  - rewrite Hok. simpl. change (es_tot_t st' = total_count outcomes) in Hsum.
    destruct Hzero as [Htot|Hex].
    + rewrite Hsum, Htot. reflexivity.
    + exfalso. apply Exists_exists in Hex. destruct Hex as (oc & Hin & Hoc).
      rewrite Forall_forall in Hnz. exact (Hnz oc Hin Hoc).
Qed.

Lemma estimate_zero_count_witness :
  @estimate Reference.carriers Reference.collaborators Reference.trained (true, O)
    Reference.unwarped Reference.empty_posteriors None
  = Raise ZeroDivisionError.
Proof.
  apply (@estimate_zero_count Reference.carriers Reference.collaborators
           Reference.trained (true, O) Reference.unwarped Reference.empty_posteriors None
           Reference.model
           [("utt1"%string, [("utt1"%string, Reference.frames [1 * 1; 1 * of_Z 2])]);
            ("utt2"%string, [("utt2"%string, Reference.frames [1 * 1; 1 * of_Z 2])])]
           [(1, 0); (1, 0)]).
  - reflexivity.
  - reflexivity.
  - reflexivity.
  - left. reflexivity.
Defined.

(** An empty collection is the simplest case. *)
Lemma estimate_empty_collection `{Collaborators} (self : VtlnProcessor) (u : Ubm)
    (posteriors : Posteriors) (lv : LinearVtln) :
  lvtln self = Some lv -> estimate self u [] posteriors None = Raise ZeroDivisionError.
Proof.
  intros Hlv. unfold estimate. rewrite Hlv. reflexivity.
Qed.

(** ** [save] and [load] *)

(** C8.  [save] raises whenever the path exists, with [OSError] when it names a
    regular file, and leaves the file system as it was; [load] raises
    [OSError] whenever the path does not exist. *)
Theorem save_existing_load_missing `{Collaborators} (self fresh : VtlnProcessor)
    (path : string) (fs : filesystem) :
  (path_exists fs path -> exists e, save self path fs = (Raise e, fs)) /\
  (isfile fs path = true ->
   save self path fs = (Raise (OSError "file already exists"), fs)) /\
  (~ path_exists fs path -> load fresh path fs = Raise (OSError "file not found")).
Proof.
  unfold path_exists, save, load, isfile, xopen_write. repeat split.
  - intros [[contents|] Hnode]; rewrite Hnode.
    + eauto.
    + destruct (lvtln self); eauto.
  - intros Hfile. rewrite Hfile. reflexivity.
  - intros Hnone. destruct (fs !! path) as [n|] eqn:Hnode.
    + exfalso. apply Hnone. eauto.
    + reflexivity.
Qed.

Lemma save_existing_load_missing_witness :
  (exists e, @save Reference.carriers Reference.collaborators Reference.trained
               "lvtln.bin" Reference.disk = (Raise e, Reference.disk)) /\
  @load Reference.carriers Reference.collaborators Reference.vtln
    "missing.bin" Reference.disk = Raise (OSError "file not found").
Proof.
  split.
  - apply (@save_existing_load_missing Reference.carriers Reference.collaborators
             Reference.trained Reference.vtln "lvtln.bin" Reference.disk).
    unfold path_exists, Reference.disk. rewrite lookup_singleton_eq. eauto.
  - apply (@save_existing_load_missing Reference.carriers Reference.collaborators
             Reference.trained Reference.vtln "missing.bin" Reference.disk).
    unfold path_exists, Reference.disk. rewrite lookup_singleton_ne by discriminate.
    intros [n Hn]. discriminate Hn.
Defined.

(** ** [process]: the checks at its head *)

Lemma process_validate_raises `{Collaborators} `{Numerics} (utterances : Utterances)
    (given_ubm : option Ubm) (group_by : string) (njobs : Z) (s : pstate) (e : exn) :
  validate (processor s) utterances group_by = Raise e ->
  process utterances given_ubm group_by njobs s = (Raise e, s).
Proof.
  intros Hv. unfold process, bind, get_self, lift. rewrite Hv. reflexivity.
Qed.

(** C7.  Whenever [group_by] is neither ['utterance'] nor ['speaker'], or it
    is ['speaker'] while [by_speaker] is off, or [by_speaker] is on and the
    utterances carry no speakers, or [min_warp > max_warp], [process] raises
    [ValueError] with the processor untouched (no model created) and no
    collaborator called (no UBM trained); and the [norm_type] setter raises
    [ValueError] on any value other than the three accepted ones. *)
Theorem validation_errors `{Collaborators} `{Numerics} (utterances : Utterances)
    (given_ubm : option Ubm) (group_by : string) (njobs : Z) (s : pstate)
    (value : string) (self : VtlnProcessor) :
  (group_by ∉ ["utterance"; "speaker"]%string \/
   (group_by = "speaker"%string /\ by_speaker (processor s) = false) \/
   (by_speaker (processor s) = true /\ has_speakers utterances = false) \/
   max_warp (processor s) < min_warp (processor s) ->
   exists msg, process utterances given_ubm group_by njobs s = (Raise (ValueError msg), s))
  /\
  (value ∉ ["offset"; "none"; "diag"]%string ->
   exists msg, set_norm_type value self = Raise (ValueError msg)).
Proof.
  split.
  - intros Hbad.
    assert (Hv : exists msg,
               validate (processor s) utterances group_by = Raise (ValueError msg)).
    { unfold validate.
      destruct (bool_decide (group_by ∈ ["utterance"; "speaker"]%string)) eqn:Hg;
        simpl; [|eauto].
      apply bool_decide_eq_true in Hg.
      destruct (bool_decide (group_by = "speaker"%string)) eqn:Hsp;
        destruct (by_speaker (processor s)) eqn:Hby; simpl; eauto;
        destruct (has_speakers utterances) eqn:Hhas; simpl; eauto;
        destruct (Qc_ltb (max_warp (processor s)) (min_warp (processor s))) eqn:Hlt;
        eauto; exfalso;
        try apply bool_decide_eq_false in Hsp;
        (destruct Hbad as [Hb|[[Hb1 Hb2]|[[Hb1 Hb2]|Hb]]];
         [ tauto | congruence | congruence
         | apply Qc_ltb_spec in Hb; congruence ]). }
    destruct Hv as (msg & Hv). exists msg. apply process_validate_raises, Hv.
  - intros Hbad. unfold set_norm_type.
    destruct (bool_decide (value ∈ ["offset"; "none"; "diag"]%string)) eqn:Hv; [|eauto].
    apply bool_decide_eq_true in Hv. tauto.
Qed.

Lemma validation_errors_witness :
  (exists msg,
     @process Reference.carriers Reference.collaborators Reference.numerics
       Reference.utterances None "warp" 1 Reference.start
     = (Raise (ValueError msg), Reference.start)) /\
  (exists msg,
     @set_norm_type Reference.carriers "full" Reference.vtln = Raise (ValueError msg)).
Proof.
  split.
  - apply (@validation_errors Reference.carriers Reference.collaborators
             Reference.numerics Reference.utterances None "warp" 1 Reference.start
             "full" Reference.vtln).
    left. apply (bool_decide_unpack _). vm_compute. exact I.
  - apply (@validation_errors Reference.carriers Reference.collaborators
             Reference.numerics Reference.utterances None "warp" 1 Reference.start
             "full" Reference.vtln).
    apply (bool_decide_unpack _). vm_compute. exact I.
Defined.

(** ** Reasoning about the state monad *)

Lemma bind_ok `{Carriers} {A B} (m : M A) (k : A -> M B) (s s' : pstate) (b : B) :
  bind m k s = (Ok b, s') -> exists a s1, m s = (Ok a, s1) /\ k a s1 = (Ok b, s').
Proof.
  unfold bind. destruct (m s) as [[a|e] s1]; [eauto | discriminate].
Qed.

(** Split a successful run of a sequence of binds into the runs of its
    steps, and read off what the primitive steps did. *)
Ltac invert_run H :=
  repeat
    match type of H with
    | bind _ _ _ = (Ok _, _) =>
        let a := fresh "a" in
        let s := fresh "s" in
        let Hm := fresh "Hrun" in
        apply bind_ok in H; destruct H as (a & s & Hm & H);
        first [ cbv [get_self put_self record ret] in Hm; injection Hm as <- <-
              | cbv [lift] in Hm; injection Hm as Hm <-
              | idtac ]
    end.

Lemma lift_ok `{Carriers} {A} (r : result A) (s s' : pstate) (a : A) :
  lift r s = (Ok a, s') -> r = Ok a /\ s' = s.
Proof. unfold lift. intros [= -> ->]. auto. Qed.

(** A loop keeps an invariant indexed by the number of passes made. *)
Lemma for_loop_counted `{Carriers} {A T} (I : nat -> T -> pstate -> Prop)
    (body : T -> A -> M T) (xs : list A) (k : nat) (acc acc' : T) (s s' : pstate) :
  (forall j acc x s acc' s',
     I j acc s -> body acc x s = (Ok acc', s') -> I (S j) acc' s') ->
  I k acc s -> for_loop xs body acc s = (Ok acc', s') -> I (k + length xs)%nat acc' s'.
Proof.
  intros Hbody. revert k acc s.
  induction xs as [|x xs IH]; intros k acc s HI Hrun; simpl in Hrun.
  - unfold ret in Hrun. injection Hrun as <- <-. rewrite Nat.add_0_r. exact HI.
  - apply bind_ok in Hrun. destruct Hrun as (acc1 & s1 & Hstep & Hrun).
    simpl. replace (k + S (length xs))%nat with (S k + length xs)%nat by lia.
    eapply IH; [|exact Hrun]. eapply Hbody; eassumption.
Qed.

Lemma length_py_range (n : Z) : length (py_range n) = Z.to_nat n.
Proof. unfold py_range. rewrite length_map, length_seq. reflexivity. Qed.

(** ** [process]: the EM stage *)

Lemma reestimate_ok `{Collaborators} (u : Ubm) (orig_features : FeaturesCollection)
    (posteriors : Posteriors) (utt2speak : option (dict string)) (s s' : pstate) :
  reestimate u orig_features posteriors utt2speak s = (Ok tt, s') ->
  exists tw,
    estimate (processor s) u orig_features posteriors utt2speak = Ok tw /\
    processor s' = with_assignment tw.1 tw.2 (processor s) /\
    calls s' = calls s ++ [call_estimate u orig_features posteriors].
Proof.
  intros Hrun. unfold reestimate in Hrun. invert_run Hrun.
  unfold put_self in Hrun. injection Hrun as <-. simpl in *.
  eexists. eauto.
Qed.

Lemma em_pass_ok `{Collaborators} (orig_features : FeaturesCollection)
    (utt2speak : option (dict string)) (u u' : Ubm) (i : Z) (s s' : pstate) :
  em_pass orig_features utt2speak u i s = (Ok u', s') ->
  exists adapted tw,
    transform_features (processor s) orig_features utt2speak = Ok adapted /\
    u' = ubm_estimate u (ubm_accumulate u adapted) /\
    processor s' = with_assignment tw.1 tw.2 (processor s) /\
    calls s' =
      calls s ++ [call_ubm_accumulate u adapted;
                  call_ubm_estimate u (ubm_accumulate u adapted);
                  call_gaussian_selection_to_post u' adapted;
                  call_estimate u' orig_features (gaussian_selection_to_post u' adapted)].
Proof.
  intros Hrun. unfold em_pass in Hrun. invert_run Hrun.
  unfold ret in Hrun. injection Hrun as <- <-.
  match goal with
  | Hre : reestimate _ _ _ _ _ = (Ok ?x, _) |- _ =>
      destruct x; apply reestimate_ok in Hre;
      destruct Hre as (tw & Hest & Hproc & Hcalls)
  end.
  simpl in *. eexists _, tw. repeat split; try eassumption.
  rewrite Hcalls, <- !app_assoc. reflexivity.
Qed.

Lemma same_configuration_refl `{Carriers} (v : VtlnProcessor) : same_configuration v v.
Proof. repeat split. Qed.

Lemma same_configuration_trans `{Carriers} (v1 v2 v3 : VtlnProcessor) :
  same_configuration v1 v2 -> same_configuration v2 v3 -> same_configuration v1 v3.
Proof.
  unfold same_configuration. intros (? & ? & ? & ? & ?) (? & ? & ? & ? & ?).
  repeat split; congruence.
Qed.

Lemma em_passes_snoc `{Collaborators} (orig_features : FeaturesCollection)
    (utt2speak : option (dict string)) (u : Ubm) (passes : list (list call))
    (pass : list call) :
  em_passes orig_features utt2speak u passes ->
  em_pass_calls orig_features utt2speak
    (fold_left ubm_after_pass passes u) pass ->
  em_passes orig_features utt2speak u (passes ++ [pass]).
Proof.
  revert u. induction passes as [|p passes IH]; intros u Hps Hp; simpl in *.
  - auto.
  - destruct Hps as [Hp0 Hps]. split; [exact Hp0|]. apply IH; assumption.
Qed.

Lemma em_refinement_ok `{Collaborators} (orig_features : FeaturesCollection)
    (utt2speak : option (dict string)) (u u' : Ubm) (s s' : pstate) :
  em_refinement orig_features utt2speak u s = (Ok u', s') ->
  exists passes,
    calls s' = calls s ++ concat passes /\
    length passes = Z.to_nat (num_iters (processor s)) /\
    em_passes orig_features utt2speak u passes /\
    same_configuration (processor s) (processor s') /\
    lvtln (processor s') = lvtln (processor s).
Proof.
  intros Hrun. unfold em_refinement in Hrun.
  apply bind_ok in Hrun. destruct Hrun as (self & s1 & Hself & Hrun).
  cbv [get_self] in Hself. injection Hself as <- <-.
  rewrite <- length_py_range.
  change (length (py_range (num_iters (processor s))))
    with (0 + length (py_range (num_iters (processor s))))%nat.
  assert (Hinv : exists passes,
             calls s' = calls s ++ concat passes /\
             length passes = (0 + length (py_range (num_iters (processor s))))%nat /\
             em_passes orig_features utt2speak u passes /\
             u' = fold_left ubm_after_pass passes u /\
             same_configuration (processor s) (processor s') /\
             lvtln (processor s') = lvtln (processor s)).
  { revert Hrun.
    apply (for_loop_counted
             (fun k uk sk =>
                exists passes,
                  calls sk = calls s ++ concat passes /\
                  length passes = k /\
                  em_passes orig_features utt2speak u passes /\
                  uk = fold_left ubm_after_pass passes u /\
                  same_configuration (processor s) (processor sk) /\
                  lvtln (processor sk) = lvtln (processor s))).
    - intros j acc x sj acc' sj' (passes & Hcs & Hlen & Hps & Hacc & Hcfg & Hlv) Hpass.
      apply em_pass_ok in Hpass.
      destruct Hpass as (adapted & tw & Hadapt & -> & Hproc & Hcalls).
      eexists (passes ++ [_]).
      split; [rewrite Hcalls, Hcs, concat_app, <- app_assoc; simpl;
              rewrite app_nil_r; reflexivity|].
      split; [rewrite length_app; simpl; lia|].
      split; [apply em_passes_snoc; [exact Hps|]; rewrite <- Hacc;
              exists (processor sj), adapted; split; [exact Hadapt | reflexivity]|].
      split; [rewrite fold_left_app, <- Hacc; reflexivity|].
      rewrite Hproc. split; [|exact Hlv].
      eapply same_configuration_trans; [exact Hcfg|]. repeat split.
    - exists []. simpl. rewrite app_nil_r.
      repeat split; auto using same_configuration_refl. }
  destruct Hinv as (passes & ? & ? & ? & _ & ? & ?). exists passes. auto.
Qed.

(** ** [process]: the stages before the EM stage *)

Lemma quiet_step_refl `{Carriers} (s : pstate) : quiet_step s s.
Proof.
  split; [apply same_configuration_refl|]. exists []. rewrite app_nil_r. auto.
Qed.

Lemma quiet_step_trans `{Carriers} (s1 s2 s3 : pstate) :
  quiet_step s1 s2 -> quiet_step s2 s3 -> quiet_step s1 s3.
Proof.
  intros [Hc1 (cs1 & Hcs1 & Hq1)] [Hc2 (cs2 & Hcs2 & Hq2)]. split.
  - eapply same_configuration_trans; eassumption.
  - exists (cs1 ++ cs2). rewrite Hcs2, Hcs1, app_assoc. split; [reflexivity|].
    apply Forall_app; auto.
Qed.

Lemma quiet_step_put `{Carriers} (s : pstate) (v : VtlnProcessor) (cs : list call) :
  same_configuration (processor s) v ->
  Forall (fun c => is_call_estimate c = false) cs ->
  quiet_step s {| processor := v; calls := calls s ++ cs |}.
Proof. intros Hc Hq. split; [exact Hc|]. exists cs. auto. Qed.

Lemma compute_mapping_transform_classes `{Carriers} `{Numerics}
    (lvtln : option LinearVtln) (feats_untransformed feats_transformed : FeaturesCollection)
    (class_idx : Z) (warp : Qc) (weights : option (dict vec)) (lv' : LinearVtln) :
  compute_mapping_transform lvtln feats_untransformed feats_transformed class_idx warp
    weights = Ok lv' ->
  forall n d, (exists lv, lvtln = Some lv /\ lv_num_classes lv = n /\ lv_default_class lv = d)
    -> lv_num_classes lv' = n /\ lv_default_class lv' = d.
Proof.
  intros Hrun n d (lv0 & -> & Hn & Hd). unfold compute_mapping_transform in Hrun.
  simpl in Hrun.
  apply rbind_ok in Hrun. destruct Hrun as (a & _ & Hrun).
  apply rbind_ok in Hrun. destruct Hrun as (A & _ & Hrun).
  apply rbind_ok in Hrun. destruct Hrun as (lv1 & Hset & Hwarp).
  destruct (get_transform_written _ _ _ _ _ _ Hset Hwarp) as (_ & _ & _ & Hn' & Hd').
  split; congruence.
Qed.

Lemma acquire_ubm_ok `{Collaborators} (utterances : Utterances) (given : option Ubm)
    (u : Ubm) (s s1 : pstate) :
  acquire_ubm utterances given s = (Ok u, s1) ->
  quiet_step s s1 /\ lvtln (processor s1) = lvtln (processor s).
Proof.
  intros Hrun. unfold acquire_ubm in Hrun.
  apply bind_ok in Hrun. destruct Hrun as (self & s0 & Hself & Hrun).
  cbv [get_self] in Hself. injection Hself as <- <-.
  destruct given as [g|].
  - destruct (ubm_gmm g); [|discriminate]. invert_run Hrun.
    cbv [ret] in Hrun. injection Hrun as <- <-. split; [|reflexivity].
    rewrite <- (app_nil_r (calls s)). apply quiet_step_put; [repeat split | constructor].
  - invert_run Hrun. cbv [ret] in Hrun. injection Hrun as <- <-. split; [|reflexivity].
    destruct s as [v cs]. apply quiet_step_put; [repeat split | repeat constructor].
Qed.

Lemma initialize_lvtln_ok `{Collaborators} (u : Ubm) (n : Z) (s s1 : pstate) :
  initialize_lvtln u s = (Ok n, s1) ->
  exists d,
    num_classes_of (min_warp (processor s)) (max_warp (processor s))
      (warp_step (processor s)) = Ok n /\
    default_class_of (min_warp (processor s)) (warp_step (processor s)) = Ok d /\
    (0 <= d < n)%Z /\
    grid_model n d (processor s1) /\ quiet_step s s1.
Proof.
  intros Hrun. unfold initialize_lvtln in Hrun. invert_run Hrun.
  cbv [ret] in Hrun. injection Hrun as <- <-.
  match goal with
  | Hnew : LinearVtln_new _ _ ?d = Ok _ |- _ =>
      exists d; unfold LinearVtln_new in Hnew;
      destruct (decide (0 <= d < _)%Z) as [Hrange|]; [|discriminate];
      injection Hnew as <-
  end.
  repeat split; try assumption; try lia.
  - eexists. simpl. split; [reflexivity|].
    unfold lv_num_classes. simpl. rewrite length_replicate. split; [lia|reflexivity].
  - simpl. eexists. split; [reflexivity|]. repeat constructor.
Qed.

Lemma base_transform_ok `{Collaborators} `{Numerics} (utterances : Utterances)
    (vad : dict (list bool)) (featsub_unwarped : FeaturesCollection) (c : Z)
    (s s1 : pstate) (r : unit) :
  base_transform utterances vad featsub_unwarped tt c s = (Ok r, s1) ->
  quiet_step s s1 /\
  forall n d, grid_model n d (processor s) -> grid_model n d (processor s1).
Proof.
  intros Hrun. unfold base_transform in Hrun. invert_run Hrun.
  cbv [put_self] in Hrun. injection Hrun as <- <-. simpl. split.
  - split; [repeat split|]. simpl. eexists. rewrite <- app_assoc.
    split; [reflexivity|]. repeat constructor.
  - intros n d Hgrid. unfold grid_model in *. simpl.
    match goal with
    | Hcmt : compute_mapping_transform _ _ _ _ _ _ = Ok ?lv' |- _ =>
        exists lv'; split; [reflexivity|];
        exact (compute_mapping_transform_classes _ _ _ _ _ _ _ Hcmt n d Hgrid)
    end.
Qed.

Lemma base_transforms_ok `{Collaborators} `{Numerics} (utterances : Utterances)
    (vad : dict (list bool)) (featsub_unwarped : FeaturesCollection) (cs : list Z)
    (s s1 : pstate) (r : unit) :
  for_loop cs (base_transform utterances vad featsub_unwarped) tt s = (Ok r, s1) ->
  quiet_step s s1 /\
  forall n d, grid_model n d (processor s) -> grid_model n d (processor s1).
Proof.
  intros Hrun.
  refine (for_loop_counted
            (fun (_ : nat) (_ : unit) sk =>
               quiet_step s sk /\
               forall n d, grid_model n d (processor s) -> grid_model n d (processor sk))
            _ cs 0 tt r s s1 _ _ Hrun).
  - intros j [] x sj acc' sj' [Hq Hg] Hstep. apply base_transform_ok in Hstep.
    destruct Hstep as [Hq' Hg']. split; [eapply quiet_step_trans; eassumption|].
    auto.
  - split; [apply quiet_step_refl | auto].
Qed.

(** ** Dictionaries and the broadcast to utterances *)

Lemma dict_set_fresh {V} (k : string) (v : V) (d : dict V) :
  k ∉ map fst d -> dict_set k v d = d ++ [(k, v)].
Proof.
  induction d as [|[k' v'] d IH]; intros Hk; simpl; [reflexivity|].
  simpl in Hk. apply not_elem_of_cons in Hk. destruct Hk as [Hne Hk].
  destruct (decide (k' = k)); [congruence|]. rewrite IH by exact Hk. reflexivity.
Qed.

Lemma dict_of_items_distinct {V} (items : list (string * V)) :
  distinct_keys items -> dict_of_items items = items.
Proof.
  unfold dict_of_items, distinct_keys.
  assert (Hgen : forall d0 : dict V,
             NoDup (map fst (d0 ++ items)) ->
             fold_left (fun d kv => dict_set kv.1 kv.2 d) items d0 = d0 ++ items).
  { induction items as [|[k v] items IH]; intros d0 Hnd; simpl.
    - rewrite app_nil_r. reflexivity.
    - rewrite dict_set_fresh.
      + rewrite IH; rewrite <- app_assoc; [reflexivity | exact Hnd].
      + rewrite map_app in Hnd. simpl in Hnd.
        apply NoDup_app in Hnd. destruct Hnd as (_ & Hdis & _).
        intros Hin. apply (Hdis k Hin). left. }
  intros Hnd. apply (Hgen []). exact Hnd.
Qed.

Lemma comprehension_keys {V W} (g : string * V -> result (string * W))
    (d : dict V) (items : dict W) :
  (forall item y, g item = Ok y -> y.1 = item.1) ->
  comprehension g d = Ok items -> map fst items = map fst d.
Proof.
  intros Hg. revert items. induction d as [|item d IH]; intros items Hc; simpl in Hc.
  - injection Hc as <-. reflexivity.
  - apply rbind_ok in Hc. destruct Hc as (y & Hy & Hc).
    apply rbind_ok in Hc. destruct Hc as (ys & Hys & Hc). injection Hc as <-.
    simpl. rewrite (IH ys Hys), (Hg _ _ Hy). reflexivity.
Qed.

Lemma broadcast_lookup {V} (table : dict V) (utt2speak : dict string) (table' : dict V)
    (utt spk : string) :
  distinct_keys utt2speak -> broadcast table utt2speak = Ok table' ->
  dict_get utt utt2speak = Some spk ->
  exists v, dict_get spk table = Some v /\ dict_get utt table' = Some v.
Proof.
  intros Hnd Hb Hutt. unfold broadcast in Hb.
  apply rbind_ok in Hb. destruct Hb as (items & Hitems & Hb). injection Hb as <-.
  assert (Hkeys : map fst items = map fst utt2speak).
  { eapply comprehension_keys; [|exact Hitems].
    intros item y Hy. apply rbind_ok in Hy. destruct Hy as (v & _ & Hy).
    injection Hy as <-. reflexivity. }
  rewrite dict_of_items_distinct by (unfold distinct_keys; rewrite Hkeys; exact Hnd).
  clear Hnd Hkeys. revert items Hitems.
  induction utt2speak as [|[k sp] rest IH]; intros items Hitems; [discriminate|].
  simpl in Hitems. apply rbind_ok in Hitems. destruct Hitems as (y & Hy & Hitems).
  apply rbind_ok in Hitems. destruct Hitems as (ys & Hys & Hitems).
  injection Hitems as <-.
  apply rbind_ok in Hy. destruct Hy as (v & Hv & Hy). injection Hy as <-.
  simpl in *. destruct (decide (k = utt)) as [->|Hne].
  - injection Hutt as <-. exists v. split; [|reflexivity].
    unfold dict_index in Hv. destruct (dict_get sp table); congruence.
  - apply (IH Hutt ys Hys).
Qed.

Lemma broadcast_to_utterances_ok `{Collaborators} (utt2speak : option (dict string))
    (s s' : pstate) (r : unit) :
  broadcast_to_utterances utt2speak s = (Ok r, s') ->
  calls s' = calls s /\ lvtln (processor s') = lvtln (processor s) /\
  same_configuration (processor s) (processor s') /\
  (by_speaker (processor s) = true ->
   exists u2s tr wp tr' wp',
     utt2speak = Some u2s /\
     transforms (processor s) = Some tr /\ warps (processor s) = Some wp /\
     broadcast tr u2s = Ok tr' /\ broadcast wp u2s = Ok wp' /\
     transforms (processor s') = Some tr' /\ warps (processor s') = Some wp').
Proof.
  intros Hrun. unfold broadcast_to_utterances in Hrun.
  apply bind_ok in Hrun. destruct Hrun as (self & s0 & Hself & Hrun).
  cbv [get_self] in Hself. injection Hself as <- <-.
  destruct (by_speaker (processor s)) eqn:Hby.
  - invert_run Hrun. cbv [put_self] in Hrun. injection Hrun as <- <-. simpl.
    split; [reflexivity|]. split; [reflexivity|]. split; [repeat split|].
    intros _.
    destruct utt2speak as [u2s|]; [|discriminate].
    destruct (transforms (processor s)) as [tr|]; [|discriminate].
    destruct (warps (processor s)) as [wp|]; [|discriminate].
    repeat match goal with Heq : Ok _ = Ok _ |- _ => injection Heq as <- end.
    exists u2s, tr, wp. eauto 10.
  - cbv [ret] in Hrun. injection Hrun as <- <-.
    split; [reflexivity|]. split; [reflexivity|]. split; [repeat split|].
    intros; discriminate.
Qed.

(** ** [process] as a whole *)

Lemma report_ok `{Collaborators} (utterances : Utterances) (group_by : string)
    (s s' : pstate) (r : dict Qc) :
  report utterances group_by s = (Ok r, s') -> s' = s.
Proof.
  intros Hrun. unfold report in Hrun. invert_run Hrun.
  destruct (bool_decide (group_by = "utterance"%string)).
  - cbv [ret] in Hrun. injection Hrun as _ <-. reflexivity.
  - invert_run Hrun. cbv [ret] in Hrun. injection Hrun as _ <-. reflexivity.
Qed.

Lemma process_ok `{Collaborators} `{Numerics} (utterances : Utterances)
    (given_ubm : option Ubm) (group_by : string) (njobs : Z) (s s' : pstate)
    (r : dict Qc) :
  process utterances given_ubm group_by njobs s = (Ok r, s') ->
  exists utt2speak n d u0 orig_features pre passes,
    validate (processor s) utterances group_by = Ok utt2speak /\
    num_classes_of (min_warp (processor s)) (max_warp (processor s))
      (warp_step (processor s)) = Ok n /\
    default_class_of (min_warp (processor s)) (warp_step (processor s)) = Ok d /\
    (0 <= d < n)%Z /\
    grid_model n d (processor s') /\
    same_configuration (processor s) (processor s') /\
    calls s' =
      calls s ++ pre
      ++ call_estimate u0 orig_features (gaussian_selection_to_post u0 orig_features)
         :: concat passes /\
    Forall (fun c => is_call_estimate c = false) pre /\
    length passes = Z.to_nat (num_iters (processor s)) /\
    em_passes orig_features utt2speak u0 passes /\
    (by_speaker (processor s) = true ->
     exists u2s tr wp tr' wp',
       utt2speak = Some u2s /\
       broadcast tr u2s = Ok tr' /\ broadcast wp u2s = Ok wp' /\
       transforms (processor s') = Some tr' /\ warps (processor s') = Some wp').
Proof.
  intros Hrun. unfold process in Hrun. invert_run Hrun.
  apply report_ok in Hrun. subst s'.
  rename a into utt2speak, a0 into u, a1 into n.
  (* the stages up to the initial assignment keep the configuration and do
     not call [estimate] *)
  apply acquire_ubm_ok in Hrun1. destruct Hrun1 as [Hq0 _].
  apply initialize_lvtln_ok in Hrun2.
  destruct Hrun2 as (d & Hn & Hd & Hrange & Hgrid1 & Hq1).
  apply base_transforms_ok in Hrun3. destruct Hrun3 as [Hq2 Hgrid2].
  assert (Hq12 : quiet_step s1 s2).
  { eapply quiet_step_trans; [|exact Hq2].
    rewrite <- app_assoc. apply quiet_step_put; [repeat split | repeat constructor]. }
  assert (Hg2 : grid_model n d (processor s2)) by (apply Hgrid2; exact Hgrid1).
  assert (Hq3 : quiet_step s2 s3 /\ grid_model n d (processor s3)).
  { destruct (sliding_window_cmvn (processor s1)).
    - cbv [put_self] in Hrun4. injection Hrun4 as _ <-. split; [|exact Hg2].
      rewrite <- (app_nil_r (calls s2)).
      apply quiet_step_put; [repeat split | constructor].
    - cbv [ret] in Hrun4. injection Hrun4 as _ <-.
      split; [apply quiet_step_refl | exact Hg2]. }
  destruct Hq3 as [Hq3 Hg3]. clear Hrun4 Hgrid2 Hq2.
  destruct a4. apply reestimate_ok in Hrun5.
  destruct Hrun5 as (tw & _ & Hproc4 & Hcalls4). simpl in Hproc4, Hcalls4.
  match type of Hcalls4 with
  | calls s4 = _ ++ [call_estimate _ ?go _] => set (orig_features := go) in *
  end.
  match type of Hcalls4 with
  | calls s4 = _ ++ [call_estimate ?gu _ _] => set (u0 := gu) in *
  end.
  match type of Hcalls4 with
  | calls s4 = ((calls s3 ++ [?gs]) ++ [?gp]) ++ _ =>
      assert (Hq4 : quiet_step s3 {| processor := processor s3;
                                     calls := calls s3 ++ [gs; gp] |})
        by (apply quiet_step_put; [repeat split | repeat constructor])
  end.
  pose proof (quiet_step_trans _ _ _ Hq0
                (quiet_step_trans _ _ _ Hq1
                   (quiet_step_trans _ _ _ Hq12 (quiet_step_trans _ _ _ Hq3 Hq4))))
    as [Hcfg (pre & Hpre & Hquiet)].
  simpl in Hcfg, Hpre.
  (* the EM stage and the broadcast *)
  apply em_refinement_ok in Hrun6.
  destruct Hrun6 as (passes & Hcs & Hcount & Hall & Hcfg5 & Hlv5).
  apply broadcast_to_utterances_ok in Hrun7.
  destruct Hrun7 as (Hcalls6 & Hlv6 & Hcfg6 & Hbroadcast).
  assert (Hcfg4 : same_configuration (processor s) (processor s4))
    by (rewrite Hproc4; destruct Hcfg as (? & ? & ? & ? & ?); repeat split; assumption).
  assert (Hcfg_end : same_configuration (processor s) (processor s6))
    by (eapply same_configuration_trans;
        [eapply same_configuration_trans; [exact Hcfg4 | exact Hcfg5] | exact Hcfg6]).
  destruct Hq0 as [(_ & Hmin0 & Hmax0 & Hstep0 & _) _].
  rewrite Hmin0, Hmax0, Hstep0 in Hn. rewrite Hmin0, Hstep0 in Hd.
  exists utt2speak, n, d, u0, orig_features, pre, passes.
  split; [exact Hrun0|]. split; [exact Hn|]. split; [exact Hd|]. split; [exact Hrange|].
  split.
  { destruct Hg3 as (lv & Hlv & Hlvn & Hlvd). exists lv.
    rewrite Hlv6, Hlv5, Hproc4. simpl. auto. }
  split; [exact Hcfg_end|].
  split.
  { rewrite Hcalls6, Hcs, Hcalls4.
    replace ((calls s3 ++ [call_gaussian_selection u orig_features]) ++
             [call_gaussian_selection_to_post u0 orig_features])
      with (calls s ++ pre) by (rewrite <- Hpre, <- app_assoc; reflexivity).
    rewrite <- !app_assoc. reflexivity. }
  split; [exact Hquiet|].
  split.
  { rewrite Hcount. destruct Hcfg4 as (Hni & _). rewrite Hni. reflexivity. }
  split; [exact Hall|].
  intros Hby.
  destruct Hbroadcast as (u2s & tr & wp & tr' & wp' & Hu & _ & _ & Htr & Hwp & Ht' & Hw').
  { destruct Hcfg4 as (_ & _ & _ & _ & Hb4). destruct Hcfg5 as (_ & _ & _ & _ & Hb5).
    congruence. }
  exists u2s, tr, wp, tr', wp'. auto.
Qed.

Lemma validate_by_speaker `{Collaborators} (self : VtlnProcessor) (utterances : Utterances)
    (group_by : string) (utt2speak : option (dict string)) :
  validate self utterances group_by = Ok utt2speak -> by_speaker self = true ->
  utt2speak = Some (dict_of_items (utterance_items utterances)).
Proof.
  unfold validate. intros Hv Hby. rewrite Hby in Hv.
  repeat match type of Hv with
         | (if ?c then _ else _) = _ => destruct c; try discriminate
         end.
  injection Hv as <-. reflexivity.
Qed.

(** C6.  After [process] has returned with [by_speaker] on, any two utterances
    that carry the same speaker label have the same stored warp and the same
    stored transform.  (Utterance names are distinct, as in any [Utterances]
    object.) *)
Theorem same_speaker_same_warp `{Collaborators} `{Numerics} (utterances : Utterances)
    (given_ubm : option Ubm) (group_by : string) (njobs : Z) (s s' : pstate)
    (r : dict Qc) (utt1 utt2 spk : string) :
  process utterances given_ubm group_by njobs s = (Ok r, s') ->
  by_speaker (processor s) = true ->
  NoDup (map fst (utterance_items utterances)) ->
  In (utt1, spk) (utterance_items utterances) ->
  In (utt2, spk) (utterance_items utterances) ->
  exists stored_warps stored_transforms warp transform,
    warps (processor s') = Some stored_warps /\
    transforms (processor s') = Some stored_transforms /\
    dict_get utt1 stored_warps = Some warp /\
    dict_get utt2 stored_warps = Some warp /\
    dict_get utt1 stored_transforms = Some transform /\
    dict_get utt2 stored_transforms = Some transform.
Proof.
  intros Hrun Hby Hnames Hin1 Hin2.
  destruct (process_ok _ _ _ _ _ _ _ Hrun)
    as (utt2speak & n & d & u0 & orig & pre & cs & Hv & _ & _ & _ & _ & _ & _ & _ & _ & _
        & Hbroadcast).
  destruct (Hbroadcast Hby) as (u2s & tr & wp & tr' & wp' & Hu & Htr & Hwp & Ht' & Hw').
  rewrite (validate_by_speaker _ _ _ _ Hv Hby) in Hu. injection Hu as <-.
  rewrite dict_of_items_distinct in Htr, Hwp by exact Hnames.
  pose proof (dict_get_distinct _ _ _ Hnames Hin1) as Hg1.
  pose proof (dict_get_distinct _ _ _ Hnames Hin2) as Hg2.
  destruct (broadcast_lookup _ _ _ _ _ Hnames Hwp Hg1) as (w1 & Hs1 & Hw1).
  destruct (broadcast_lookup _ _ _ _ _ Hnames Hwp Hg2) as (w2 & Hs2 & Hw2).
  destruct (broadcast_lookup _ _ _ _ _ Hnames Htr Hg1) as (t1 & Hst1 & Ht1).
  destruct (broadcast_lookup _ _ _ _ _ Hnames Htr Hg2) as (t2 & Hst2 & Ht2).
  exists wp', tr', w1, t1.
  repeat split; try assumption; congruence.
Qed.

Lemma same_speaker_same_warp_witness :
  let s' := (@process Reference.carriers Reference.collaborators Reference.numerics
               Reference.utterances None "utterance" 1 Reference.start).2 in
  exists stored_warps stored_transforms warp transform,
    warps (processor s') = Some stored_warps /\
    transforms (processor s') = Some stored_transforms /\
    dict_get "utt1"%string stored_warps = Some warp /\
    dict_get "utt2"%string stored_warps = Some warp /\
    dict_get "utt1"%string stored_transforms = Some transform /\
    dict_get "utt2"%string stored_transforms = Some transform.
Proof.
  cbv zeta.
  destruct (@process Reference.carriers Reference.collaborators Reference.numerics
              Reference.utterances None "utterance" 1 Reference.start)
    as [[r|e] s'] eqn:Hrun.
  - apply (@same_speaker_same_warp Reference.carriers Reference.collaborators
             Reference.numerics _ _ _ _ _ _ _ "utt1"%string "utt2"%string "spk1"%string
             Hrun).
    + reflexivity.
    + apply (bool_decide_unpack _). vm_compute. exact I.
    + left. reflexivity.
    + right. left. reflexivity.
  - exfalso.
    assert (Hok : is_ok (@process Reference.carriers Reference.collaborators
                           Reference.numerics Reference.utterances None "utterance" 1
                           Reference.start).1 = true)
      by (vm_compute; reflexivity).
    rewrite Hrun in Hok. discriminate Hok.
Defined.

(** C1, as amended.  When [process] returns, the calls it has made are: some
    calls that are not calls of [estimate]; the initial call of [estimate],
    with posteriors computed on the original features; and then exactly
    [num_iters] passes of the EM stage (none when [num_iters] is negative).
    In every pass the UBM left by the previous pass is re-estimated on the
    features adapted by the current transforms, and [estimate] is called on
    the original features with the UBM re-estimated in that pass and with
    posteriors that this UBM computes on the adapted features of the pass,
    not on the original ones. *)
Theorem em_stage_calls `{Collaborators} `{Numerics} (utterances : Utterances)
    (given_ubm : option Ubm) (group_by : string) (njobs : Z) (s s' : pstate)
    (r : dict Qc) :
  process utterances given_ubm group_by njobs s = (Ok r, s') ->
  exists utt2speak u0 orig_features pre passes,
    calls s' =
      calls s ++ pre
      ++ call_estimate u0 orig_features (gaussian_selection_to_post u0 orig_features)
         :: concat passes /\
    Forall (fun c => is_call_estimate c = false) pre /\
    length passes = Z.to_nat (num_iters (processor s)) /\
    em_passes orig_features utt2speak u0 passes.
Proof.
  intros Hrun.
  destruct (process_ok _ _ _ _ _ _ _ Hrun)
    as (utt2speak & n & d & u0 & orig & pre & passes & _ & _ & _ & _ & _ & _
        & Hcalls & Hpre & Hcount & Hall & _).
  exists utt2speak, u0, orig, pre, passes. auto.
Qed.

Lemma em_stage_calls_witness :
  let s' := (@process Reference.carriers Reference.collaborators Reference.numerics
               Reference.utterances None "utterance" 1 Reference.start).2 in
  exists utt2speak u0 orig_features pre passes,
    calls s' =
      pre ++ call_estimate u0 orig_features
               (@gaussian_selection_to_post Reference.carriers Reference.collaborators
                  u0 orig_features)
             :: concat passes /\
    Forall (fun c => is_call_estimate c = false) pre /\
    length passes = 2%nat /\
    @em_passes Reference.carriers Reference.collaborators
      orig_features utt2speak u0 passes.
Proof.
  cbv zeta.
  destruct (@process Reference.carriers Reference.collaborators Reference.numerics
              Reference.utterances None "utterance" 1 Reference.start)
    as [[r|e] s'] eqn:Hrun.
  - exact (@em_stage_calls Reference.carriers Reference.collaborators
             Reference.numerics _ _ _ _ _ _ _ Hrun).
  - exfalso.
    assert (Hok : is_ok (@process Reference.carriers Reference.collaborators
                           Reference.numerics Reference.utterances None "utterance" 1
                           Reference.start).1 = true)
      by (vm_compute; reflexivity).
    rewrite Hrun in Hok. discriminate Hok.
Defined.

Lemma reference_run_ok :
  exists r s',
    @process Reference.carriers Reference.collaborators Reference.numerics
      Reference.utterances None "utterance" 1 Reference.start = (Ok r, s').
Proof.
  destruct (@process Reference.carriers Reference.collaborators Reference.numerics
              Reference.utterances None "utterance" 1 Reference.start)
    as [[r|e] s'] eqn:Hrun.
  - eauto.
  - exfalso.
    assert (Hok : is_ok (@process Reference.carriers Reference.collaborators
                           Reference.numerics Reference.utterances None "utterance" 1
                           Reference.start).1 = true)
      by (vm_compute; reflexivity).
    rewrite Hrun in Hok. discriminate Hok.
Qed.

Lemma after_first_estimate_app `{Collaborators} (pre cs : list call) (c : call) :
  Forall (fun c => is_call_estimate c = false) pre -> is_call_estimate c = true ->
  after_first_estimate (pre ++ c :: cs) = cs.
Proof.
  intros Hpre Hc. induction Hpre as [|c0 pre Hc0 _ IH]; simpl.
  - rewrite Hc. reflexivity.
  - rewrite Hc0. exact IH.
Qed.

Lemma on_original_not_off `{Collaborators} (orig_features : FeaturesCollection)
    (pass : list call) (c : call) :
  em_pass_calls_on_original orig_features pass -> In c pass -> off_original c = false.
Proof.
  intros (u & adapted & ->) Hin. simpl in Hin.
  destruct Hin as [<-|[<-|[<-|[<-|[]]]]]; simpl; try reflexivity.
  apply negb_false_iff, bool_decide_eq_true. reflexivity.
Qed.

(** C1 as stated fails: in a run of the reference implementation with two
    passes, the passes of the EM stage are not all made with posteriors
    computed on the original features. *)
Lemma em_posteriors_not_on_original :
  let s' := (@process Reference.carriers Reference.collaborators Reference.numerics
               Reference.utterances None "utterance" 1 Reference.start).2 in
  exists u0 orig_features pre passes,
    calls s' =
      pre ++ call_estimate u0 orig_features
               (@gaussian_selection_to_post Reference.carriers Reference.collaborators
                  u0 orig_features)
             :: concat passes /\
    Forall (fun c => is_call_estimate c = false) pre /\
    length passes = 2%nat /\
    ~ Forall (@em_pass_calls_on_original Reference.carriers Reference.collaborators
                orig_features) passes.
Proof.
  destruct reference_run_ok as (r & s' & Hrun). cbv zeta. rewrite Hrun.
  destruct (process_ok _ _ _ _ _ _ _ Hrun)
    as (utt2speak & n & d & u0 & orig & pre & passes & _ & _ & _ & _ & _ & _
        & Hcalls & Hpre & Hcount & _).
  simpl in Hcalls, Hcount |- *.
  exists u0, orig, pre, passes. repeat split; try assumption.
  intros Hall.
  assert (Hoff : existsb (@off_original Reference.carriers Reference.collaborators)
                   (@after_first_estimate Reference.carriers
                      (calls (@process Reference.carriers Reference.collaborators
                                Reference.numerics Reference.utterances None
                                "utterance" 1 Reference.start).2)) = true)
    by (vm_compute; reflexivity).
  rewrite Hrun in Hoff. simpl in Hoff.
  rewrite Hcalls, (@after_first_estimate_app Reference.carriers Reference.collaborators)
    in Hoff by (assumption || reflexivity).
  apply existsb_exists in Hoff. destruct Hoff as (c & Hin & Hoff).
  apply in_concat in Hin. destruct Hin as (pass & Hpass & Hin).
  rewrite Forall_forall in Hall.
  rewrite (@on_original_not_off Reference.carriers Reference.collaborators orig pass c)
    in Hoff; [discriminate| |exact Hin].
  apply Hall. apply list_elem_of_In. exact Hpass.
Qed.

(** * Further properties *)

(** ** [compute_mapping_transform]: checks, frame, weights *)

Lemma rbind_raise {A B} (m : result A) (k : A -> result B) (e : exn) :
  rbind m k = Raise e -> m = Raise e \/ exists a, m = Ok a /\ k a = Raise e.
Proof. destruct m as [a|e']; simpl; [eauto | intros [= ->]; auto]. Qed.

Lemma for_each_app {A T} (xs ys : list A) (body : T -> A -> result T) (acc : T) :
  for_each (xs ++ ys) body acc = let* a := for_each xs body acc in for_each ys body a.
Proof.
  revert acc. induction xs as [|x xs IH]; intros acc; simpl; [reflexivity|].
  destruct (body acc x) as [a|e]; simpl; [apply IH | reflexivity].
Qed.

Lemma for_each_ext {A T} (xs : list A) (body body' : T -> A -> result T) (acc : T) :
  Forall (fun x => forall a, body a x = body' a x) xs ->
  for_each xs body acc = for_each xs body' acc.
Proof.
  intros Hall. revert acc. induction Hall as [|x xs Hx _ IH]; intros acc; simpl.
  - reflexivity.
  - rewrite Hx. destruct (body' acc x); simpl; [apply IH | reflexivity].
Qed.

(** A loop that returns has kept every invariant its body keeps, and its body
    has returned on every element. *)
Lemma for_each_ok {A T} (I : T -> Prop) (P : A -> Prop) (xs : list A)
    (body : T -> A -> result T) (acc acc' : T) :
  (forall a x a', I a -> body a x = Ok a' -> I a' /\ P x) ->
  I acc -> for_each xs body acc = Ok acc' -> I acc' /\ Forall P xs.
Proof.
  intros Hbody. revert acc. induction xs as [|x xs IH]; intros acc HI Hrun; simpl in Hrun.
  - injection Hrun as <-. auto.
  - apply rbind_ok in Hrun. destruct Hrun as (a & Hstep & Hrun).
    destruct (Hbody _ _ _ HI Hstep) as [HI' HP].
    destruct (IH a HI' Hrun) as [Hend Hall]. auto.
Qed.

(** A loop that raises does so in its body, on one of its elements. *)
Lemma for_each_raise {A T} (xs : list A) (body : T -> A -> result T) (acc : T) (e : exn) :
  for_each xs body acc = Raise e -> exists a x, In x xs /\ body a x = Raise e.
Proof.
  revert acc. induction xs as [|x xs IH]; intros acc Hrun; simpl in Hrun; [discriminate|].
  apply rbind_raise in Hrun. destruct Hrun as [Hstep|(a & Hstep & Hrun)].
  - exists acc, x. split; [left; reflexivity | exact Hstep].
  - destruct (IH a Hrun) as (a' & x' & Hin & Hx'). exists a', x'. split; [right|]; assumption.
Qed.

Lemma accumulate_utterance_ok `{Carriers} (dim : nat) (ft : FeaturesCollection)
    (weights : option (dict vec)) (a a' : mapping_accs) (item : string * Features) :
  accumulate_utterance dim ft weights a item = Ok a' ->
  paired dim ft item = true /\ weighted weights item = true.
Proof.
  unfold accumulate_utterance, paired, weighted. intros Hrun.
  destruct (dict_get item.1 ft) as [fy|]; [|discriminate].
  destruct (bool_decide (num_rows (data item.2) = num_rows (data fy)));
    destruct (bool_decide (num_cols (data item.2) = num_cols (data fy)));
    destruct (bool_decide (num_cols (data item.2) = dim)); try discriminate.
  split; [reflexivity|].
  apply rbind_ok in Hrun. destruct Hrun as (w & Hw & _).
  unfold utterance_weights in Hw. destruct weights as [ws|]; [|reflexivity].
  destruct (dict_get item.1 ws) as [w0|]; [|discriminate].
  destruct (decide (length w0 = num_rows (data item.2))); [|discriminate].
  apply bool_decide_eq_true. assumption.
Qed.

Lemma set_transform_in_range (i : Z) (A : mat) (lv lv' : LinearVtln) :
  set_transform i A lv = Ok lv' -> (0 <= i < lv_num_classes lv)%Z.
Proof.
  unfold set_transform, class_in_range. destruct (bool_decide _) eqn:Hr; [|discriminate].
  intros _. apply bool_decide_eq_true in Hr. exact Hr.
Qed.

(** X1.  [compute_mapping_transform] returns only on checked input: the model
    is initialised, [class_idx] is one of its classes, and every utterance of
    [feats_untransformed] has transformed features with as many rows and
    columns, the columns being the model's dimension, and, when weights are
    given, one weight per frame. *)
Theorem compute_mapping_transform_checked `{Carriers} `{Numerics}
    (lvtln : option LinearVtln) (feats_untransformed feats_transformed : FeaturesCollection)
    (class_idx : Z) (warp : Qc) (weights : option (dict vec)) (lv' : LinearVtln) :
  compute_mapping_transform lvtln feats_untransformed feats_transformed class_idx warp
    weights = Ok lv' ->
  exists lv,
    lvtln = Some lv /\
    (0 <= class_idx < lv_num_classes lv)%Z /\
    Forall (fun item => paired (lv_dim lv) feats_transformed item = true /\
                        weighted weights item = true) feats_untransformed.
Proof.
  intros Hrun. unfold compute_mapping_transform in Hrun.
  apply rbind_ok in Hrun. destruct Hrun as (lv & Hlv & Hrun).
  apply rbind_ok in Hrun. destruct Hrun as (a & Ha & Hrun).
  apply rbind_ok in Hrun. destruct Hrun as (A & _ & Hrun).
  apply rbind_ok in Hrun. destruct Hrun as (lv1 & Hset & _).
  destruct lvtln as [lv0|]; [|discriminate]. injection Hlv as ->.
  exists lv. split; [reflexivity|]. split; [eapply set_transform_in_range, Hset|].
  unfold mapping_stats in Ha.
  refine (proj2 (for_each_ok (fun _ => True) _ _ _ _ _ _ I Ha)).
  intros a0 x a1 _ Hstep. split; [exact I|]. eapply accumulate_utterance_ok, Hstep.
Qed.

Lemma compute_mapping_transform_checked_witness :
  Forall (fun item => @paired Reference.carriers 1 (Reference.warped (frac 3 2)) item = true /\
                      @weighted Reference.carriers (Some Reference.frame_weights) item = true)
         Reference.unwarped.
Proof.
  destruct (@compute_mapping_transform Reference.carriers Reference.numerics
              (Some Reference.model) Reference.unwarped (Reference.warped (frac 3 2))
              2 (frac 3 2) (Some Reference.frame_weights)) as [lv'|e] eqn:Hrun.
  - destruct (@compute_mapping_transform_checked Reference.carriers Reference.numerics
                _ _ _ _ _ _ _ Hrun) as (lv & Hlv & _ & Hall).
    injection Hlv as <-. exact Hall.
  - exfalso.
    assert (Hok : is_ok (@compute_mapping_transform Reference.carriers Reference.numerics
                           (Some Reference.model) Reference.unwarped
                           (Reference.warped (frac 3 2)) 2 (frac 3 2)
                           (Some Reference.frame_weights)) = true)
      by (vm_compute; reflexivity).
    rewrite Hrun in Hok. discriminate Hok.
Defined.

Lemma comprehension_raise {A B} (f : A -> result B) (xs : list A) (e : exn) :
  comprehension f xs = Raise e -> exists x, In x xs /\ f x = Raise e.
Proof.
  induction xs as [|x xs IH]; simpl; intros Hc; [discriminate|].
  apply rbind_raise in Hc. destruct Hc as [Hx|(y & Hy & Hc)].
  - exists x. auto.
  - apply rbind_raise in Hc. destruct Hc as [Hc|(ys & _ & Hc)]; [|discriminate].
    destruct (IH Hc) as (x' & Hin & Hx'). exists x'. auto.
Qed.

Lemma py_div_raise (a b : Qc) (e : exn) : py_div a b = Raise e -> e = ZeroDivisionError /\ b = 0.
Proof. unfold py_div. destruct (decide (b = 0)); [intros [= <-]; auto | discriminate]. Qed.

Lemma fit_row_raise `{Numerics} (dim : nat) (Qinv : mat) (a : mapping_accs) (i : nat)
    (e : exn) :
  fit_row dim Qinv a i = Raise e -> e = ZeroDivisionError.
Proof.
  unfold fit_row. cbv zeta. intros Hfit.
  repeat (apply rbind_raise in Hfit;
          destruct Hfit as [Hfit|(? & _ & Hfit)];
          [apply py_div_raise in Hfit; tauto|]).
  discriminate Hfit.
Qed.

Lemma fit_transform_raise `{Numerics} (dim : nat) (a : mapping_accs) (e : exn) :
  fit_transform dim a = Raise e ->
  e = KaldiError "matrix is singular" \/ e = ZeroDivisionError.
Proof.
  unfold fit_transform. destruct (sp_invert (acc_Q a)) as [Qinv|].
  - intros Hc. apply comprehension_raise in Hc. destruct Hc as (i & _ & Hfit).
    right. eapply fit_row_raise, Hfit.
  - intros [= <-]. left. reflexivity.
Qed.

Lemma set_transform_raise (i : Z) (A : mat) (lv : LinearVtln) (e : exn) :
  set_transform i A lv = Raise e -> e = KaldiError "class index out of range".
Proof. unfold set_transform. destruct (class_in_range lv i); [discriminate | congruence]. Qed.

Lemma set_warp_raise (i : Z) (w : Qc) (lv : LinearVtln) (e : exn) :
  set_warp i w lv = Raise e -> e = KaldiError "class index out of range".
Proof. unfold set_warp. destruct (class_in_range lv i); [discriminate | congruence]. Qed.

Lemma accumulate_utterance_unweighted `{Carriers} (dim : nat) (ft : FeaturesCollection)
    (a : mapping_accs) (item : string * Features) :
  if paired dim ft item
  then exists a', accumulate_utterance dim ft None a item = Ok a'
  else exists msg, accumulate_utterance dim ft None a item = Raise (ValueError msg).
Proof.
  unfold accumulate_utterance, paired.
  destruct (dict_get item.1 ft) as [fy|]; [|eauto].
  destruct (bool_decide (num_rows (data item.2) = num_rows (data fy)));
    destruct (bool_decide (num_cols (data item.2) = num_cols (data fy)));
    destruct (bool_decide (num_cols (data item.2) = dim)); simpl; eauto.
Qed.

(** X2.  With an initialised model and no weights,
    [compute_mapping_transform] raises [ValueError] exactly when some
    utterance of [feats_untransformed] has no transformed features of the
    same shape and of the model's dimension; no other step of the method
    raises that exception. *)
Theorem compute_mapping_transform_unpaired `{Carriers} `{Numerics}
    (lv : LinearVtln) (feats_untransformed feats_transformed : FeaturesCollection)
    (class_idx : Z) (warp : Qc) :
  (exists msg,
     compute_mapping_transform (Some lv) feats_untransformed feats_transformed
       class_idx warp None = Raise (ValueError msg))
  <-> Exists (fun item => paired (lv_dim lv) feats_transformed item = false)
        feats_untransformed.
Proof.
  unfold compute_mapping_transform. simpl. split.
  - intros (msg & Hrun).
    apply rbind_raise in Hrun. destruct Hrun as [Hstats|(a & _ & Hrun)].
    + apply for_each_raise in Hstats. destruct Hstats as (a & item & Hin & Hitem).
      apply Exists_exists. exists item. split; [apply list_elem_of_In; exact Hin|].
      pose proof (accumulate_utterance_unweighted (lv_dim lv) feats_transformed a item) as Hu.
      destruct (paired (lv_dim lv) feats_transformed item); [|reflexivity].
      destruct Hu as (a' & Hu). congruence.
    + exfalso. apply rbind_raise in Hrun. destruct Hrun as [Hfit|(A & _ & Hrun)].
      * apply fit_transform_raise in Hfit. destruct Hfit; discriminate.
      * apply rbind_raise in Hrun. destruct Hrun as [Hset|(lv1 & _ & Hset)].
        -- apply set_transform_raise in Hset. discriminate.
        -- apply set_warp_raise in Hset. discriminate.
  - intros Hex. unfold mapping_stats.
    generalize (mapping_accs_init (lv_dim lv)) as a.
    induction Hex as [item rest Hbad|item rest _ IH]; intros a; simpl.
    + pose proof (accumulate_utterance_unweighted (lv_dim lv) feats_transformed a item) as Hu.
      rewrite Hbad in Hu. destruct Hu as (msg & ->). exists msg. reflexivity.
    + pose proof (accumulate_utterance_unweighted (lv_dim lv) feats_transformed a item) as Hu.
      destruct (paired (lv_dim lv) feats_transformed item).
      * destruct Hu as (a' & ->). simpl. apply IH.
      * destruct Hu as (msg & ->). exists msg. reflexivity.
Qed.

Lemma compute_mapping_transform_written `{Carriers} `{Numerics}
    (lv : LinearVtln) (feats_untransformed feats_transformed : FeaturesCollection)
    (class_idx : Z) (warp : Qc) (weights : option (dict vec)) (lv' : LinearVtln) :
  compute_mapping_transform (Some lv) feats_untransformed feats_transformed class_idx warp
    weights = Ok lv' ->
  (0 <= class_idx < lv_num_classes lv)%Z /\
  exists A,
    lv' = {| lv_dim := lv_dim lv; lv_default_class := lv_default_class lv;
             lv_A := <[Z.to_nat class_idx := A]> (lv_A lv);
             lv_warps := <[Z.to_nat class_idx := warp]> (lv_warps lv) |}.
Proof.
  intros Hrun. unfold compute_mapping_transform in Hrun. simpl in Hrun.
  apply rbind_ok in Hrun. destruct Hrun as (a & _ & Hrun).
  apply rbind_ok in Hrun. destruct Hrun as (A & _ & Hrun).
  apply rbind_ok in Hrun. destruct Hrun as (lv1 & Hset & Hwarp).
  pose proof (set_transform_in_range _ _ _ _ Hset) as Hrange.
  split; [exact Hrange|]. exists A.
  unfold set_transform, set_warp, class_in_range, lv_num_classes in *.
  rewrite bool_decide_eq_true_2 in Hset by exact Hrange. injection Hset as <-.
  simpl in Hwarp. rewrite length_insert in Hwarp.
  rewrite bool_decide_eq_true_2 in Hwarp by exact Hrange. injection Hwarp as <-.
  reflexivity.
Qed.

(** X3.  A call of [compute_mapping_transform] that returns has set the warp
    factor of class [class_idx] to [warp] and has left the dimension, the
    number of classes, the default class, and the warp factor and the
    transform of every other class as they were. *)
Theorem compute_mapping_transform_frame `{Carriers} `{Numerics}
    (lv : LinearVtln) (feats_untransformed feats_transformed : FeaturesCollection)
    (class_idx : Z) (warp : Qc) (weights : option (dict vec)) (lv' : LinearVtln) :
  well_formed lv ->
  compute_mapping_transform (Some lv) feats_untransformed feats_transformed class_idx warp
    weights = Ok lv' ->
  well_formed lv' /\
  lv_dim lv' = lv_dim lv /\ lv_num_classes lv' = lv_num_classes lv /\
  lv_default_class lv' = lv_default_class lv /\
  get_warp lv' class_idx = Ok warp /\
  forall j, j <> class_idx ->
    get_warp lv' j = get_warp lv j /\ get_transform lv' j = get_transform lv j.
Proof.
  intros Hwf Hrun.
  destruct (compute_mapping_transform_written _ _ _ _ _ _ _ Hrun) as (Hrange & A & ->).
  unfold well_formed, get_warp, get_transform, class_in_range, lv_num_classes in *.
  simpl. rewrite !length_insert.
  repeat split; try assumption; try reflexivity.
  - rewrite bool_decide_eq_true_2 by exact Hrange.
    rewrite list_lookup_insert_eq by lia. reflexivity.
  - destruct (bool_decide (0 <= j < Z.of_nat (length (lv_A lv)))%Z) eqn:Hj; [|reflexivity].
    apply bool_decide_eq_true in Hj.
    rewrite list_lookup_insert_ne by lia. reflexivity.
  - destruct (bool_decide (0 <= j < Z.of_nat (length (lv_A lv)))%Z) eqn:Hj; [|reflexivity].
    apply bool_decide_eq_true in Hj.
    rewrite list_lookup_insert_ne by lia. reflexivity.
Qed.

Lemma compute_mapping_transform_frame_witness :
  exists lv',
    @compute_mapping_transform Reference.carriers Reference.numerics
      (Some Reference.model) Reference.unwarped (Reference.warped (frac 3 2)) 2 (frac 3 2)
      None = Ok lv' /\
    get_warp lv' 2 = Ok (frac 3 2) /\
    get_warp lv' 0 = get_warp Reference.model 0 /\
    get_transform lv' 1 = get_transform Reference.model 1.
Proof.
  destruct (@compute_mapping_transform Reference.carriers Reference.numerics
              (Some Reference.model) Reference.unwarped (Reference.warped (frac 3 2))
              2 (frac 3 2) None) as [lv'|e] eqn:Hrun.
  - exists lv'. split; [reflexivity|].
    destruct (@compute_mapping_transform_frame Reference.carriers Reference.numerics
                _ _ _ _ _ _ _ (eq_refl : well_formed Reference.model) Hrun)
      as (_ & _ & _ & _ & Hw & Hothers).
    split; [exact Hw|]. split.
    + apply (Hothers 0%Z). lia.
    + apply (Hothers 1%Z). lia.
  - exfalso.
    assert (Hok : is_ok (@compute_mapping_transform Reference.carriers Reference.numerics
                           (Some Reference.model) Reference.unwarped
                           (Reference.warped (frac 3 2)) 2 (frac 3 2) None) = true)
      by (vm_compute; reflexivity).
    rewrite Hrun in Hok. discriminate Hok.
Defined.

(** X4.  Leaving [weights] out is the same as giving every frame of every
    utterance the weight 1: the two calls give the same model, or raise the
    same exception. *)
Theorem compute_mapping_transform_default_weights `{Carriers} `{Numerics}
    (lvtln : option LinearVtln) (feats_untransformed feats_transformed : FeaturesCollection)
    (class_idx : Z) (warp : Qc) (ones : dict vec) :
  Forall (fun item =>
            dict_get item.1 ones = Some (replicate (num_rows (data item.2)) 1))
         feats_untransformed ->
  compute_mapping_transform lvtln feats_untransformed feats_transformed class_idx warp
    (Some ones)
  = compute_mapping_transform lvtln feats_untransformed feats_transformed class_idx warp
      None.
Proof.
  intros Hones. unfold compute_mapping_transform.
  destruct (initialized lvtln) as [lv|e]; simpl; [|reflexivity].
  assert (Hstats : mapping_stats (lv_dim lv) feats_untransformed feats_transformed (Some ones)
                   = mapping_stats (lv_dim lv) feats_untransformed feats_transformed None).
  { unfold mapping_stats. apply for_each_ext.
    eapply Forall_impl; [exact Hones|]. intros item Hitem a. simpl in Hitem.
    unfold accumulate_utterance.
    destruct (dict_get item.1 feats_transformed) as [fy|]; [|reflexivity].
    match goal with |- context [if ?c then _ else _] => destruct c end; [reflexivity|].
    unfold utterance_weights. rewrite Hitem.
    rewrite decide_True by apply length_replicate.
    unfold Vector.
    change (map (fun w : Qc => w + 1) (replicate (num_rows (data item.2)) 0))
      with ((fun w : Qc => w + 1) <$> replicate (num_rows (data item.2)) (0 : Qc)).
    rewrite fmap_replicate, Qcplus_0_l. reflexivity. }
  rewrite Hstats. reflexivity.
Qed.

Lemma compute_mapping_transform_default_weights_witness :
  @compute_mapping_transform Reference.carriers Reference.numerics
    (Some Reference.model) Reference.unwarped (Reference.warped (frac 3 2)) 2 (frac 3 2)
    (Some [("utt1"%string, [1; 1]); ("utt2"%string, [1; 1])])
  = @compute_mapping_transform Reference.carriers Reference.numerics
      (Some Reference.model) Reference.unwarped (Reference.warped (frac 3 2)) 2 (frac 3 2)
      None.
Proof.
  apply (@compute_mapping_transform_default_weights Reference.carriers Reference.numerics).
  repeat constructor.
Defined.

(** ** Frames of weight zero *)

Lemma zip_with_kept {A B} (f : A -> B -> A) (l : list A) (k : list B) :
  (length l <= length k)%nat -> Forall (fun a => forall b, f a b = a) l ->
  zip_with f l k = l.
Proof.
  intros Hlen Hall. revert k Hlen.
  induction Hall as [|a l Ha _ IH]; intros [|b k] Hlen; simpl in *;
    try reflexivity; try lia.
  rewrite Ha, IH by lia. reflexivity.
Qed.

Lemma zip_with_bounded {A B} (P : A -> Prop) (f : A -> B -> A) (l : list A) (k : list B) :
  (forall a b, P a -> P (f a b)) -> Forall P l -> Forall P (zip_with f l k).
Proof.
  intros Hf Hall. revert k.
  induction Hall as [|a l Ha _ IH]; intros [|b k]; simpl; constructor; auto.
Qed.

Lemma length_zip_with_le {A B} (f : A -> B -> A) (l : list A) (k : list B) :
  (length (zip_with f l k) <= length l)%nat.
Proof. rewrite length_zip_with. lia. Qed.

Lemma accs_bounded_init (dim : nat) : accs_bounded dim (mapping_accs_init dim).
Proof.
  unfold accs_bounded, mapping_accs_init, Matrix, Vector. simpl.
  rewrite !length_replicate.
  repeat split; try lia; apply Forall_replicate; rewrite length_replicate; lia.
Qed.

Lemma accs_bounded_frame (dim : nat) (weight : Qc) (x_row y_row : vec) (a : mapping_accs) :
  accs_bounded dim a -> accs_bounded dim (accumulate_frame dim weight x_row y_row a).
Proof.
  unfold accs_bounded, accumulate_frame, sp_add_vec2_, mat_add_vec_vec_, add_vec_,
    add_vec2_, add_vec_vec_. simpl.
  intros (HQ & HQr & Hl & Hlr & Hc & Hs & Hx & Hd).
  repeat split.
  - etransitivity; [apply length_zip_with_le | exact HQ].
  - apply zip_with_bounded; [|exact HQr].
    intros row ai Hrow. etransitivity; [apply length_zip_with_le | exact Hrow].
  - etransitivity; [apply length_zip_with_le | exact Hl].
  - apply zip_with_bounded; [|exact Hlr].
    intros row ai Hrow. etransitivity; [apply length_zip_with_le | exact Hrow].
  - etransitivity; [apply length_zip_with_le | exact Hc].
  - etransitivity; [apply length_zip_with_le | exact Hs].
  - etransitivity; [apply length_zip_with_le | exact Hx].
  - etransitivity; [apply length_zip_with_le|].
    etransitivity; [apply length_zip_with_le|].
    etransitivity; [apply length_zip_with_le | exact Hd].
Qed.

Lemma accs_bounded_frames (dim : nat) (w : vec) (x y : ndarray) (a : mapping_accs) :
  accs_bounded dim a -> accs_bounded dim (accumulate_frames dim w x y a).
Proof.
  unfold accumulate_frames. generalize (seq 0 (num_rows x)) as idx.
  intros idx. revert a. induction idx as [|i idx IH]; intros a Ha; simpl; [exact Ha|].
  apply IH, accs_bounded_frame, Ha.
Qed.

Lemma accs_bounded_utterance `{Carriers} (dim : nat) (ft : FeaturesCollection)
    (weights : option (dict vec)) (a a' : mapping_accs) (item : string * Features) :
  accs_bounded dim a -> accumulate_utterance dim ft weights a item = Ok a' ->
  accs_bounded dim a'.
Proof.
  intros Ha Hrun. unfold accumulate_utterance in Hrun.
  destruct (dict_get item.1 ft) as [fy|]; [|discriminate].
  match type of Hrun with context [if ?c then _ else _] => destruct c end; [discriminate|].
  apply rbind_ok in Hrun. destruct Hrun as (w & _ & Hrun). injection Hrun as <-.
  apply accs_bounded_frames, Ha.
Qed.

Lemma accumulate_frame_zero (dim : nat) (x_row y_row : vec) (a : mapping_accs) :
  accs_bounded dim a -> length x_row = dim -> length y_row = dim ->
  accumulate_frame dim 0 x_row y_row a = a.
Proof.
  intros (HQ & HQr & Hl & Hlr & Hc & Hs & Hx & Hd) Hxl Hyl.
  pose proof (length_xplus dim x_row) as Hplus.
  assert (Hrows : forall (M : mat) (v : vec),
             (length M <= length v)%nat ->
             Forall (fun row => (length row <= dim + 1)%nat) M ->
             mat_add_vec_vec_ 0 v (<[dim := 1]> (resize_ (dim + 1) x_row)) M = M).
  { intros M v Hlen Hall. unfold mat_add_vec_vec_. apply zip_with_kept; [exact Hlen|].
    eapply Forall_impl; [exact Hall|]. intros row Hrow ai. simpl in Hrow.
    unfold add_vec_. apply zip_with_kept; [lia|].
    apply Forall_forall. intros s _ x. ring. }
  destruct a as [Q l c beta sum_xplus sumsq_x sumsq_diff]. simpl in *.
  unfold accumulate_frame, sp_add_vec2_. simpl.
  rewrite !Hrows by (assumption || lia).
  unfold add_vec_, add_vec2_, add_vec_vec_.
  rewrite !zip_with_kept;
    try (apply Forall_forall; intros s _ x; ring);
    rewrite ?length_zip_with; try lia.
  f_equal. ring.
Qed.

Lemma at_replicate_zero (n i : nat) : at_ (replicate n 0) i = 0.
Proof.
  unfold at_. revert i. induction n as [|n IH]; intros [|i]; simpl; auto.
Qed.

Lemma accumulate_frames_zero (dim : nat) (x y : ndarray) (a : mapping_accs) :
  accs_bounded dim a -> num_cols x = dim -> num_cols y = dim -> num_rows x = num_rows y ->
  accumulate_frames dim (replicate (num_rows x) 0) x y a = a.
Proof.
  intros Ha Hx Hy Hrows. unfold accumulate_frames.
  assert (Hidx : Forall (fun i => (i < num_rows x)%nat) (seq 0 (num_rows x))).
  { apply Forall_forall. intros i Hi. apply elem_of_seq in Hi. lia. }
  revert Hidx. generalize (seq 0 (num_rows x)) as idx.
  intros idx Hidx. induction Hidx as [|i idx Hi _ IH]; simpl; [reflexivity|].
  rewrite at_replicate_zero, accumulate_frame_zero; [exact IH | exact Ha | |].
  - rewrite length_row_of_rows by exact Hi. exact Hx.
  - rewrite length_row_of_rows by lia. exact Hy.
Qed.

Lemma mapping_stats_bounded `{Carriers} (dim : nat) (xs ft : FeaturesCollection)
    (weights : option (dict vec)) (a a' : mapping_accs) :
  accs_bounded dim a ->
  for_each xs (accumulate_utterance dim ft weights) a = Ok a' -> accs_bounded dim a'.
Proof.
  intros Ha Hrun.
  refine (proj1 (for_each_ok (accs_bounded dim) (fun _ => True) _ _ _ _ _ Ha Hrun)).
  intros a0 x a1 Ha0 Hstep. split; [|exact I]. eapply accs_bounded_utterance; eassumption.
Qed.

(** X5.  An utterance whose frames all have weight zero does not influence the
    fit: when it passes the shape checks, the call gives the same result
    (model or exception) as the call on the collection without it. *)
Theorem compute_mapping_transform_zero_weights `{Carriers} `{Numerics}
    (lv : LinearVtln) (before after feats_transformed : FeaturesCollection)
    (utt : string) (feats : Features) (class_idx : Z) (warp : Qc) (weights : dict vec) :
  paired (lv_dim lv) feats_transformed (utt, feats) = true ->
  dict_get utt weights = Some (replicate (num_rows (data feats)) 0) ->
  compute_mapping_transform (Some lv) (before ++ (utt, feats) :: after) feats_transformed
    class_idx warp (Some weights)
  = compute_mapping_transform (Some lv) (before ++ after) feats_transformed
      class_idx warp (Some weights).
Proof.
  intros Hpaired Hzero. unfold compute_mapping_transform. simpl.
  assert (Hstats : mapping_stats (lv_dim lv) (before ++ (utt, feats) :: after)
                     feats_transformed (Some weights)
                   = mapping_stats (lv_dim lv) (before ++ after) feats_transformed
                       (Some weights)).
  { unfold mapping_stats. rewrite !for_each_app.
    destruct (for_each before _ _) as [a|e] eqn:Hbefore; simpl; [|reflexivity].
    assert (Ha : accs_bounded (lv_dim lv) a)
      by (eapply mapping_stats_bounded; [apply accs_bounded_init | exact Hbefore]).
    assert (Hstep : accumulate_utterance (lv_dim lv) feats_transformed (Some weights) a
                      (utt, feats) = Ok a).
    { unfold accumulate_utterance, paired in *. simpl in *.
      destruct (dict_get utt feats_transformed) as [fy|]; [|discriminate].
      destruct (bool_decide (num_rows (data feats) = num_rows (data fy))) eqn:Hr;
        destruct (bool_decide (num_cols (data feats) = num_cols (data fy))) eqn:Hc;
        destruct (bool_decide (num_cols (data feats) = lv_dim lv)) eqn:Hd;
        try discriminate.
      apply bool_decide_eq_true in Hr, Hc, Hd. simpl.
      unfold utterance_weights. rewrite Hzero.
      rewrite decide_True by apply length_replicate. simpl.
      rewrite accumulate_frames_zero; [reflexivity | exact Ha | | |]; congruence. }
    rewrite Hstep. reflexivity. }
  rewrite Hstats. reflexivity.
Qed.

Lemma compute_mapping_transform_zero_weights_witness :
  @compute_mapping_transform Reference.carriers Reference.numerics
    (Some Reference.model)
    ([("utt1"%string, Reference.frames [1; of_Z 2])]
     ++ ("utt2"%string, Reference.frames [of_Z 5; of_Z 7]) :: [])
    [("utt1"%string, Reference.frames [of_Z 2; of_Z 4]);
     ("utt2"%string, Reference.frames [of_Z 3; of_Z 3])]
    0 (of_Z 2) (Some [("utt1"%string, [1; 1]); ("utt2"%string, [0; 0])])
  = @compute_mapping_transform Reference.carriers Reference.numerics
      (Some Reference.model)
      ([("utt1"%string, Reference.frames [1; of_Z 2])] ++ [])
      [("utt1"%string, Reference.frames [of_Z 2; of_Z 4]);
       ("utt2"%string, Reference.frames [of_Z 3; of_Z 3])]
      0 (of_Z 2) (Some [("utt1"%string, [1; 1]); ("utt2"%string, [0; 0])]).
Proof.
  apply (@compute_mapping_transform_zero_weights Reference.carriers Reference.numerics).
  - reflexivity.
  - reflexivity.
Defined.

(** ** No frames at all *)

Lemma for_each_kept {A T} (I : T -> Prop) (Q : A -> Prop) (xs : list A)
    (body : T -> A -> result T) (acc acc' : T) :
  (forall a x a', Q x -> I a -> body a x = Ok a' -> I a') ->
  Forall Q xs -> I acc -> for_each xs body acc = Ok acc' -> I acc'.
Proof.
  intros Hbody Hall. revert acc.
  induction Hall as [|x xs Hx _ IH]; intros acc HI Hrun; simpl in Hrun.
  - injection Hrun as <-. exact HI.
  - apply rbind_ok in Hrun. destruct Hrun as (a & Hstep & Hrun).
    apply (IH a); [|exact Hrun]. eapply Hbody; eassumption.
Qed.

Lemma accumulate_utterance_raise `{Carriers} (dim : nat) (ft : FeaturesCollection)
    (weights : option (dict vec)) (a : mapping_accs) (item : string * Features) (e : exn) :
  accumulate_utterance dim ft weights a item = Raise e ->
  (exists msg, e = ValueError msg) \/ (exists msg, e = KaldiError msg).
Proof.
  unfold accumulate_utterance. intros Hrun.
  destruct (dict_get item.1 ft) as [fy|]; [|injection Hrun as <-; eauto].
  match type of Hrun with context [if ?c then _ else _] => destruct c end;
    [injection Hrun as <-; eauto|].
  apply rbind_raise in Hrun. destruct Hrun as [Hw|(w & _ & Hrun)]; [|discriminate].
  unfold utterance_weights in Hw. destruct weights as [ws|]; [|discriminate].
  destruct (dict_get item.1 ws) as [w|]; [|injection Hw as <-; eauto].
  destruct (decide (length w = num_rows (data item.2))); [discriminate|].
  injection Hw as <-. eauto.
Qed.

(** X6.  On a collection without a single frame (an empty collection, or
    utterances of zero rows) and a model of positive dimension,
    [compute_mapping_transform] never returns: it raises, with [ValueError]
    or a Kaldi error from the checks and the inversion, or else with
    [ZeroDivisionError] from the division by [beta = 0]. *)
Theorem compute_mapping_transform_no_frames `{Carriers} `{Numerics}
    (lv : LinearVtln) (feats_untransformed feats_transformed : FeaturesCollection)
    (class_idx : Z) (warp : Qc) (weights : option (dict vec)) :
  (0 < lv_dim lv)%nat ->
  Forall (fun item => num_rows (data item.2) = 0%nat) feats_untransformed ->
  exists e,
    compute_mapping_transform (Some lv) feats_untransformed feats_transformed
      class_idx warp weights = Raise e /\
    ((exists msg, e = ValueError msg) \/ (exists msg, e = KaldiError msg) \/
     e = ZeroDivisionError).
Proof.
  intros Hdim Hempty. unfold compute_mapping_transform. simpl.
  destruct (mapping_stats (lv_dim lv) feats_untransformed feats_transformed weights)
    as [a|e] eqn:Hstats; simpl.
  - assert (Hbeta : acc_beta a = 0).
    { unfold mapping_stats in Hstats.
      refine (for_each_kept (fun a => acc_beta a = 0) _ _ _ _ _ _ Hempty _ Hstats);
        [|reflexivity].
      intros a0 item a1 Hrows Ha0 Hstep. simpl in Hrows.
      unfold accumulate_utterance in Hstep.
      destruct (dict_get item.1 feats_transformed) as [fy|]; [|discriminate].
      match type of Hstep with context [if ?c then _ else _] => destruct c end;
        [discriminate|].
      apply rbind_ok in Hstep. destruct Hstep as (w & _ & Hstep). injection Hstep as <-.
      unfold accumulate_frames. rewrite Hrows. simpl. exact Ha0. }
    unfold fit_transform. destruct (sp_invert (acc_Q a)) as [Qinv|]; simpl; [|eauto 6].
    destruct (lv_dim lv) as [|dim] eqn:Hd; [lia|].
    rewrite <- cons_seq. simpl.
    unfold fit_row at 1. cbv zeta. rewrite Hbeta.
    unfold py_div at 1. rewrite decide_True by reflexivity. simpl. eauto 6.
  - exists e. split; [reflexivity|].
    unfold mapping_stats in Hstats. apply for_each_raise in Hstats.
    destruct Hstats as (a & item & _ & Hitem).
    apply accumulate_utterance_raise in Hitem. tauto.
Qed.

Lemma compute_mapping_transform_no_frames_witness :
  exists e,
    @compute_mapping_transform Reference.carriers Reference.numerics
      (Some Reference.model) [] Reference.unwarped 0 1 None = Raise e.
Proof.
  destruct (@compute_mapping_transform_no_frames Reference.carriers Reference.numerics
              Reference.model [] Reference.unwarped 0 1 None) as (e & He & _).
  - simpl. lia.
  - constructor.
  - exists e. exact He.
Defined.

(** ** [estimate]: what it checks and what it returns *)

Section EstimateFacts.
Context `{Collaborators}.

Lemma accumulate_for_utterance_ok (u : Ubm) (posteriors : Posteriors)
    (stats stats' : FmllrDiagGmmAccs) (item : string * Features) :
  accumulate_for_utterance u posteriors stats item = Ok stats' ->
  posteriors_fit posteriors item = true.
Proof.
  unfold accumulate_for_utterance, posteriors_fit.
  destruct (dict_get item.1 posteriors) as [post|]; [|discriminate].
  destruct (decide (length post = num_rows (data item.2))); [|discriminate].
  intros _. apply bool_decide_eq_true. assumption.
Qed.

Lemma unit_outcome_ok (self : VtlnProcessor) (lv : LinearVtln) (u : Ubm)
    (posteriors : Posteriors) (tables tables' : estimate_tables)
    (unit : string * FeaturesCollection) (oc : Qc * Qc) :
  unit_outcome self lv u posteriors tables unit = Ok (tables', oc) ->
  Forall (fun item => posteriors_fit posteriors item = true) unit.2 /\
  exists transform w,
    warp_of_model lv w /\
    es_transforms tables' = dict_set unit.1 transform (es_transforms tables) /\
    es_warps tables' = dict_set unit.1 w (es_warps tables).
Proof.
  unfold unit_outcome. intros Hrun.
  apply rbind_ok in Hrun. destruct Hrun as (stats & Hstats & Hrun).
  destruct (compute_transform lv stats (norm_type self) (logdet_scale self))
    as [[[class_idx transform] objf_impr] count].
  apply rbind_ok in Hrun. destruct Hrun as (counts & Hcounts & Hrun).
  apply rbind_ok in Hrun. destruct Hrun as (w & Hw & Hrun).
  injection Hrun as <- <-. simpl. split.
  - refine (proj2 (for_each_ok (fun _ => True) _ _ _ _ _ _ I Hstats)).
    intros a x a' _ Hstep. split; [exact I|]. eapply accumulate_for_utterance_ok, Hstep.
  - exists transform, w. repeat split. exists class_idx. split; [|exact Hw].
    unfold get_warp, class_in_range in Hw.
    destruct (bool_decide (0 <= class_idx < lv_num_classes lv)%Z) eqn:Hr; [|discriminate].
    apply bool_decide_eq_true in Hr. exact Hr.
Qed.

Lemma estimate_unit_ok (self : VtlnProcessor) (lv : LinearVtln) (u : Ubm)
    (posteriors : Posteriors) (st st' : estimate_state)
    (unit : string * FeaturesCollection) :
  estimate_unit self lv u posteriors st unit = Ok st' ->
  exists oc, unit_outcome self lv u posteriors (es_tables st) unit = Ok (es_tables st', oc).
Proof.
  unfold estimate_unit. intros Hrun.
  apply rbind_ok in Hrun. destruct Hrun as ([tables [objf count]] & Hu & Hrun).
  apply rbind_ok in Hrun. destruct Hrun as (pf & _ & Hrun). injection Hrun as <-.
  simpl. eauto.
Qed.

End EstimateFacts.

Lemma keys_dict_set {V W} (k : string) (v : V) (w : W) (d : dict V) (d' : dict W) :
  map fst d = map fst d' -> map fst (dict_set k v d) = map fst (dict_set k w d').
Proof.
  revert d'. induction d as [|[k1 v1] d IH]; intros [|[k2 v2] d'] Hk; simpl in *;
    try discriminate; [reflexivity|].
  injection Hk as -> Hk. destruct (decide (k2 = k)); simpl; [congruence|].
  rewrite (IH d' Hk). reflexivity.
Qed.

Lemma elem_of_keys_dict_set {V} (k key : string) (v : V) (d : dict V) :
  key ∈ map fst (dict_set k v d) <-> key = k \/ key ∈ map fst d.
Proof.
  induction d as [|[k1 v1] d IH]; simpl.
  - rewrite list_elem_of_singleton. rewrite elem_of_nil. tauto.
  - destruct (decide (k1 = k)) as [->|Hne]; simpl; rewrite !elem_of_cons.
    + tauto.
    + rewrite IH. tauto.
Qed.

Lemma values_dict_set {V} (P : V -> Prop) (k : string) (v : V) (d : dict V) :
  P v -> Forall (fun kv => P kv.2) d -> Forall (fun kv => P kv.2) (dict_set k v d).
Proof.
  intros Hv Hall. induction Hall as [|[k1 v1] d H1 Hd IH]; simpl.
  - repeat constructor. exact Hv.
  - destruct (decide (k1 = k)); constructor; assumption.
Qed.

Lemma dict_get_In {V} (k : string) (v : V) (d : dict V) :
  dict_get k d = Some v -> In (k, v) d.
Proof.
  induction d as [|[k1 v1] d IH]; simpl; [discriminate|].
  destruct (decide (k1 = k)) as [->|]; [intros [= ->]; auto | auto].
Qed.

Lemma dict_get_Some_keys {V} (k : string) (d : dict V) :
  is_Some (dict_get k d) <-> k ∈ map fst d.
Proof.
  induction d as [|[k1 v1] d IH]; simpl.
  - rewrite elem_of_nil. split; [intros [x Hx]; discriminate | tauto].
  - rewrite elem_of_cons. destruct (decide (k1 = k)) as [->|Hne].
    + split; eauto.
    + rewrite IH. split; [tauto | intros [->|]; [congruence | assumption]].
Qed.

(** X7.  [estimate] returns only if every utterance of every unit of
    adaptation has a list of posteriors with exactly one entry per frame;
    without [utt2speak] the units are the utterances of [feats_collection]
    themselves. *)
Theorem estimate_checks_posteriors `{Collaborators} (self : VtlnProcessor) (u : Ubm)
    (feats_collection : FeaturesCollection) (posteriors : Posteriors)
    (utt2speak : option (dict string)) (tw : dict mat * dict Qc) :
  estimate self u feats_collection posteriors utt2speak = Ok tw ->
  exists units,
    estimate_units feats_collection utt2speak = Ok units /\
    Forall (fun unit => Forall (fun item => posteriors_fit posteriors item = true) unit.2)
           units /\
    (utt2speak = None ->
     Forall (fun item => posteriors_fit posteriors item = true) feats_collection).
Proof.
  intros Hrun. unfold estimate in Hrun.
  apply rbind_ok in Hrun. destruct Hrun as (lv & _ & Hrun).
  apply rbind_ok in Hrun. destruct Hrun as (units & Hunits & Hrun).
  apply rbind_ok in Hrun. destruct Hrun as (st & Hloop & _).
  exists units. split; [exact Hunits|].
  assert (Hall : Forall (fun unit => Forall (fun item => posteriors_fit posteriors item = true)
                                        unit.2) units).
  { refine (proj2 (for_each_ok (fun _ => True) _ _ _ _ _ _ I Hloop)).
    intros st0 unit st1 _ Hstep. split; [exact I|].
    apply estimate_unit_ok in Hstep. destruct Hstep as (oc & Hstep).
    apply unit_outcome_ok in Hstep. tauto. }
  split; [exact Hall|].
  intros ->. simpl in Hunits. injection Hunits as <-.
  rewrite Forall_map in Hall. eapply Forall_impl; [exact Hall|].
  intros item Hitem. simpl in Hitem. apply Forall_inv in Hitem. exact Hitem.
Qed.

Lemma estimate_checks_posteriors_witness :
  Forall (fun item => @posteriors_fit Reference.carriers
                        [("utt1"%string, [[(0%Z, 1)]; [(0%Z, 1)]]);
                         ("utt2"%string, [[(0%Z, 1)]; [(0%Z, 1)]])] item = true)
         Reference.unwarped.
Proof.
  destruct (@estimate Reference.carriers Reference.collaborators Reference.trained
              (true, O) Reference.unwarped
              [("utt1"%string, [[(0%Z, 1)]; [(0%Z, 1)]]);
               ("utt2"%string, [[(0%Z, 1)]; [(0%Z, 1)]])] None) as [tw|e] eqn:Hrun.
  - destruct (@estimate_checks_posteriors Reference.carriers Reference.collaborators
                _ _ _ _ _ _ Hrun) as (units & _ & _ & Hall).
    apply Hall. reflexivity.
  - exfalso.
    assert (Hok : is_ok (@estimate Reference.carriers Reference.collaborators
                           Reference.trained (true, O) Reference.unwarped
                           [("utt1"%string, [[(0%Z, 1)]; [(0%Z, 1)]]);
                            ("utt2"%string, [[(0%Z, 1)]; [(0%Z, 1)]])] None) = true)
      by (vm_compute; reflexivity).
    rewrite Hrun in Hok. discriminate Hok.
Defined.

Lemma estimate_loop_tables `{Collaborators} (self : VtlnProcessor) (lv : LinearVtln)
    (u : Ubm) (posteriors : Posteriors) (units : list (string * FeaturesCollection))
    (st st' : estimate_state) :
  for_each units (estimate_unit self lv u posteriors) st = Ok st' ->
  map fst (es_transforms (es_tables st)) = map fst (es_warps (es_tables st)) ->
  Forall (fun kv => warp_of_model lv kv.2) (es_warps (es_tables st)) ->
  map fst (es_transforms (es_tables st')) = map fst (es_warps (es_tables st')) /\
  Forall (fun kv => warp_of_model lv kv.2) (es_warps (es_tables st')) /\
  forall key, key ∈ map fst (es_warps (es_tables st')) <->
              key ∈ map fst (es_warps (es_tables st)) \/ key ∈ map fst units.
Proof.
  revert st. induction units as [|unit units IH]; intros st Hrun Hkeys Hvals;
    simpl in Hrun.
  - injection Hrun as <-. repeat split; try assumption; [tauto|].
    intros [?|Hnil]; [assumption | simpl in Hnil; apply elem_of_nil in Hnil; tauto].
  - apply rbind_ok in Hrun. destruct Hrun as (st1 & Hstep & Hrun).
    apply estimate_unit_ok in Hstep. destruct Hstep as (oc & Hstep).
    apply unit_outcome_ok in Hstep.
    destruct Hstep as (_ & transform & w & Hw & Htr & Hwp).
    destruct (IH st1 Hrun) as (Hkeys' & Hvals' & Hiff).
    + rewrite Htr, Hwp. apply keys_dict_set, Hkeys.
    + rewrite Hwp. apply values_dict_set; assumption.
    + repeat split; try assumption.
      * intros Hin. apply Hiff in Hin. rewrite Hwp, elem_of_keys_dict_set in Hin.
        simpl. rewrite elem_of_cons. tauto.
      * intros Hin. apply Hiff. rewrite Hwp, elem_of_keys_dict_set.
        simpl in Hin. rewrite elem_of_cons in Hin. tauto.
Qed.

Lemma estimate_returns `{Collaborators} (self : VtlnProcessor) (u : Ubm)
    (feats_collection : FeaturesCollection) (posteriors : Posteriors)
    (utt2speak : option (dict string)) (tw : dict mat * dict Qc) :
  estimate self u feats_collection posteriors utt2speak = Ok tw ->
  exists lv units,
    lvtln self = Some lv /\
    estimate_units feats_collection utt2speak = Ok units /\
    map fst tw.1 = map fst tw.2 /\
    (forall key, key ∈ map fst tw.2 <-> key ∈ map fst units) /\
    Forall (fun kv => warp_of_model lv kv.2) tw.2.
Proof.
  intros Hrun. unfold estimate in Hrun.
  apply rbind_ok in Hrun. destruct Hrun as (lv & Hlv & Hrun).
  apply rbind_ok in Hrun. destruct Hrun as (units & Hunits & Hrun).
  apply rbind_ok in Hrun. destruct Hrun as (st & Hloop & Hrun).
  apply rbind_ok in Hrun. destruct Hrun as (pf & _ & Hrun). injection Hrun as <-.
  destruct (lvtln self) as [lv0|]; [|discriminate]. injection Hlv as ->.
  destruct (estimate_loop_tables _ _ _ _ _ _ _ Hloop) as (Hkeys & Hvals & Hiff);
    [reflexivity | constructor |].
  exists lv, units. simpl. repeat split; try assumption.
  - intros Hin. apply Hiff in Hin.
    destruct Hin as [Hnil|Hin]; [simpl in Hnil; apply elem_of_nil in Hnil; tauto|].
    exact Hin.
  - intros Hin. apply Hiff. right. exact Hin.
Qed.

(** X8.  When [estimate] returns, the two mappings have the same keys in the
    same order, the keys are exactly the units of adaptation (the speakers,
    or the utterances without [utt2speak]), and every warp returned is the
    warp factor of one of the classes of the model. *)
Theorem estimate_tables_of_model `{Collaborators} (self : VtlnProcessor) (u : Ubm)
    (feats_collection : FeaturesCollection) (posteriors : Posteriors)
    (utt2speak : option (dict string)) (new_transforms : dict mat) (new_warps : dict Qc) :
  estimate self u feats_collection posteriors utt2speak = Ok (new_transforms, new_warps) ->
  exists lv units,
    lvtln self = Some lv /\
    estimate_units feats_collection utt2speak = Ok units /\
    map fst new_transforms = map fst new_warps /\
    (forall key, is_Some (dict_get key new_warps) <-> key ∈ map fst units) /\
    (forall key w, dict_get key new_warps = Some w -> warp_of_model lv w).
Proof.
  intros Hrun.
  destruct (estimate_returns _ _ _ _ _ _ Hrun) as (lv & units & Hlv & Hunits & Hkeys & Hiff
                                                   & Hvals).
  simpl in *. exists lv, units. repeat split; try assumption.
  - intros Hsome. apply Hiff, dict_get_Some_keys, Hsome.
  - intros Hin. apply dict_get_Some_keys, Hiff, Hin.
  - intros key w Hget. apply dict_get_In, list_elem_of_In in Hget.
    rewrite Forall_forall in Hvals. exact (Hvals _ Hget).
Qed.

Lemma estimate_tables_of_model_witness :
  exists new_transforms new_warps,
    @estimate Reference.carriers Reference.collaborators Reference.trained
      (true, O) Reference.unwarped
      [("utt1"%string, [[(0%Z, 1)]; [(0%Z, 1)]]);
       ("utt2"%string, [[(0%Z, 1)]; [(0%Z, 1)]])] None = Ok (new_transforms, new_warps) /\
    map fst new_transforms = map fst new_warps /\
    forall key w, dict_get key new_warps = Some w -> warp_of_model Reference.model w.
Proof.
  destruct (@estimate Reference.carriers Reference.collaborators Reference.trained
              (true, O) Reference.unwarped
              [("utt1"%string, [[(0%Z, 1)]; [(0%Z, 1)]]);
               ("utt2"%string, [[(0%Z, 1)]; [(0%Z, 1)]])] None) as [[tr wp]|e] eqn:Hrun.
  - exists tr, wp. split; [reflexivity|].
    destruct (@estimate_tables_of_model Reference.carriers Reference.collaborators
                _ _ _ _ _ _ _ Hrun) as (lv & units & Hlv & _ & Hkeys & _ & Hvals).
    injection Hlv as <-. auto.
  - exfalso.
    assert (Hok : is_ok (@estimate Reference.carriers Reference.collaborators
                           Reference.trained (true, O) Reference.unwarped
                           [("utt1"%string, [[(0%Z, 1)]; [(0%Z, 1)]]);
                            ("utt2"%string, [[(0%Z, 1)]; [(0%Z, 1)]])] None) = true)
      by (vm_compute; reflexivity).
    rewrite Hrun in Hok. discriminate Hok.
Defined.

(** ** [process]: the stages of a run that returns *)

Lemma for_loop_indexed `{Carriers} {A T} (I : nat -> T -> pstate -> Prop)
    (body : T -> A -> M T) (xs : list A) (acc acc' : T) (s s' : pstate) :
  (forall j acc x s acc' s',
     xs !! j = Some x -> I j acc s -> body acc x s = (Ok acc', s') -> I (S j) acc' s') ->
  I 0%nat acc s -> for_loop xs body acc s = (Ok acc', s') -> I (length xs) acc' s'.
Proof.
  intros Hbody HI Hrun.
  assert (Hgen : forall ys k acc s,
             (forall j x, ys !! j = Some x -> xs !! (k + j)%nat = Some x) ->
             I k acc s -> for_loop ys body acc s = (Ok acc', s') ->
             I (k + length ys)%nat acc' s').
  { clear acc s HI Hrun. induction ys as [|y ys IH]; intros k acc s Hsub HI Hrun;
      simpl in Hrun.
    - unfold ret in Hrun. injection Hrun as <- <-. rewrite Nat.add_0_r. exact HI.
    - apply bind_ok in Hrun. destruct Hrun as (acc1 & s1 & Hstep & Hrun).
      simpl. replace (k + S (length ys))%nat with (S k + length ys)%nat by lia.
      apply (IH (S k) acc1 s1); [| |exact Hrun].
      + intros j x Hj. replace (S k + j)%nat with (k + S j)%nat by lia.
        apply Hsub. exact Hj.
      + eapply Hbody; [|exact HI|exact Hstep].
        specialize (Hsub 0%nat y eq_refl). rewrite Nat.add_0_r in Hsub. exact Hsub. }
  apply (Hgen xs 0%nat acc s); auto.
Qed.

Lemma lookup_py_range (n : Z) (j : nat) (c : Z) :
  py_range n !! j = Some c -> c = Z.of_nat j /\ (j < Z.to_nat n)%nat.
Proof.
  unfold py_range. rewrite list_lookup_fmap. intros Hc.
  destruct (seq 0 (Z.to_nat n) !! j) as [i|] eqn:Hi; [|discriminate].
  apply lookup_seq in Hi. simpl in Hc. injection Hc as <-. destruct Hi as [-> Hlt].
  auto.
Qed.

Section Stages.
Context `{Collaborators} `{Numerics}.

Lemma acquire_ubm_run (utterances : Utterances) (given : option Ubm) (u : Ubm)
    (s s1 : pstate) :
  acquire_ubm utterances given s = (Ok u, s1) ->
  u = acquired utterances given (processor s) /\
  (forall g, given = Some g -> is_Some (ubm_gmm g)) /\
  s1 = {| processor := adopted given (processor s);
          calls := calls s ++ ubm_calls given (processor s) |}.
Proof.
  intros Hrun. unfold acquire_ubm in Hrun.
  apply bind_ok in Hrun. destruct Hrun as (self & s0 & Hself & Hrun).
  cbv [get_self] in Hself. injection Hself as <- <-.
  destruct given as [g|]; simpl.
  - destruct (ubm_gmm g) as [gmm|] eqn:Hg; [|discriminate]. invert_run Hrun.
    cbv [ret] in Hrun. injection Hrun as <- <-. simpl. rewrite app_nil_r.
    repeat split. intros g' [= <-]. rewrite Hg. eauto.
  - invert_run Hrun. cbv [ret] in Hrun. injection Hrun as <- <-.
    repeat split. intros g [=].
Qed.

Lemma initialize_lvtln_run (u : Ubm) (n : Z) (s s1 : pstate) :
  initialize_lvtln u s = (Ok n, s1) ->
  exists gmm d,
    ubm_gmm u = Some gmm /\
    num_classes_of (min_warp (processor s)) (max_warp (processor s))
      (warp_step (processor s)) = Ok n /\
    default_class_of (min_warp (processor s)) (warp_step (processor s)) = Ok d /\
    (0 <= d < n)%Z /\
    s1 = {| processor :=
              with_lvtln (Some {| lv_dim := gmm_dim gmm; lv_default_class := d;
                                  lv_A := replicate (Z.to_nat n) (identity (gmm_dim gmm));
                                  lv_warps := replicate (Z.to_nat n) 1 |})
                (processor s);
            calls := calls s ++ [call_LinearVtln_new (gmm_dim gmm) n d] |}.
Proof.
  intros Hrun. unfold initialize_lvtln in Hrun. invert_run Hrun.
  cbv [ret] in Hrun. injection Hrun as <- <-.
  destruct (ubm_gmm u) as [gmm|]; [|discriminate]. injection Hrun0 as <-.
  match goal with
  | Hnew : LinearVtln_new _ _ ?d = Ok _ |- _ =>
      exists gmm, d; unfold LinearVtln_new in Hnew;
      destruct (decide (0 <= d < _)%Z) as [Hrange|]; [|discriminate];
      injection Hnew as <-
  end.
  simpl. repeat split; try assumption; lia.
Qed.

Lemma base_transform_run (utterances : Utterances) (vad : dict (list bool))
    (featsub_unwarped : FeaturesCollection) (c : Z) (s s1 : pstate) (r : unit) :
  base_transform utterances vad featsub_unwarped tt c s = (Ok r, s1) ->
  let w := class_warp (min_warp (processor s)) (warp_step (processor s)) c in
  exists lv',
    compute_mapping_transform (lvtln (processor s)) featsub_unwarped
      (subsampled (subsample (processor s))
         (trim (extract_features_warp (features (processor s)) utterances w) vad))
      c w None = Ok lv' /\
    s1 = {| processor := with_lvtln (Some lv') (processor s);
            calls := calls s ++ [call_extract_features_warp w;
                                 call_compute_mapping_transform c w] |}.
Proof.
  intros Hrun. unfold base_transform in Hrun. invert_run Hrun.
  cbv [put_self] in Hrun. injection Hrun as <- <-. simpl.
  eexists. split; [eassumption|]. rewrite <- app_assoc. reflexivity.
Qed.


Lemma sweep_run (utterances : Utterances) (vad : dict (list bool))
    (featsub_unwarped : FeaturesCollection) (n : Z) (lv0 : LinearVtln) (p : VtlnProcessor)
    (cs : list call) (s1 : pstate) (r : unit) :
  for_loop (py_range n) (base_transform utterances vad featsub_unwarped) tt
    {| processor := with_lvtln (Some lv0) p; calls := cs |} = (Ok r, s1) ->
  length (lv_A lv0) = Z.to_nat n -> length (lv_warps lv0) = Z.to_nat n ->
  exists lv,
    s1 = {| processor := with_lvtln (Some lv) p;
            calls := cs ++ sweep_calls (min_warp p) (warp_step p) (py_range n) |} /\
    lv_dim lv = lv_dim lv0 /\ lv_default_class lv = lv_default_class lv0 /\
    length (lv_A lv) = Z.to_nat n /\ length (lv_warps lv) = Z.to_nat n /\
    forall i, (i < Z.to_nat n)%nat ->
      lv_warps lv !! i = Some (class_warp (min_warp p) (warp_step p) (Z.of_nat i)).
Proof.
  intros Hrun HA Hw.
  pose (I := fun (j : nat) (_ : unit) (sk : pstate) =>
    exists lv,
      sk = {| processor := with_lvtln (Some lv) p;
              calls := cs ++ sweep_calls (min_warp p) (warp_step p)
                              (take j (py_range n)) |} /\
      lv_dim lv = lv_dim lv0 /\ lv_default_class lv = lv_default_class lv0 /\
      length (lv_A lv) = Z.to_nat n /\ length (lv_warps lv) = Z.to_nat n /\
      forall i, (i < j)%nat ->
        lv_warps lv !! i = Some (class_warp (min_warp p) (warp_step p) (Z.of_nat i))).
  assert (Hend : I (length (py_range n)) r s1).
  { refine (for_loop_indexed I _ _ tt r _ s1 _ _ Hrun).
    - intros j [] c sk acc' sk' Hc (lv & -> & Hdim & Hdef & HAk & Hwk & Hgrid) Hstep.
      apply lookup_py_range in Hc. destruct Hc as [-> Hj].
      apply base_transform_run in Hstep. simpl in Hstep.
      destruct Hstep as (lv' & Hcmt & ->).
      destruct (compute_mapping_transform_written _ _ _ _ _ _ _ Hcmt) as (_ & A & ->).
      match type of Hcmt with _ = Ok ?lv' => exists lv' end.
      split; [|simpl; rewrite ?length_insert, ?Nat2Z.id; repeat split; try assumption].
      + f_equal. rewrite <- app_assoc. f_equal.
        rewrite (take_S_r _ _ (Z.of_nat j)).
        * unfold sweep_calls. rewrite map_app, concat_app. simpl. reflexivity.
        * unfold py_range. rewrite list_lookup_fmap, lookup_seq_lt by lia. reflexivity.
      + intros i Hi. destruct (decide (i = j)) as [->|Hne].
        * rewrite list_lookup_insert_eq by lia. reflexivity.
        * rewrite list_lookup_insert_ne by lia. apply Hgrid. lia.
    - exists lv0. simpl. rewrite app_nil_r. repeat split; try assumption. lia. }
  destruct Hend as (lv & -> & Hdim & Hdef & HAk & Hwk & Hgrid).
  rewrite length_py_range in Hgrid. rewrite firstn_all2 by (rewrite length_py_range; lia).
  exists lv. repeat split; assumption.
Qed.

Lemma em_pass_run (orig_features : FeaturesCollection)
    (utt2speak : option (dict string)) (u u' : Ubm) (i : Z) (s s' : pstate) :
  em_pass orig_features utt2speak u i s = (Ok u', s') ->
  exists adapted tw,
    transform_features (processor s) orig_features utt2speak = Ok adapted /\
    u' = ubm_estimate u (ubm_accumulate u adapted) /\
    estimate (processor s) u' orig_features (gaussian_selection_to_post u' adapted)
      utt2speak = Ok tw /\
    s' = {| processor := with_assignment tw.1 tw.2 (processor s);
            calls := calls s ++ [call_ubm_accumulate u adapted;
                                 call_ubm_estimate u (ubm_accumulate u adapted);
                                 call_gaussian_selection_to_post u' adapted;
                                 call_estimate u' orig_features
                                   (gaussian_selection_to_post u' adapted)] |}.
Proof.
  intros Hrun. unfold em_pass in Hrun. invert_run Hrun.
  cbv [ret] in Hrun. injection Hrun as <- <-.
  match goal with
  | Hre : reestimate _ _ _ _ _ = (Ok ?x, _) |- _ =>
      destruct x; apply reestimate_ok in Hre;
      destruct Hre as (tw & Hest & Hproc & Hcalls)
  end.
  simpl in *. eexists _, tw. split; [eassumption|]. split; [reflexivity|].
  split; [exact Hest|].
  match goal with |- ?sk = _ => destruct sk as [pk ck] end.
  simpl in *. subst pk ck. rewrite <- !app_assoc. reflexivity.
Qed.

Lemma em_chain_snoc (p : VtlnProcessor) (orig_features : FeaturesCollection)
    (utt2speak : option (dict string)) (u : Ubm) (tw : dict mat * dict Qc)
    (passes : list (list call)) (uk : Ubm) (twk : dict mat * dict Qc)
    (pass : list call) (u' : Ubm) (tw' : dict mat * dict Qc) :
  em_chain p orig_features utt2speak u tw passes uk twk ->
  em_chain p orig_features utt2speak uk twk [pass] u' tw' ->
  em_chain p orig_features utt2speak u tw (passes ++ [pass]) u' tw'.
Proof.
  revert u tw. induction passes as [|p0 passes IH]; intros u tw Hps Hp; simpl in Hps.
  - destruct Hps as [-> ->]. exact Hp.
  - destruct Hps as (adapted & tw1 & Hadapt & Hest & Hpass & Hps).
    simpl. exists adapted, tw1. repeat split; try assumption. apply IH; assumption.
Qed.

Lemma em_chain_passes (p : VtlnProcessor) (orig_features : FeaturesCollection)
    (utt2speak : option (dict string)) (u : Ubm) (tw : dict mat * dict Qc)
    (passes : list (list call)) (u_end : Ubm) (tw_end : dict mat * dict Qc) :
  em_chain p orig_features utt2speak u tw passes u_end tw_end ->
  em_passes orig_features utt2speak u passes.
Proof.
  revert u tw. induction passes as [|pass passes IH]; intros u tw Hps; simpl; [exact I|].
  destruct Hps as (adapted & tw1 & Hadapt & Hest & -> & Hps). split.
  - eexists _, adapted. split; [exact Hadapt | reflexivity].
  - simpl. eapply IH, Hps.
Qed.

(** The tables at the end of a chain are those returned by a call of
    [estimate] made on the original features with the model of [p]. *)
Lemma em_chain_last (p self0 : VtlnProcessor) (orig_features : FeaturesCollection)
    (utt2speak : option (dict string)) (u u0 : Ubm) (post0 : Posteriors)
    (tw : dict mat * dict Qc) (passes : list (list call)) (u_end : Ubm)
    (tw_end : dict mat * dict Qc) :
  lvtln self0 = lvtln p ->
  estimate self0 u0 orig_features post0 utt2speak = Ok tw ->
  em_chain p orig_features utt2speak u tw passes u_end tw_end ->
  exists self1 u1 post1,
    lvtln self1 = lvtln p /\ estimate self1 u1 orig_features post1 utt2speak = Ok tw_end.
Proof.
  revert self0 u u0 post0 tw. induction passes as [|pass passes IH];
    intros self0 u u0 post0 tw Hlv Hest Hps; simpl in Hps.
  - destruct Hps as [_ ->]. eauto.
  - destruct Hps as (adapted & tw1 & _ & Hest1 & _ & Hps).
    eapply IH; [|exact Hest1|exact Hps]. reflexivity.
Qed.

(** The EM stage runs its passes as a chain. *)
Lemma em_refinement_run (orig_features : FeaturesCollection)
    (utt2speak : option (dict string)) (u u' : Ubm) (p : VtlnProcessor)
    (tw0 : dict mat * dict Qc) (cs : list call) (s' : pstate) :
  em_refinement orig_features utt2speak u
    {| processor := with_assignment tw0.1 tw0.2 p; calls := cs |} = (Ok u', s') ->
  exists tw passes,
    length passes = Z.to_nat (num_iters p) /\
    em_chain p orig_features utt2speak u tw0 passes u' tw /\
    s' = {| processor := with_assignment tw.1 tw.2 p; calls := cs ++ concat passes |}.
Proof.
  intros Hrun. unfold em_refinement in Hrun.
  apply bind_ok in Hrun. destruct Hrun as (self & s1 & Hself & Hrun).
  cbv [get_self] in Hself. injection Hself as <- <-. simpl in Hrun.
  rewrite <- length_py_range.
  change (length (py_range (num_iters p))) with (0 + length (py_range (num_iters p)))%nat.
  refine (for_loop_counted
            (fun (j : nat) (uk : Ubm) sk =>
               exists tw passes,
                 length passes = j /\
                 em_chain p orig_features utt2speak u tw0 passes uk tw /\
                 sk = {| processor := with_assignment tw.1 tw.2 p;
                         calls := cs ++ concat passes |})
            _ _ 0 u u' _ s' _ _ Hrun).
  - intros j uk x sk uk' sk' (tw & passes & Hlen & Hps & ->) Hpass.
    apply em_pass_run in Hpass.
    destruct Hpass as (adapted & tw' & Hadapt & -> & Hest' & ->).
    simpl in *.
    exists tw',
      (passes ++ [[call_ubm_accumulate uk adapted;
                   call_ubm_estimate uk (ubm_accumulate uk adapted);
                   call_gaussian_selection_to_post
                     (ubm_estimate uk (ubm_accumulate uk adapted)) adapted;
                   call_estimate (ubm_estimate uk (ubm_accumulate uk adapted))
                     orig_features
                     (gaussian_selection_to_post
                        (ubm_estimate uk (ubm_accumulate uk adapted)) adapted)]]).
    split; [rewrite length_app; simpl; lia|].
    split.
    + eapply em_chain_snoc; [exact Hps|]. simpl. exists adapted, tw'. auto.
    + rewrite concat_app, <- app_assoc. simpl. reflexivity.
  - exists tw0, []. simpl. rewrite app_nil_r. auto.
Qed.

Lemma broadcast_run (utt2speak : option (dict string)) (s s' : pstate) (r : unit) :
  broadcast_to_utterances utt2speak s = (Ok r, s') ->
  if by_speaker (processor s) then
    exists u2s tr wp tr' wp',
      utt2speak = Some u2s /\
      transforms (processor s) = Some tr /\ warps (processor s) = Some wp /\
      broadcast tr u2s = Ok tr' /\ broadcast wp u2s = Ok wp' /\
      s' = {| processor := with_assignment tr' wp' (processor s); calls := calls s |}
  else s' = s.
Proof.
  intros Hrun. unfold broadcast_to_utterances in Hrun.
  apply bind_ok in Hrun. destruct Hrun as (self & s0 & Hself & Hrun).
  cbv [get_self] in Hself. injection Hself as <- <-.
  destruct (by_speaker (processor s)) eqn:Hby.
  - invert_run Hrun. cbv [put_self] in Hrun. injection Hrun as _ <-.
    destruct utt2speak as [u2s|]; [|discriminate].
    destruct (transforms (processor s)) as [tr|]; [|discriminate].
    destruct (warps (processor s)) as [wp|]; [|discriminate].
    repeat match goal with Heq : Ok _ = Ok _ |- _ => injection Heq as <- end.
    exists u2s, tr, wp. eauto 10.
  - cbv [ret] in Hrun. injection Hrun as _ <-. reflexivity.
Qed.


Lemma report_run (utterances : Utterances) (group_by : string) (s s' : pstate)
    (r : dict Qc) :
  report utterances group_by s = (Ok r, s') ->
  s' = s /\
  exists wp,
    warps (processor s) = Some wp /\
    if bool_decide (group_by = "utterance"%string) then r = wp
    else exists items,
           comprehension (speaker_warp wp) (by_speaker_names utterances) = Ok items /\
           r = dict_of_items items.
Proof.
  intros Hrun. unfold report in Hrun. invert_run Hrun.
  destruct (warps (processor s)) as [wp|]; [|discriminate]. injection Hrun0 as <-.
  destruct (bool_decide (group_by = "utterance"%string)).
  - cbv [ret] in Hrun. injection Hrun as <- <-. eauto.
  - invert_run Hrun. cbv [ret] in Hrun. injection Hrun as <- <-.
    split; [reflexivity|]. exists wp. split; [reflexivity|]. eexists. split; [|reflexivity].
    eassumption.
Qed.

End Stages.

(** A run of [process] that returns, stage by stage: the UBM acquired, the
    model created and swept, the calls made, the last call of [estimate] with
    the tables it returned, the broadcast, and the value returned. *)
Lemma process_run `{Collaborators} `{Numerics} (utterances : Utterances)
    (given_ubm : option Ubm) (group_by : string) (njobs : Z) (s s' : pstate)
    (r : dict Qc) :
  process utterances given_ubm group_by njobs s = (Ok r, s') ->
  let p := adopted given_ubm (processor s) in
  let u := acquired utterances given_ubm (processor s) in
  let orig := original_features p utterances u in
  let u0 := gaussian_selection u orig in
  exists utt2speak gmm n d lv self1 u1 post1 tw tr wp passes tw0 u_end,
    validate (processor s) utterances group_by = Ok utt2speak /\
    (forall g, given_ubm = Some g -> is_Some (ubm_gmm g)) /\
    ubm_gmm u = Some gmm /\
    num_classes_of (min_warp p) (max_warp p) (warp_step p) = Ok n /\
    default_class_of (min_warp p) (warp_step p) = Ok d /\
    (0 <= d < n)%Z /\
    (lv_dim lv = gmm_dim gmm /\ lv_default_class lv = d /\
     length (lv_A lv) = Z.to_nat n /\ length (lv_warps lv) = Z.to_nat n /\
     forall i, (i < Z.to_nat n)%nat ->
       lv_warps lv !! i = Some (class_warp (min_warp p) (warp_step p) (Z.of_nat i))) /\
    lvtln self1 = Some lv /\
    estimate self1 u1 orig post1 utt2speak = Ok tw /\
    (if by_speaker p
     then exists u2s, utt2speak = Some u2s /\
                      broadcast tw.1 u2s = Ok tr /\ broadcast tw.2 u2s = Ok wp
     else tr = tw.1 /\ wp = tw.2) /\
    s' = {| processor := with_assignment tr wp (with_lvtln (Some lv) p);
            calls :=
              calls s ++ ubm_calls given_ubm (processor s)
              ++ [call_LinearVtln_new (gmm_dim gmm) n d;
                  call_extract_features; call_extract_features]
              ++ sweep_calls (min_warp p) (warp_step p) (py_range n)
              ++ [call_gaussian_selection u orig;
                  call_gaussian_selection_to_post u0 orig;
                  call_estimate u0 orig (gaussian_selection_to_post u0 orig)]
              ++ concat passes |} /\
    length passes = Z.to_nat (num_iters p) /\
    em_passes orig utt2speak u0 passes /\
    estimate (with_lvtln (Some lv) p) u0 orig (gaussian_selection_to_post u0 orig)
      utt2speak = Ok tw0 /\
    em_chain (with_lvtln (Some lv) p) orig utt2speak u0 tw0 passes u_end tw /\
    (if bool_decide (group_by = "utterance"%string) then r = wp
     else exists items,
            comprehension (speaker_warp wp) (by_speaker_names utterances) = Ok items /\
            r = dict_of_items items).
Proof.
  intros Hrun p u orig u0. unfold process in Hrun. invert_run Hrun.
  apply report_run in Hrun. destruct Hrun as (-> & wp & Hwp & Hreport).
  apply acquire_ubm_run in Hrun1. destruct Hrun1 as (Hu & Hgiven & ->).
  apply initialize_lvtln_run in Hrun2. simpl in Hrun2.
  destruct Hrun2 as (gmm & d & Hgmm & Hn & Hd & Hrange & ->). simpl in *.
  rename a into utt2speak, a1 into n. subst a0.
  fold p in Hn, Hd, Hrun3, Hrun4, Hrun5. fold u in Hgmm, Hrun3, Hrun5.
  change (with_cmvn None (with_lvtln ?l p)) with (with_lvtln l (with_cmvn None p))
    in Hrun3.
  apply sweep_run in Hrun3; [|simpl; apply length_replicate ..].
  destruct Hrun3 as (lv & -> & Hdim & Hdef & HA & Hw & Hgrid). simpl in *.
  assert (Hs3 : s3 = {| processor := with_lvtln (Some lv) p; calls := calls s3 |} /\
                calls s3 = ((((calls s ++ ubm_calls given_ubm (processor s)) ++
                               [call_LinearVtln_new (gmm_dim gmm) n d]) ++
                              [call_extract_features]) ++ [call_extract_features]) ++
                           sweep_calls (min_warp p) (warp_step p) (py_range n)).
  { destruct (sliding_window_cmvn p) as [cfg|] eqn:Hcfg.
    - cbv [put_self] in Hrun4. injection Hrun4 as _ <-. simpl. split; [|reflexivity].
      f_equal. unfold with_lvtln, with_cmvn. simpl. rewrite Hcfg. reflexivity.
    - cbv [ret] in Hrun4. injection Hrun4 as _ <-. simpl. split; [|reflexivity].
      f_equal. unfold with_lvtln, with_cmvn. simpl. rewrite Hcfg. reflexivity. }
  destruct Hs3 as [Hs3 Hcalls3]. clear Hrun4.
  destruct a4.
  match goal with
  | Hre : reestimate _ _ _ _ _ = _ |- _ =>
      apply reestimate_ok in Hre; destruct Hre as (tw0 & Hest0 & Hproc4 & Hcalls4)
  end.
  simpl in Hest0, Hproc4, Hcalls4.
  destruct s4 as [p4 c4]. simpl in Hproc4, Hcalls4. subst p4 c4.
  rewrite Hs3 in Hrun6. simpl in Hrun6.
  change (subsampled _ (trim (apply_cmvn _ _) _)) with orig in Hest0, Hrun6.
  change (gaussian_selection u orig) with u0 in Hest0, Hrun6.
  rewrite Hs3 in Hest0. simpl in Hest0.
  apply em_refinement_run in Hrun6.
  destruct Hrun6 as (tw & passes & Hlen & Hchain & ->).
  destruct (em_chain_last _ _ _ _ _ _ _ _ _ _ _ eq_refl Hest0 Hchain)
    as (self1 & u1 & post1 & Hlv1 & Hest1).
  pose proof (em_chain_passes _ _ _ _ _ _ _ _ Hchain) as Hpasses.
  apply broadcast_run in Hrun7. simpl in Hrun7.
  assert (Hfinal : exists tr wp',
             (if by_speaker p
              then exists u2s, utt2speak = Some u2s /\
                               broadcast tw.1 u2s = Ok tr /\ broadcast tw.2 u2s = Ok wp'
              else tr = tw.1 /\ wp' = tw.2) /\
             s6 = {| processor := with_assignment tr wp' (with_lvtln (Some lv) p);
                     calls := (((calls s3 ++ [call_gaussian_selection u orig]) ++
                                [call_gaussian_selection_to_post u0 orig]) ++
                               [call_estimate u0 orig
                                  (gaussian_selection_to_post u0 orig)]) ++
                              concat passes |}).
  { destruct (by_speaker p).
    - destruct Hrun7 as (u2s & tr0 & wp0 & tr' & wp' & -> & [= <-] & [= <-] & Htr & Hwp'
                         & ->).
      exists tr', wp'. split; [eauto|reflexivity].
    - subst s6. exists tw.1, tw.2. split; [auto|reflexivity]. }
  destruct Hfinal as (tr & wp' & Hbroadcast & ->). simpl in Hwp. injection Hwp as ->.
  exists utt2speak, gmm, n, d, lv, self1, u1, post1, tw, tr, wp, passes, tw0, a5.
  repeat split; try assumption; try lia.
  f_equal. rewrite Hcalls3, <- !app_assoc. reflexivity.
Qed.

(** ** [process]: the warps are on the grid *)

Section Runs.
Context `{Collaborators} `{Numerics}.

Lemma adopted_keeps (given : option Ubm) (self : VtlnProcessor) :
  with_ubm (ubm (adopted given self)) self = adopted given self.
Proof. destruct given; destruct self; reflexivity. Qed.

Lemma adopted_grid (given : option Ubm) (self : VtlnProcessor) :
  min_warp (adopted given self) = min_warp self /\
  max_warp (adopted given self) = max_warp self /\
  warp_step (adopted given self) = warp_step self /\
  by_speaker (adopted given self) = by_speaker self /\
  num_iters (adopted given self) = num_iters self.
Proof. destruct given; repeat split. Qed.

Lemma swept_warp (lv : LinearVtln) (n : Z) (min_warp warp_step w : Qc) :
  length (lv_A lv) = Z.to_nat n ->
  (forall i, (i < Z.to_nat n)%nat ->
     lv_warps lv !! i = Some (class_warp min_warp warp_step (Z.of_nat i))) ->
  warp_of_model lv w -> on_grid min_warp warp_step n w.
Proof.
  intros HA Hgrid (c & Hc & Hw). unfold lv_num_classes in Hc. rewrite HA in Hc.
  exists c. split; [lia|].
  unfold get_warp, class_in_range, lv_num_classes in Hw. rewrite HA in Hw.
  rewrite bool_decide_eq_true_2 in Hw by exact Hc.
  rewrite Hgrid in Hw by lia. injection Hw as <-. rewrite Z2Nat.id by lia. reflexivity.
Qed.

End Runs.

Lemma dict_index_In {V} (d : dict V) (k : string) (v : V) :
  dict_index d k = Ok v -> In (k, v) d.
Proof.
  unfold dict_index. destruct (dict_get k d) as [v'|] eqn:Hg; [|discriminate].
  intros [= <-]. apply dict_get_In, Hg.
Qed.

Lemma dict_set_In {V} (k k' : string) (v v' : V) (d : dict V) :
  In (k, v) (dict_set k' v' d) -> (k, v) = (k', v') \/ In (k, v) d.
Proof.
  induction d as [|[k1 v1] d IH]; simpl.
  - intros [Heq|[]]. left. symmetry. exact Heq.
  - destruct (decide (k1 = k')); simpl; intros [Heq|Hin]; auto.
    destruct (IH Hin); auto.
Qed.

Lemma dict_of_items_In {V} (items : list (string * V)) (k : string) (v : V) :
  In (k, v) (dict_of_items items) -> In (k, v) items.
Proof.
  unfold dict_of_items.
  assert (Hgen : forall d0 : dict V,
             In (k, v) (fold_left (fun d kv => dict_set kv.1 kv.2 d) items d0) ->
             In (k, v) d0 \/ In (k, v) items).
  { induction items as [|[k1 v1] items IH]; intros d0 Hin; simpl in *; [auto|].
    destruct (IH _ Hin) as [Hset|Hrest]; [|auto].
    apply dict_set_In in Hset. destruct Hset as [Heq|Hd0]; [|auto].
    right. left. symmetry. exact Heq. }
  intros Hin. destruct (Hgen [] Hin) as [[]|Hitems]. exact Hitems.
Qed.

Lemma comprehension_In {A B} (f : A -> result B) (xs : list A) (ys : list B) (y : B) :
  comprehension f xs = Ok ys -> In y ys -> exists x, In x xs /\ f x = Ok y.
Proof.
  revert ys. induction xs as [|x xs IH]; intros ys Hc Hin; simpl in Hc.
  - injection Hc as <-. destruct Hin.
  - apply rbind_ok in Hc. destruct Hc as (y0 & Hy0 & Hc).
    apply rbind_ok in Hc. destruct Hc as (ys' & Hys & Hc). injection Hc as <-.
    destruct Hin as [<-|Hin].
    + exists x. split; [left; reflexivity | exact Hy0].
    + destruct (IH ys' Hys Hin) as (x' & Hx' & Hfx). exists x'.
      split; [right; exact Hx' | exact Hfx].
Qed.

(** Every value of a broadcast table is a value of the table it was read
    from. *)
Lemma broadcast_In {V} (table : dict V) (utt2speak : dict string) (table' : dict V)
    (utt : string) (v : V) :
  broadcast table utt2speak = Ok table' -> In (utt, v) table' ->
  exists spk, In (utt, spk) utt2speak /\ In (spk, v) table.
Proof.
  unfold broadcast. intros Hb Hin.
  apply rbind_ok in Hb. destruct Hb as (items & Hitems & Hb). injection Hb as <-.
  apply dict_of_items_In in Hin.
  destruct (comprehension_In _ _ _ _ Hitems Hin) as ([utt' spk] & Hin' & Hitem).
  simpl in Hitem. apply rbind_ok in Hitem. destruct Hitem as (v' & Hv' & Hitem).
  injection Hitem as -> ->. exists spk. split; [exact Hin'|].
  apply dict_index_In, Hv'.
Qed.

Lemma speaker_warp_ok (wp : dict Qc) (item : string * list string) (out : string * Qc) :
  speaker_warp wp item = Ok out ->
  out.1 = item.1 /\
  exists first rest, item.2 = first :: rest /\ dict_get first wp = Some out.2.
Proof.
  unfold speaker_warp. intros Hs.
  apply rbind_ok in Hs. destruct Hs as (first & Hfirst & Hs).
  apply rbind_ok in Hs. destruct Hs as (w & Hw & Hs). injection Hs as <-.
  split; [reflexivity|]. destruct item.2 as [|name rest]; [discriminate|].
  injection Hfirst as ->. exists first, rest. split; [reflexivity|].
  simpl. unfold dict_index in Hw. destruct (dict_get first wp); congruence.
Qed.

(** The warps a returning run has stored and returned are on the grid. *)
Lemma process_grid `{Collaborators} `{Numerics} (utterances : Utterances)
    (given_ubm : option Ubm) (group_by : string) (njobs : Z) (s s' : pstate)
    (r : dict Qc) :
  process utterances given_ubm group_by njobs s = (Ok r, s') ->
  exists n stored,
    min_warp (processor s) <= max_warp (processor s) /\
    num_classes_of (min_warp (processor s)) (max_warp (processor s))
      (warp_step (processor s)) = Ok n /\
    warps (processor s') = Some stored /\
    Forall (fun kv => on_grid (min_warp (processor s)) (warp_step (processor s)) n kv.2)
           stored /\
    Forall (fun kv => on_grid (min_warp (processor s)) (warp_step (processor s)) n kv.2) r.
Proof.
  intros Hrun. destruct (process_run _ _ _ _ _ _ _ Hrun)
    as (utt2speak & gmm & n & d & lv & self1 & u1 & post1 & tw & tr & wp & passes & tw0 & u_end
        & Hv & _ & _ & Hn & _ & _ & (_ & _ & HA & _ & Hgrid) & Hlv & Hest & Hbroadcast
        & -> & _ & _ & _ & _ & Hreport).
  destruct (adopted_grid given_ubm (processor s)) as (Hmin & Hmax & Hstep & Hby & _).
  rewrite Hmin, Hmax, Hstep in Hn. rewrite Hmin, Hstep in Hgrid.
  set (G := on_grid (min_warp (processor s)) (warp_step (processor s)) n) in *.
  assert (Htw : Forall (fun kv => G kv.2) tw.2).
  { destruct (estimate_returns _ _ _ _ _ _ Hest) as (lv' & units & Hlv' & _ & _ & _ & Hvals).
    rewrite Hlv in Hlv'. injection Hlv' as <-.
    eapply Forall_impl; [exact Hvals|]. intros kv Hkv. eapply swept_warp; eassumption. }
  assert (Hstored : Forall (fun kv => G kv.2) wp).
  { destruct (by_speaker (adopted given_ubm (processor s))).
    - destruct Hbroadcast as (u2s & _ & _ & Hwp). apply Forall_forall. intros [utt w] Hin.
      apply list_elem_of_In in Hin.
      destruct (broadcast_In _ _ _ _ _ Hwp Hin) as (spk & _ & Hspk).
      rewrite Forall_forall in Htw. apply list_elem_of_In in Hspk. exact (Htw _ Hspk).
    - destruct Hbroadcast as [_ ->]. exact Htw. }
  exists n, wp. split.
  { unfold validate in Hv.
    repeat match type of Hv with
           | (if ?c then _ else _) = _ => destruct c eqn:?; try discriminate
           end;
      match goal with
      | Hlt : Qc_ltb _ _ = false |- _ =>
          apply Qcnot_lt_le; intros Hc; apply Qc_ltb_spec in Hc; congruence
      end. }
  split; [exact Hn|]. split; [reflexivity|]. split; [exact Hstored|].
  destruct (bool_decide (group_by = "utterance"%string)).
  - subst r. exact Hstored.
  - destruct Hreport as (items & Hitems & ->). apply Forall_forall. intros [spk w] Hin.
    apply list_elem_of_In, dict_of_items_In in Hin.
    destruct (comprehension_In _ _ _ _ Hitems Hin) as (item & _ & Hitem).
    apply speaker_warp_ok in Hitem. destruct Hitem as (_ & first & rest & _ & Hfirst).
    rewrite Forall_forall in Hstored. apply dict_get_In, list_elem_of_In in Hfirst.
    exact (Hstored _ Hfirst).
Qed.


(** The model that a returning run leaves has the classes of the grid. *)
Lemma process_model_classes `{Collaborators} `{Numerics} (utterances : Utterances)
    (given_ubm : option Ubm) (group_by : string) (njobs : Z) (s s' : pstate)
    (r : dict Qc) :
  process utterances given_ubm group_by njobs s = (Ok r, s') ->
  exists lv,
    lvtln (processor s') = Some lv /\
    num_classes_of (min_warp (processor s)) (max_warp (processor s))
      (warp_step (processor s)) = Ok (lv_num_classes lv) /\
    default_class_of (min_warp (processor s)) (warp_step (processor s))
    = Ok (lv_default_class lv).
Proof.
  intros Hrun. destruct (process_run _ _ _ _ _ _ _ Hrun)
    as (utt2speak & gmm & n & d & lv & self1 & u1 & post1 & tw & tr & wp & passes & tw0 & u_end
        & _ & _ & _ & Hn & Hd & Hrange & (_ & Hdef & HA & _) & _ & _ & _ & -> & _).
  destruct (adopted_grid given_ubm (processor s)) as (Hmin & Hmax & Hstep & _).
  rewrite Hmin, Hmax, Hstep in Hn. rewrite Hmin, Hstep in Hd.
  exists lv. split; [reflexivity|].
  unfold lv_num_classes. rewrite HA, Z2Nat.id by lia. rewrite Hdef. auto.
Qed.

(** X9.  Every warp that [process] stores in [self.warps] and every warp it
    returns is the warp of a class of the model that the run has built:
    [min_warp + c * warp_step] for a class [0 <= c < num_classes], where
    [num_classes] is the number of classes of that model. *)
Theorem process_warps_on_grid `{Collaborators} `{Numerics} (utterances : Utterances)
    (given_ubm : option Ubm) (group_by : string) (njobs : Z) (s s' : pstate)
    (r : dict Qc) :
  process utterances given_ubm group_by njobs s = (Ok r, s') ->
  exists lv stored,
    lvtln (processor s') = Some lv /\
    warps (processor s') = Some stored /\
    (forall key w, dict_get key stored = Some w ->
       on_grid (min_warp (processor s)) (warp_step (processor s)) (lv_num_classes lv) w) /\
    (forall key w, dict_get key r = Some w ->
       on_grid (min_warp (processor s)) (warp_step (processor s)) (lv_num_classes lv) w).
Proof.
  intros Hrun.
  destruct (process_grid _ _ _ _ _ _ _ Hrun) as (n & stored & _ & Hn & Hw & Hstored & Hr).
  destruct (process_model_classes _ _ _ _ _ _ _ Hrun) as (lv & Hlv & Hn' & _).
  rewrite Hn in Hn'. injection Hn' as ->.
  exists lv, stored. repeat split; try assumption.
  - intros key w Hget. apply dict_get_In, list_elem_of_In in Hget.
    rewrite Forall_forall in Hstored. exact (Hstored _ Hget).
  - intros key w Hget. apply dict_get_In, list_elem_of_In in Hget.
    rewrite Forall_forall in Hr. exact (Hr _ Hget).
Qed.

Lemma on_grid_bounds (min_warp max_warp warp_step : Qc) (n : Z) (w : Qc) :
  min_warp <= max_warp -> 0 < warp_step ->
  num_classes_of min_warp max_warp warp_step = Ok n ->
  on_grid min_warp warp_step n w ->
  min_warp <= w /\ w <= max_warp + frac 1 2 * warp_step.
Proof.
  intros Hmm Hs Hn (c & Hc & ->). unfold num_classes_of in Hn.
  rewrite py_div_ok in Hn by (apply Qclt_not_eq, Hs). simpl in Hn. injection Hn as Hn.
  assert (Hx : 0 <= (max_warp - min_warp) / warp_step).
  { apply Qcdiv_nonneg; [|exact Hs]. to_Q. lra. }
  assert (Hx' : (max_warp - min_warp) / warp_step * warp_step = max_warp - min_warp)
    by (field; apply Qclt_not_eq, Hs).
  set (x := (max_warp - min_warp) / warp_step) in *. clearbody x.
  destruct (py_int_bounds (frac 3 2 + x)) as [Hn1 _]; [to_Q; lra|]. rewrite Hn in Hn1.
  assert (Hc0 : of_Z 0 <= of_Z c) by (apply of_Z_le; lia).
  assert (Hc1 : of_Z (c + 1) <= of_Z n) by (apply of_Z_le; lia).
  rewrite of_Z_succ in Hc1.
  unfold class_warp.
  assert (Hlo : 0 * warp_step <= of_Z c * warp_step).
  { apply Qcmult_le_compat_r; [|apply Qclt_le_weak, Hs]. exact Hc0. }
  assert (Hhi : of_Z c * warp_step <= (frac 1 2 + x) * warp_step).
  { apply Qcmult_le_compat_r; [|apply Qclt_le_weak, Hs]. to_Q. lra. }
  replace ((frac 1 2 + x) * warp_step) with (frac 1 2 * warp_step + (max_warp - min_warp))
    in Hhi by (rewrite <- Hx'; ring).
  replace (0 * warp_step) with 0 in Hlo by ring.
  set (y := of_Z c * warp_step) in *. set (h := frac 1 2 * warp_step) in *.
  clearbody y h. split; to_Q; lra.
Qed.

(** X10.  With a positive step, every warp that [process] returns lies between
    [min_warp] and [max_warp + warp_step / 2]: the last class of the grid may
    lie above [max_warp], by at most half a step. *)
Theorem process_warps_bounded `{Collaborators} `{Numerics} (utterances : Utterances)
    (given_ubm : option Ubm) (group_by : string) (njobs : Z) (s s' : pstate)
    (r : dict Qc) (key : string) (w : Qc) :
  process utterances given_ubm group_by njobs s = (Ok r, s') ->
  0 < warp_step (processor s) ->
  dict_get key r = Some w ->
  min_warp (processor s) <= w /\
  w <= max_warp (processor s) + frac 1 2 * warp_step (processor s).
Proof.
  intros Hrun Hs Hget.
  destruct (process_grid _ _ _ _ _ _ _ Hrun) as (n & stored & Hmm & Hn & _ & _ & Hr).
  apply dict_get_In, list_elem_of_In in Hget. rewrite Forall_forall in Hr.
  eapply on_grid_bounds; [exact Hmm | exact Hs | exact Hn | exact (Hr _ Hget)].
Qed.

(** ** [process]: the calls made and the processor left *)

Lemma original_features_adopted `{Collaborators} (given : option Ubm)
    (self : VtlnProcessor) (utterances : Utterances) (u : Ubm) :
  original_features (adopted given self) utterances u
  = original_features self utterances u.
Proof. destruct given; reflexivity. Qed.


(** X11.  The calls of a run of [process] that returns, in order: the training
    of a UBM from the processor's configuration (only when none is given),
    the creation of the model, two extractions of the unwarped features, for
    every class [c = 0, ..., num_classes - 1] of the model in increasing
    order the extraction of the features warped by
    [min_warp + c * warp_step] and the fit of the base transform of class [c]
    with that warp, the Gaussian selection and the posteriors on the original
    features, the initial call of [estimate], and then the [num_iters]
    passes of the EM stage.  The model is created with the number of classes
    and the default class that it has at the end of the run. *)
Theorem process_calls `{Collaborators} `{Numerics} (utterances : Utterances)
    (given_ubm : option Ubm) (group_by : string) (njobs : Z) (s s' : pstate)
    (r : dict Qc) :
  process utterances given_ubm group_by njobs s = (Ok r, s') ->
  let p := processor s in
  let u := acquired utterances given_ubm p in
  let orig := original_features p utterances u in
  let u0 := gaussian_selection u orig in
  exists gmm lv utt2speak passes,
    ubm_gmm u = Some gmm /\
    lvtln (processor s') = Some lv /\
    validate p utterances group_by = Ok utt2speak /\
    calls s' =
      calls s ++ ubm_calls given_ubm p
      ++ [call_LinearVtln_new (gmm_dim gmm) (lv_num_classes lv) (lv_default_class lv);
          call_extract_features; call_extract_features]
      ++ sweep_calls (min_warp p) (warp_step p) (py_range (lv_num_classes lv))
      ++ [call_gaussian_selection u orig;
          call_gaussian_selection_to_post u0 orig;
          call_estimate u0 orig (gaussian_selection_to_post u0 orig)]
      ++ concat passes /\
    length passes = Z.to_nat (num_iters p) /\
    em_passes orig utt2speak u0 passes.
Proof.
  intros Hrun p u orig u0.
  destruct (process_run _ _ _ _ _ _ _ Hrun)
    as (utt2speak & gmm & n & d & lv & self1 & u1 & post1 & tw & tr & wp & passes & tw0 & u_end
        & Hv & _ & Hgmm & _ & _ & Hrange & (_ & Hdef & HA & _) & _ & _ & _ & -> & Hlen
        & Hpasses & _).
  destruct (adopted_grid given_ubm (processor s)) as (Hmin & _ & Hstep & _ & Hiters).
  rewrite Hiters in Hlen. rewrite original_features_adopted in Hpasses.
  assert (Hn : lv_num_classes lv = n) by (unfold lv_num_classes; rewrite HA; lia).
  exists gmm, lv, utt2speak, passes. simpl.
  rewrite original_features_adopted, Hmin, Hstep, Hn, Hdef. auto 10.
Qed.

Lemma sweep_calls_quiet `{Carriers} (min_warp warp_step : Qc) (classes : list Z) :
  Forall (fun c => is_call_ubm_process c = false) (sweep_calls min_warp warp_step classes).
Proof.
  unfold sweep_calls. induction classes as [|c classes IH]; simpl; repeat constructor.
  exact IH.
Qed.

Lemma em_passes_quiet `{Collaborators} (orig_features : FeaturesCollection)
    (utt2speak : option (dict string)) (u : Ubm) (passes : list (list call)) :
  em_passes orig_features utt2speak u passes ->
  Forall (fun c => is_call_ubm_process c = false) (concat passes).
Proof.
  revert u. induction passes as [|pass passes IH]; intros u Hps; simpl; [constructor|].
  destruct Hps as [(self & adapted & _ & ->) Hps]. simpl in *.
  repeat constructor. eapply IH, Hps.
Qed.

(** X12.  [process] with a UBM given: if the UBM is not trained and the checks
    at the head pass, it raises [ValueError] and leaves the processor as it
    was; if it returns, the UBM was trained, its parameters have replaced
    [self.ubm], and no UBM was trained during the run. *)
Theorem process_given_ubm `{Collaborators} `{Numerics} (utterances : Utterances)
    (g : Ubm) (group_by : string) (njobs : Z) (s s' : pstate) (r : dict Qc) :
  (ubm_gmm g = None ->
   is_ok (validate (processor s) utterances group_by) = true ->
   process utterances (Some g) group_by njobs s
   = (Raise (ValueError "Given UBM-GMM has not been trained"), s)) /\
  (process utterances (Some g) group_by njobs s = (Ok r, s') ->
   is_Some (ubm_gmm g) /\
   ubm (processor s') = ubm_get_params g /\
   exists cs, calls s' = calls s ++ cs /\
              Forall (fun c => is_call_ubm_process c = false) cs).
Proof.
  split.
  - intros Hg Hv. unfold process, bind, get_self, lift.
    destruct (validate (processor s) utterances group_by) as [utt2speak|e];
      [|discriminate].
    unfold acquire_ubm, bind, get_self. rewrite Hg. reflexivity.
  - intros Hrun. destruct (process_run _ _ _ _ _ _ _ Hrun)
      as (utt2speak & gmm & n & d & lv & self1 & u1 & post1 & tw & tr & wp & passes & tw0 & u_end
          & _ & Hgiven & _ & _ & _ & _ & _ & _ & _ & _ & -> & _ & Hpasses & _).
    split; [apply Hgiven; reflexivity|]. split; [reflexivity|]. simpl.
    eexists. split; [reflexivity|].
    repeat (apply Forall_cons; split; [reflexivity|]).
    apply Forall_app. split; [apply sweep_calls_quiet|].
    repeat (apply Forall_cons; split; [reflexivity|]).
    eapply em_passes_quiet, Hpasses.
Qed.

(** X13.  A run of [process] that returns changes nothing of the processor but
    [lvtln], [transforms] and [warps], and [ubm] when a UBM was given: in
    particular the [sliding_window_cmvn] entry taken out of the feature
    configuration for the sweep is back in place. *)
Theorem process_frame `{Collaborators} `{Numerics} (utterances : Utterances)
    (given_ubm : option Ubm) (group_by : string) (njobs : Z) (s s' : pstate)
    (r : dict Qc) :
  process utterances given_ubm group_by njobs s = (Ok r, s') ->
  (exists lv new_transforms new_warps,
     processor s' = with_assignment new_transforms new_warps
                      (with_lvtln (Some lv) (adopted given_ubm (processor s)))) /\
  features (processor s') = features (processor s) /\
  sliding_window_cmvn (processor s') = sliding_window_cmvn (processor s) /\
  (given_ubm = None -> ubm (processor s') = ubm (processor s)).
Proof.
  intros Hrun. destruct (process_run _ _ _ _ _ _ _ Hrun)
    as (utt2speak & gmm & n & d & lv & self1 & u1 & post1 & tw & tr & wp & passes & tw0 & u_end
        & _ & _ & _ & _ & _ & _ & _ & _ & _ & _ & -> & _).
  simpl. split; [eauto|].
  destruct given_ubm; simpl; repeat split. intros [=].
Qed.

(** ** [process]: the mapping returned *)

Lemma keys_dict_of_items {V} (items : list (string * V)) (k : string) :
  k ∈ map fst (dict_of_items items) <-> k ∈ map fst items.
Proof.
  unfold dict_of_items.
  assert (Hgen : forall d0 : dict V,
             k ∈ map fst (fold_left (fun d kv => dict_set kv.1 kv.2 d) items d0) <->
             k ∈ map fst d0 \/ k ∈ map fst items).
  { induction items as [|[k1 v1] items IH]; intros d0; simpl.
    - rewrite elem_of_nil. tauto.
    - rewrite IH, elem_of_keys_dict_set, elem_of_cons. simpl. tauto. }
  rewrite Hgen. simpl. rewrite elem_of_nil. tauto.
Qed.

Lemma broadcast_keys {V} (table : dict V) (utt2speak : dict string) (table' : dict V) :
  distinct_keys utt2speak -> broadcast table utt2speak = Ok table' ->
  map fst table' = map fst utt2speak.
Proof.
  intros Hnd Hb. unfold broadcast in Hb.
  apply rbind_ok in Hb. destruct Hb as (items & Hitems & Hb). injection Hb as <-.
  assert (Hkeys : map fst items = map fst utt2speak).
  { eapply comprehension_keys; [|exact Hitems].
    intros item y Hy. apply rbind_ok in Hy. destruct Hy as (v & _ & Hy).
    injection Hy as <-. reflexivity. }
  rewrite dict_of_items_distinct by (unfold distinct_keys; rewrite Hkeys; exact Hnd).
  exact Hkeys.
Qed.

Lemma validate_per_utterance `{Collaborators} (self : VtlnProcessor)
    (utterances : Utterances) (group_by : string) (utt2speak : option (dict string)) :
  validate self utterances group_by = Ok utt2speak -> by_speaker self = false ->
  utt2speak = None.
Proof.
  unfold validate. intros Hv Hby. rewrite Hby in Hv.
  repeat match type of Hv with
         | (if ?c then _ else _) = _ => destruct c; try discriminate
         end.
  injection Hv as <-. reflexivity.
Qed.

Lemma validate_group_by_speaker `{Collaborators} (self : VtlnProcessor)
    (utterances : Utterances) (utt2speak : option (dict string)) :
  validate self utterances "speaker" = Ok utt2speak -> by_speaker self = true.
Proof.
  unfold validate. destruct (by_speaker self); [reflexivity|].
  rewrite bool_decide_eq_true_2 by (right; left). simpl. discriminate.
Qed.

(** X15.  With [group_by = 'utterance'], [process] returns the very mapping it
    has stored in [self.warps].  With [by_speaker] on, it has one entry per
    utterance, in the order of the utterances; with [by_speaker] off, its
    keys are the utterances of the original features. *)
Theorem process_returns_stored `{Collaborators} `{Numerics} (utterances : Utterances)
    (given_ubm : option Ubm) (njobs : Z) (s s' : pstate) (r : dict Qc) :
  process utterances given_ubm "utterance" njobs s = (Ok r, s') ->
  warps (processor s') = Some r /\
  (by_speaker (processor s) = true ->
   NoDup (map fst (utterance_items utterances)) ->
   map fst r = map fst (utterance_items utterances)) /\
  (by_speaker (processor s) = false ->
   forall name,
     is_Some (dict_get name r) <->
     name ∈ map fst (original_features (processor s) utterances
                       (acquired utterances given_ubm (processor s)))).
Proof.
  intros Hrun. destruct (process_run _ _ _ _ _ _ _ Hrun)
    as (utt2speak & gmm & n & d & lv & self1 & u1 & post1 & tw & tr & wp & passes & tw0 & u_end
        & Hv & _ & _ & _ & _ & _ & _ & _ & Hest & Hbroadcast & -> & _ & _ & _ & _ & Hreport).
  simpl in Hreport. subst r. simpl.
  destruct (adopted_grid given_ubm (processor s)) as (_ & _ & _ & Hby & _).
  rewrite Hby in Hbroadcast. rewrite original_features_adopted in Hest.
  split; [reflexivity|]. split.
  - intros Hspk Hnames. rewrite Hspk in Hbroadcast.
    destruct Hbroadcast as (u2s & Hu & _ & Hwp).
    rewrite (validate_by_speaker _ _ _ _ Hv Hspk) in Hu. injection Hu as <-.
    rewrite dict_of_items_distinct in Hwp by exact Hnames.
    eapply broadcast_keys; eassumption.
  - intros Hutt name. rewrite Hutt in Hbroadcast. destruct Hbroadcast as [_ ->].
    rewrite (validate_per_utterance _ _ _ _ Hv Hutt) in Hest.
    destruct (estimate_returns _ _ _ _ _ _ Hest) as (lv' & units & _ & Hunits & _ & Hiff & _).
    simpl in Hunits. injection Hunits as <-.
    rewrite dict_get_Some_keys, Hiff, map_map. simpl. reflexivity.
Qed.

(** X16.  With [group_by = 'speaker'], [by_speaker] is on, the mapping returned
    has exactly the speakers of [utterances.by_speaker()] as keys, and the
    warp of a speaker is the warp stored for the first utterance listed for
    that speaker. *)
Theorem process_by_speaker `{Collaborators} `{Numerics} (utterances : Utterances)
    (given_ubm : option Ubm) (njobs : Z) (s s' : pstate) (r : dict Qc) :
  process utterances given_ubm "speaker" njobs s = (Ok r, s') ->
  by_speaker (processor s) = true /\
  exists stored,
    warps (processor s') = Some stored /\
    (forall spk, is_Some (dict_get spk r) <-> spk ∈ map fst (by_speaker_names utterances)) /\
    (forall spk w, dict_get spk r = Some w ->
       exists first rest,
         In (spk, first :: rest) (by_speaker_names utterances) /\
         dict_get first stored = Some w).
Proof.
  intros Hrun. destruct (process_run _ _ _ _ _ _ _ Hrun)
    as (utt2speak & gmm & n & d & lv & self1 & u1 & post1 & tw & tr & wp & passes & tw0 & u_end
        & Hv & _ & _ & _ & _ & _ & _ & _ & _ & _ & -> & _ & _ & _ & _ & Hreport).
  simpl in Hreport. destruct Hreport as (items & Hitems & ->).
  split; [eapply validate_group_by_speaker, Hv|].
  exists wp. split; [reflexivity|]. split.
  - intros spk. rewrite dict_get_Some_keys, keys_dict_of_items.
    rewrite (comprehension_keys _ _ _ (fun item y Hy => proj1 (speaker_warp_ok _ _ _ Hy))
               Hitems).
    reflexivity.
  - intros spk w Hget. apply dict_get_In, dict_of_items_In in Hget.
    destruct (comprehension_In _ _ _ _ Hitems Hget) as ([spk' names] & Hin & Hitem).
    apply speaker_warp_ok in Hitem. simpl in Hitem.
    destruct Hitem as (-> & first & rest & -> & Hfirst).
    exists first, rest. auto.
Qed.

(** ** Stepping through a run *)

Lemma bind_step `{Carriers} {A B} (m : M A) (k : A -> M B) (s s1 : pstate) (a : A) :
  m s = (Ok a, s1) -> bind m k s = k a s1.
Proof. unfold bind. intros ->. reflexivity. Qed.

Lemma bind_stop `{Carriers} {A B} (m : M A) (k : A -> M B) (s s1 : pstate) (e : exn) :
  m s = (Raise e, s1) -> bind m k s = (Raise e, s1).
Proof. unfold bind. intros ->. reflexivity. Qed.

(** Run the first step of a sequence that returns. *)
Ltac run_step tac :=
  match goal with
  | |- bind ?m ?k ?s = _ => erewrite (bind_step m k s); [|tac]
  end.

(** ** [save], [load], [save_warps] and [load_warps] *)

(** X18.  A call of [save] that returns has written the model, and only at
    [path], which held no regular file; a second [save] to [path] raises
    [OSError]; and [load] from [path] reads back what Kaldi reads from what it
    wrote, into a processor with the constructor's defaults for everything
    else. *)
Theorem save_then_load `{Collaborators} (self fresh : VtlnProcessor) (path : string)
    (fs fs' : filesystem) :
  save self path fs = (Ok tt, fs') ->
  exists lv,
    lvtln self = Some lv /\
    isfile fs path = false /\
    fs' = <[path := RegularFile (lvtln_write lv)]> fs /\
    save self path fs' = (Raise (OSError "file already exists"), fs') /\
    load fresh path fs'
    = (let* lv' := lvtln_read (lvtln_write lv) in Ok (with_lvtln (Some lv') fresh)).
Proof.
  unfold save. destruct (isfile fs path) eqn:Hfile; [discriminate|].
  destruct (lvtln self) as [lv|]; [|discriminate].
  unfold xopen_write. intros Hopen. exists lv.
  assert (Hfs : fs' = <[path := RegularFile (lvtln_write lv)]> fs).
  { destruct (fs !! path) as [[contents|]|]; try discriminate; congruence. }
  assert (Hnow : isfile fs' path = true).
  { unfold isfile. rewrite Hfs, lookup_insert_eq. reflexivity. }
  repeat split; try assumption.
  - rewrite Hnow. reflexivity.
  - unfold load. rewrite Hnow. simpl. rewrite Hfs at 1. rewrite lookup_insert_eq.
    destruct (lvtln_read (lvtln_write lv)); reflexivity.
Qed.

Lemma save_then_load_witness :
  @load Reference.carriers Reference.collaborators Reference.vtln "new.bin"
    (@save Reference.carriers Reference.collaborators Reference.trained "new.bin"
       Reference.disk).2
  = Ok Reference.trained.
Proof.
  destruct (@save Reference.carriers Reference.collaborators Reference.trained "new.bin"
              Reference.disk) as [[[]|e] fs'] eqn:Hsave.
  - destruct (@save_then_load Reference.carriers Reference.collaborators
                Reference.trained Reference.vtln _ _ _ Hsave)
      as (lv & Hlv & _ & _ & _ & Hload).
    injection Hlv as <-. simpl. rewrite Hload. reflexivity.
  - exfalso.
    assert (Hok : is_ok (@save Reference.carriers Reference.collaborators
                           Reference.trained "new.bin" Reference.disk).1 = true)
      by (vm_compute; reflexivity).
    rewrite Hsave in Hok. discriminate Hok.
Defined.

(** X19.  A call of [save_warps] that returns has written the warps, and only
    at [path], which held no regular file; a second [save_warps] to [path]
    raises [OSError]; and [load_warps] from [path] returns what PyYAML reads
    from what it wrote. *)
Theorem save_warps_then_load_warps `{Yaml} (self : VtlnProcessor) (path : string)
    (fs fs' : filesystem) :
  save_warps self path fs = (Ok tt, fs') ->
  exists w,
    warps self = Some w /\
    isfile fs path = false /\
    fs' = <[path := RegularFile (yaml_dump w)]> fs /\
    save_warps self path fs' = (Raise (OSError "file already exists"), fs') /\
    load_warps path fs'
    = match yaml_load (yaml_dump w) with
      | Some document => Ok document
      | None => Raise (ValueError "Error in VTLN warps file when loading")
      end.
Proof.
  unfold save_warps. destruct (isfile fs path) eqn:Hfile; [discriminate|].
  destruct (warps self) as [w|]; [|discriminate].
  unfold open_write. intros Hopen. exists w.
  assert (Hfs : fs' = <[path := RegularFile (yaml_dump w)]> fs).
  { destruct (fs !! path) as [[contents|]|]; try discriminate; congruence. }
  assert (Hnow : isfile fs' path = true).
  { unfold isfile. rewrite Hfs, lookup_insert_eq. reflexivity. }
  repeat split; try assumption.
  - rewrite Hnow. reflexivity.
  - unfold load_warps. rewrite Hnow. simpl. rewrite Hfs at 1. rewrite lookup_insert_eq.
    reflexivity.
Qed.

Lemma save_warps_then_load_warps_witness :
  @load_warps TextFiles.carriers TextFiles.yaml "warps.yml"
    (@save_warps TextFiles.carriers TextFiles.yaml TextFiles.processed "warps.yml" ∅).2
  = Ok TextFiles.speaker_warps.
Proof.
  destruct (@save_warps TextFiles.carriers TextFiles.yaml TextFiles.processed "warps.yml" ∅)
    as [[[]|e] fs'] eqn:Hsave.
  - destruct (@save_warps_then_load_warps TextFiles.carriers TextFiles.yaml
                TextFiles.processed _ _ _ Hsave) as (w & Hw & _ & _ & _ & Hload).
    injection Hw as <-. simpl. rewrite Hload. reflexivity.
  - exfalso. unfold save_warps, isfile, open_write in Hsave.
    rewrite lookup_empty in Hsave. discriminate Hsave.
Defined.

(** X20.  The errors of [save_warps] and [load_warps]: [save_warps] raises
    [OSError] on an existing file whether or not warps have been computed,
    [TypeError] when they have not, and writes nothing whenever it raises;
    [load_warps] raises [OSError] when there is no such file and [ValueError]
    when the file is not a YAML document. *)
Theorem warps_file_errors `{Yaml} (self : VtlnProcessor) (path : string)
    (fs : filesystem) :
  (isfile fs path = true ->
   save_warps self path fs = (Raise (OSError "file already exists"), fs)) /\
  (isfile fs path = false -> warps self = None ->
   save_warps self path fs = (Raise (TypeError "Warps not computed"), fs)) /\
  (forall e fs', save_warps self path fs = (Raise e, fs') -> fs' = fs) /\
  (isfile fs path = false -> load_warps path fs = Raise (OSError "file not found")) /\
  (forall contents, fs !! path = Some (RegularFile contents) ->
     yaml_load contents = None ->
     load_warps path fs = Raise (ValueError "Error in VTLN warps file when loading")).
Proof.
  unfold save_warps, load_warps, open_write, isfile. repeat split.
  - intros ->. reflexivity.
  - intros -> ->. reflexivity.
  - intros e fs'. destruct (fs !! path) as [[contents|]|]; destruct (warps self);
      intros [= _ <-]; reflexivity.
  - intros ->. reflexivity.
  - intros contents -> ->. reflexivity.
Qed.

(** ** [process]: the runs that raise *)

Lemma bind_raise `{Carriers} {A B} (m : M A) (k : A -> M B) (s s' : pstate) (e : exn) :
  bind m k s = (Raise e, s') ->
  m s = (Raise e, s') \/ exists a s1, m s = (Ok a, s1) /\ k a s1 = (Raise e, s').
Proof.
  unfold bind. destruct (m s) as [[a|e'] s1]; [eauto|]. intros [= -> ->]. auto.
Qed.

(** A loop that raises does so in its body, from a state its returning
    passes have led to. *)
Lemma for_loop_raise `{Carriers} {A T} (I : T -> pstate -> Prop)
    (body : T -> A -> M T) (xs : list A) (acc : T) (s s' : pstate) (e : exn) :
  (forall acc x s acc' s1, I acc s -> body acc x s = (Ok acc', s1) -> I acc' s1) ->
  I acc s -> for_loop xs body acc s = (Raise e, s') ->
  exists acc0 x s0, I acc0 s0 /\ body acc0 x s0 = (Raise e, s').
Proof.
  intros Hbody. revert acc s.
  induction xs as [|x xs IH]; intros acc s HI Hrun; simpl in Hrun; [discriminate|].
  apply bind_raise in Hrun. destruct Hrun as [Hfail|(acc1 & s1 & Hstep & Hrun)].
  - exists acc, x, s. auto.
  - eapply IH; [|exact Hrun]. eapply Hbody; eassumption.
Qed.

(** A loop that returns has kept its invariant. *)
Lemma for_loop_kept `{Carriers} {A T} (I : T -> pstate -> Prop)
    (body : T -> A -> M T) (xs : list A) (acc acc' : T) (s s' : pstate) :
  (forall acc x s acc' s1, I acc s -> body acc x s = (Ok acc', s1) -> I acc' s1) ->
  I acc s -> for_loop xs body acc s = (Ok acc', s') -> I acc' s'.
Proof.
  intros Hbody HI Hrun.
  exact (for_loop_counted (fun _ => I) body xs 0 acc acc' s s'
           (fun _ a x s0 a' s1 => Hbody a x s0 a' s1) HI Hrun).
Qed.

Section Failures.
Context `{Collaborators} `{Numerics}.

Lemma acquire_ubm_raise (utterances : Utterances) (given : option Ubm) (s s' : pstate)
    (e : exn) :
  acquire_ubm utterances given s = (Raise e, s') -> s' = s.
Proof.
  unfold acquire_ubm, bind, get_self, record, put_self, ret, raise.
  destruct given as [g|]; [destruct (ubm_gmm g)|]; simpl; intros [= _ <-]; reflexivity.
Qed.

Lemma initialize_lvtln_raise (u : Ubm) (s s' : pstate) (e : exn) :
  initialize_lvtln u s = (Raise e, s') ->
  processor s' = processor s /\
  exists cs, calls s' = calls s ++ cs /\ stopped_in_fit cs = false.
Proof.
  unfold initialize_lvtln, bind, get_self, lift, record, put_self, ret.
  destruct (ubm_gmm u) as [gmm|]; simpl;
    [|intros [= _ <-]; split; [reflexivity|]; exists []; rewrite app_nil_r; auto].
  destruct (num_classes_of _ _ _) as [n|]; simpl;
    [|intros [= _ <-]; split; [reflexivity|]; exists []; rewrite app_nil_r; auto].
  destruct (default_class_of _ _) as [d|]; simpl;
    [|intros [= _ <-]; split; [reflexivity|]; exists []; rewrite app_nil_r; auto].
  destruct (LinearVtln_new _ _ _); simpl; intros [= _ <-].
  split; [reflexivity|]. eexists. split; reflexivity.
Qed.

Lemma base_transform_raise (utterances : Utterances) (vad : dict (list bool))
    (featsub_unwarped : FeaturesCollection) (c : Z) (s s' : pstate) (e : exn) :
  base_transform utterances vad featsub_unwarped tt c s = (Raise e, s') ->
  processor s' = processor s /\
  exists cs, calls s' = calls s ++ cs /\ stopped_in_fit cs = true.
Proof.
  unfold base_transform, bind, get_self, lift, record, put_self. simpl.
  destruct (compute_mapping_transform _ _ _ _ _ _); simpl; intros [= _ <-].
  split; [reflexivity|]. simpl. rewrite <- app_assoc. eexists. split; reflexivity.
Qed.

Lemma reestimate_raise (u : Ubm) (orig_features : FeaturesCollection)
    (posteriors : Posteriors) (utt2speak : option (dict string)) (s s' : pstate)
    (e : exn) :
  reestimate u orig_features posteriors utt2speak s = (Raise e, s') ->
  processor s' = processor s /\
  calls s' = calls s ++ [call_estimate u orig_features posteriors].
Proof.
  unfold reestimate, bind, get_self, lift, record, put_self. simpl.
  destruct (estimate _ _ _ _ _); simpl; intros [= _ <-]. auto.
Qed.

Lemma em_pass_raise (orig_features : FeaturesCollection)
    (utt2speak : option (dict string)) (u : Ubm) (i : Z) (s s' : pstate) (e : exn) :
  em_pass orig_features utt2speak u i s = (Raise e, s') ->
  processor s' = processor s /\
  (calls s' = calls s \/
   exists pre c, calls s' = calls s ++ pre ++ [c] /\ is_call_estimate c = true).
Proof.
  intros Hrun. unfold em_pass in Hrun.
  apply bind_raise in Hrun. destruct Hrun as [Hfail|(self & s0 & Hself & Hrun)];
    [discriminate|].
  cbv [get_self] in Hself. injection Hself as <- <-.
  apply bind_raise in Hrun. destruct Hrun as [Hfail|(features & s0 & Hf & Hrun)].
  { unfold lift in Hfail. injection Hfail as _ <-. auto. }
  unfold lift in Hf. injection Hf as _ <-.
  apply bind_raise in Hrun. destruct Hrun as [Hfail|([] & s1 & Hr1 & Hrun)];
    [discriminate|].
  cbv [record] in Hr1. injection Hr1 as <-.
  apply bind_raise in Hrun. destruct Hrun as [Hfail|([] & s2 & Hr2 & Hrun)];
    [discriminate|].
  cbv [record] in Hr2. injection Hr2 as <-.
  apply bind_raise in Hrun. destruct Hrun as [Hfail|([] & s3 & Hr3 & Hrun)];
    [discriminate|].
  cbv [record] in Hr3. injection Hr3 as <-.
  apply bind_raise in Hrun. destruct Hrun as [Hfail|([] & s4 & Hr4 & Hrun)];
    [|discriminate].
  apply reestimate_raise in Hfail. simpl in Hfail. destruct Hfail as [Hp Hc].
  split; [exact Hp|]. right. eexists [_; _; _], _. rewrite Hc, <- !app_assoc. simpl.
  split; reflexivity.
Qed.

Lemma broadcast_raise (utt2speak : option (dict string)) (s s' : pstate) (e : exn) :
  broadcast_to_utterances utt2speak s = (Raise e, s') -> s' = s.
Proof.
  unfold broadcast_to_utterances, bind, get_self, lift, put_self, ret.
  destruct (by_speaker (processor s)); [|discriminate].
  destruct utt2speak as [u2s|]; simpl; [|intros [= _ <-]; reflexivity].
  destruct (transforms (processor s)) as [tr|]; simpl; [|intros [= _ <-]; reflexivity].
  destruct (broadcast tr u2s); simpl; [|intros [= _ <-]; reflexivity].
  destruct (warps (processor s)) as [wp|]; simpl; [|intros [= _ <-]; reflexivity].
  destruct (broadcast wp u2s); simpl; [discriminate|intros [= _ <-]; reflexivity].
Qed.

Lemma report_raise (utterances : Utterances) (group_by : string) (s s' : pstate)
    (e : exn) :
  report utterances group_by s = (Raise e, s') -> s' = s.
Proof.
  unfold report, bind, get_self, lift, ret.
  destruct (warps (processor s)) as [wp|]; simpl; [|intros [= _ <-]; reflexivity].
  destruct (bool_decide (group_by = "utterance"%string)); [discriminate|].
  destruct (comprehension _ _); simpl; [discriminate|intros [= _ <-]; reflexivity].
Qed.

End Failures.

Lemma stopped_in_fit_app `{Carriers} (a cs : list call) :
  stopped_in_fit (a ++ cs)
  = match last cs with Some _ => stopped_in_fit cs | None => stopped_in_fit a end.
Proof. unfold stopped_in_fit. rewrite last_app. destruct (last cs); reflexivity. Qed.

Lemma stopped_in_fit_estimate `{Carriers} (pre : list call) (c : call) :
  is_call_estimate c = true -> stopped_in_fit (pre ++ [c]) = false.
Proof.
  intros Hc. unfold stopped_in_fit. rewrite last_snoc. destruct c; try discriminate.
  reflexivity.
Qed.

(** Split a run of a sequence of binds that raises: either the first step
    raises, or it returns and the rest raises. *)
Ltac split_run H Hfail :=
  let a := fresh "a" in
  let s := fresh "s" in
  let Hok := fresh "Hok" in
  apply bind_raise in H; destruct H as [Hfail|(a & s & Hok & H)].

(** The same when the first step is a primitive that cannot raise. *)
Ltac skip_step H :=
  let a := fresh "a" in
  let s := fresh "s" in
  let Hok := fresh "Hok" in
  let Hfail := fresh "Hfail" in
  apply bind_raise in H; destruct H as [Hfail|(a & s & Hok & H)];
  [discriminate Hfail|];
  cbv [get_self put_self record ret] in Hok; injection Hok as <- <-.

(** In the model, where the extraction of features does not raise: when
    [process] raises, the [sliding_window_cmvn] entry is as it was before the
    call, unless the run has stopped in the fit of a base transform. *)
Lemma process_raise_cmvn `{Collaborators} `{Numerics} (utterances : Utterances)
    (given_ubm : option Ubm) (group_by : string) (njobs : Z) (s s' : pstate) (e : exn) :
  process utterances given_ubm group_by njobs s = (Raise e, s') ->
  exists cs,
    calls s' = calls s ++ cs /\
    sliding_window_cmvn (processor s')
    = if stopped_in_fit cs then None else sliding_window_cmvn (processor s).
Proof.
  intros Hrun. unfold process in Hrun.
  assert (Hsettled : forall sk cs,
             sliding_window_cmvn (processor sk) = sliding_window_cmvn (processor s) ->
             calls sk = calls s ++ cs -> stopped_in_fit cs = false ->
             exists cs,
               calls sk = calls s ++ cs /\
               sliding_window_cmvn (processor sk)
               = if stopped_in_fit cs then None else sliding_window_cmvn (processor s)).
  { intros sk cs Hc Hcs Hq. exists cs. rewrite Hq. auto. }
  skip_step Hrun.
  split_run Hrun Hfail.
  { unfold lift in Hfail. injection Hfail as _ <-.
    apply (Hsettled s []); [reflexivity | rewrite app_nil_r; reflexivity | reflexivity]. }
  unfold lift in Hok. injection Hok as Hv <-. rename a into utt2speak.
  split_run Hrun Hfail.
  { apply acquire_ubm_raise in Hfail. subst s'.
    apply (Hsettled s []); [reflexivity | rewrite app_nil_r; reflexivity | reflexivity]. }
  apply acquire_ubm_run in Hok. destruct Hok as (-> & _ & ->).
  set (p := adopted given_ubm (processor s)) in *.
  set (u := acquired utterances given_ubm (processor s)) in *.
  assert (Hcmvn : sliding_window_cmvn p = sliding_window_cmvn (processor s))
    by (unfold p; destruct given_ubm; reflexivity).
  assert (Hubm : stopped_in_fit (ubm_calls given_ubm (processor s)) = false)
    by (destruct given_ubm; reflexivity).
  split_run Hrun Hfail.
  { apply initialize_lvtln_raise in Hfail. simpl in Hfail.
    destruct Hfail as (Hp & cs & Hcs & Hq).
    apply (Hsettled s' (ubm_calls given_ubm (processor s) ++ cs)).
    - rewrite Hp. exact Hcmvn.
    - rewrite Hcs, app_assoc. reflexivity.
    - rewrite stopped_in_fit_app, Hq, Hubm. destruct (last cs); reflexivity. }
  apply initialize_lvtln_run in Hok. simpl in Hok.
  destruct Hok as (gmm & d & _ & _ & _ & _ & ->). rename a into n.
  skip_step Hrun. skip_step Hrun. skip_step Hrun. skip_step Hrun. skip_step Hrun.
  simpl in Hrun.
  change (with_cmvn None (with_lvtln ?l p)) with (with_lvtln l (with_cmvn None p)) in Hrun.
  split_run Hrun Hfail.
  { (* the sweep *)
    eapply (for_loop_raise
              (fun (_ : unit) sk =>
                 exists lv cs, sk = {| processor := with_lvtln (Some lv) (with_cmvn None p);
                                       calls := calls s ++ cs |})) in Hfail.
    - destruct Hfail as ([] & c & sk & (lv & cs & ->) & Hfail).
      apply base_transform_raise in Hfail. simpl in Hfail.
      destruct Hfail as (Hp & cs' & Hcs & Hq).
      exists (cs ++ cs'). rewrite Hcs, app_assoc. split; [reflexivity|].
      rewrite stopped_in_fit_app.
      assert (Hlast : is_Some (last cs')).
      { unfold stopped_in_fit in Hq. destruct (last cs'); [eauto | discriminate]. }
      destruct Hlast as (c' & ->). rewrite Hq, Hp. reflexivity.
    - intros [] c sk [] sk' (lv & cs & ->) Hstep.
      apply base_transform_run in Hstep. simpl in Hstep. destruct Hstep as (lv' & _ & ->).
      exists lv', (cs ++ [call_extract_features_warp
                            (class_warp (min_warp p) (warp_step p) c);
                          call_compute_mapping_transform c
                            (class_warp (min_warp p) (warp_step p) c)]).
      rewrite app_assoc. reflexivity.
    - eexists _, _. rewrite <- !app_assoc. reflexivity. }
  apply sweep_run in Hok; [|simpl; apply length_replicate ..].
  destruct Hok as (lv & -> & _). simpl in Hrun.
  (* from here on the cmvn entry is back and the last call is a call of
     [estimate] *)
  pose (late := fun sk : pstate =>
          sliding_window_cmvn (processor sk) = sliding_window_cmvn (processor s) /\
          exists pre c, calls sk = calls s ++ pre ++ [c] /\ is_call_estimate c = true).
  assert (Hlate : forall sk, late sk ->
             exists cs,
               calls sk = calls s ++ cs /\
               sliding_window_cmvn (processor sk)
               = if stopped_in_fit cs then None else sliding_window_cmvn (processor s)).
  { intros sk (Hc & pre & c & Hcs & Hest). apply (Hsettled sk (pre ++ [c]) Hc Hcs).
    apply stopped_in_fit_estimate, Hest. }
  skip_step Hrun. simpl in Hrun.
  split_run Hrun Hfail.
  { destruct (sliding_window_cmvn p); discriminate Hfail. }
  assert (Hs3 : sliding_window_cmvn (processor s0) = sliding_window_cmvn (processor s) /\
                exists cs, calls s0 = calls s ++ cs).
  { destruct (sliding_window_cmvn p) as [cfg|] eqn:Hcfg.
    - cbv [put_self] in Hok. injection Hok as _ <-. simpl. split; [exact Hcmvn|].
      rewrite <- !app_assoc. eauto.
    - cbv [ret] in Hok. injection Hok as _ <-. simpl. split; [exact Hcmvn|].
      rewrite <- !app_assoc. eauto. }
  destruct Hs3 as (Hc3 & cs3 & Hcs3). clear Hok.
  skip_step Hrun. skip_step Hrun. simpl in Hrun.
  split_run Hrun Hfail.
  { apply reestimate_raise in Hfail. simpl in Hfail. destruct Hfail as [Hp Hc].
    apply Hlate. split; [rewrite Hp; exact Hc3|].
    eexists (cs3 ++ [_; _]), _. rewrite Hc, Hcs3, <- !app_assoc. split; reflexivity. }
  assert (Hl4 : late s1).
  { destruct a1. apply reestimate_ok in Hok. simpl in Hok.
    destruct Hok as (tw & _ & Hp & Hc). split; [rewrite Hp; exact Hc3|].
    eexists (cs3 ++ [_; _]), _. rewrite Hc, Hcs3, <- !app_assoc. split; reflexivity. }
  clear Hok.
  assert (Hpass : forall uk x sk uk' sk',
             late sk -> em_pass (original_features p utterances u) utt2speak uk x sk
                        = (Ok uk', sk') -> late sk').
  { intros uk x sk uk' sk' (Hc & pre & c & Hcs & Hest) Hstep.
    apply em_pass_run in Hstep. destruct Hstep as (adapted & tw & _ & _ & _ & ->).
    split; [exact Hc|]. simpl.
    eexists (pre ++ [c] ++ [_; _; _]), _. rewrite Hcs, <- !app_assoc.
    split; reflexivity. }
  split_run Hrun Hfail.
  { unfold em_refinement in Hfail. skip_step Hfail.
    eapply (for_loop_raise (fun (_ : Ubm) sk => late sk)) in Hfail;
      [|exact Hpass|exact Hl4].
    destruct Hfail as (uk & x & sk & (Hc & pre & c & Hcs & Hest) & Hfail).
    apply em_pass_raise in Hfail. destruct Hfail as (Hp & [Hsame|(pre' & c' & Hext & Hest')]).
    - apply Hlate. split; [rewrite Hp; exact Hc|]. exists pre, c. rewrite Hsame. auto.
    - apply Hlate. split; [rewrite Hp; exact Hc|].
      exists (pre ++ [c] ++ pre'), c'. rewrite Hext, Hcs, <- !app_assoc. auto. }
  assert (Hl5 : late s2).
  { unfold em_refinement in Hok.
    apply bind_ok in Hok. destruct Hok as (self & s5 & Hself & Hok).
    cbv [get_self] in Hself. injection Hself as <- <-.
    exact (for_loop_kept (fun (_ : Ubm) sk => late sk) _ _ _ _ _ _ Hpass Hl4 Hok). }
  clear Hok.
  split_run Hrun Hfail.
  { apply broadcast_raise in Hfail. subst s'. apply Hlate, Hl5. }
  assert (Hl6 : late s3).
  { apply broadcast_run in Hok. destruct Hl5 as (Hc & pre & c & Hcs & Hest).
    destruct (by_speaker (processor s2)).
    - destruct Hok as (u2s & tr & wp & tr' & wp' & _ & _ & _ & _ & _ & ->).
      split; [exact Hc|]. exists pre, c. auto.
    - subst s3. split; [exact Hc|]. exists pre, c. auto. }
  apply report_raise in Hrun. subst s'. apply Hlate, Hl6.
Qed.

Lemma stopped_in_fit_sweep `{Carriers} (cs : list call) :
  stopped_in_fit cs = true -> stopped_in_sweep cs = true.
Proof.
  unfold stopped_in_fit, stopped_in_sweep.
  destruct (last cs) as [[]|]; congruence.
Qed.

(** X14.  A run of [process] that raises in the fit of a base transform leaves
    the processor without its [sliding_window_cmvn] entry: the entry, taken
    out of the feature configuration before the sweep, is put back only after
    it.  A run that raises when its last call is not of the stage between
    the two (no call yet, the training of the UBM, the creation of the model,
    or a call made after the sweep) leaves the entry as it was. *)
Theorem process_failure_cmvn `{Collaborators} `{Numerics} (utterances : Utterances)
    (given_ubm : option Ubm) (group_by : string) (njobs : Z) (s s' : pstate) (e : exn) :
  process utterances given_ubm group_by njobs s = (Raise e, s') ->
  exists cs,
    calls s' = calls s ++ cs /\
    (stopped_in_fit cs = true -> sliding_window_cmvn (processor s') = None) /\
    (stopped_in_sweep cs = false ->
     sliding_window_cmvn (processor s') = sliding_window_cmvn (processor s)).
Proof.
  intros Hrun. destruct (process_raise_cmvn _ _ _ _ _ _ _ Hrun) as (cs & Hcs & Hcmvn).
  exists cs. split; [exact Hcs|]. split.
  - intros Hfit. rewrite Hfit in Hcmvn. exact Hcmvn.
  - intros Hout. destruct (stopped_in_fit cs) eqn:Hfit; [|exact Hcmvn].
    apply stopped_in_fit_sweep in Hfit. congruence.
Qed.

(** ** [process]: the adapted features *)

Lemma affine_ok `{Carriers} (transform : mat) (feats adapted : Features) :
  affine transform feats = Ok adapted ->
  num_rows (data adapted) = num_rows (data feats) /\
  num_cols (data adapted) = length transform /\
  times adapted = times feats /\ properties adapted = properties feats.
Proof.
  unfold affine. destruct (decide _); [|discriminate]. intros [= <-].
  unfold num_rows, rows. simpl. rewrite !length_map. auto.
Qed.

(** X21.  The features adapted in a pass of the EM stage are those of the same
    utterances in the same order, each with the number of frames, the time
    stamps and the properties of the original utterance. *)
Theorem transform_features_shape `{Carriers} (self : VtlnProcessor)
    (orig_features : FeaturesCollection) (utt2speak : option (dict string))
    (adapted : FeaturesCollection) :
  distinct_keys orig_features ->
  transform_features self orig_features utt2speak = Ok adapted ->
  Forall2 adapted_from orig_features adapted.
Proof.
  unfold transform_features, distinct_keys. intros Hnd Hrun.
  assert (Hgen : forall xs acc res,
             NoDup (map fst acc ++ map fst xs) ->
             for_each xs
               (fun features item =>
                  let* ind := match utt2speak with
                              | None => Ok item.1
                              | Some u2s => dict_index u2s item.1
                              end in
                  let* tr := match transforms self with
                             | Some tr => Ok tr
                             | None => Raise (TypeError "NoneType is not subscriptable")
                             end in
                  let* transform := dict_index tr ind in
                  let* adapted := affine transform item.2 in
                  Ok (dict_set item.1 adapted features)) acc = Ok res ->
             exists new, res = acc ++ new /\ Forall2 adapted_from xs new).
  { induction xs as [|item xs IH]; intros acc res Hdis Hloop; simpl in Hloop.
    - injection Hloop as <-. exists []. rewrite app_nil_r. auto.
    - apply rbind_ok in Hloop. destruct Hloop as (acc1 & Hstep & Hloop).
      apply rbind_ok in Hstep. destruct Hstep as (ind & _ & Hstep).
      apply rbind_ok in Hstep. destruct Hstep as (tr & _ & Hstep).
      apply rbind_ok in Hstep. destruct Hstep as (transform & _ & Hstep).
      apply rbind_ok in Hstep. destruct Hstep as (f' & Haff & Hstep).
      injection Hstep as <-.
      simpl in Hdis. apply NoDup_app in Hdis. destruct Hdis as (Hacc & Hfresh & Hxs).
      rewrite dict_set_fresh in Hloop
        by (intros Hin; apply (Hfresh _ Hin); left).
      destruct (IH (acc ++ [(item.1, f')]) res) as (new & -> & Hnew).
      + rewrite map_app. simpl. rewrite <- app_assoc. simpl.
        apply NoDup_app. split; [exact Hacc|]. split; [|exact Hxs].
        intros k Hk. exact (Hfresh k Hk).
      + exact Hloop.
      + exists ((item.1, f') :: new). rewrite <- app_assoc. split; [reflexivity|].
        constructor; [|exact Hnew].
        apply affine_ok in Haff. unfold adapted_from. simpl. tauto. }
  destruct (Hgen orig_features [] adapted) as (new & -> & Hnew); auto.
Qed.

Lemma transform_features_shape_witness :
  exists adapted,
    @transform_features Reference.carriers
      (with_assignment [("spk1"%string, [[of_Z 2; 1]])] [("spk1"%string, 1)] Reference.vtln)
      Reference.unwarped (Some Reference.utterances) = Ok adapted /\
    Forall2 (@adapted_from Reference.carriers) Reference.unwarped adapted.
Proof.
  destruct (@transform_features Reference.carriers
              (with_assignment [("spk1"%string, [[of_Z 2; 1]])] [("spk1"%string, 1)]
                 Reference.vtln)
              Reference.unwarped (Some Reference.utterances)) as [adapted|e] eqn:Hrun.
  - exists adapted. split; [reflexivity|].
    apply (@transform_features_shape Reference.carriers _ _ _ _) in Hrun; [exact Hrun|].
    apply (bool_decide_unpack _). vm_compute. exact I.
  - exfalso.
    assert (Hok : is_ok (@transform_features Reference.carriers
                           (with_assignment [("spk1"%string, [[of_Z 2; 1]])]
                              [("spk1"%string, 1)] Reference.vtln)
                           Reference.unwarped (Some Reference.utterances)) = true)
      by (vm_compute; reflexivity).
    rewrite Hrun in Hok. discriminate Hok.
Defined.

(** ** [process]: the EM stage as a function *)

Lemma em_chain_iterate `{Collaborators} `{Numerics} (p : VtlnProcessor)
    (orig_features : FeaturesCollection) (utt2speak : option (dict string))
    (passes : list (list call)) (u : Ubm) (tw : dict mat * dict Qc)
    (u_end : Ubm) (tw_end : dict mat * dict Qc) :
  em_chain p orig_features utt2speak u tw passes u_end tw_end ->
  em_iterate p orig_features utt2speak (length passes) u tw = Ok (u_end, tw_end).
Proof.
  revert u tw. induction passes as [|pass passes IH]; intros u tw Hchain;
    simpl in Hchain |- *.
  - destruct Hchain as [-> ->]. reflexivity.
  - destruct Hchain as (adapted & tw' & Hadapt & Hest & _ & Hchain).
    rewrite Hadapt. simpl. rewrite Hest. simpl. apply IH, Hchain.
Qed.

(** X22.  The tables that a run of [process] stores come out of the EM stage
    as a function: starting from the tables of the initial call of
    [estimate], made with the posteriors of the original features, each of
    the [num_iters] passes adapts the original features with the transforms of
    the pass before, re-estimates the UBM on the adapted features (the
    re-estimations accumulate from pass to pass), and estimates the tables
    again on the original features; what is stored is the result of the last
    pass, sent from the speakers to their utterances with [by_speaker] on. *)
Theorem process_em_iterations `{Collaborators} `{Numerics} (utterances : Utterances)
    (given_ubm : option Ubm) (group_by : string) (njobs : Z) (s s' : pstate)
    (r : dict Qc) :
  process utterances given_ubm group_by njobs s = (Ok r, s') ->
  let u := acquired utterances given_ubm (processor s) in
  let orig := original_features (processor s) utterances u in
  let u0 := gaussian_selection u orig in
  exists utt2speak lv tw0 u_end tw_end,
    let p := with_lvtln (Some lv) (adopted given_ubm (processor s)) in
    validate (processor s) utterances group_by = Ok utt2speak /\
    lvtln (processor s') = Some lv /\
    estimate p u0 orig (gaussian_selection_to_post u0 orig) utt2speak = Ok tw0 /\
    em_iterate p orig utt2speak (Z.to_nat (num_iters (processor s))) u0 tw0
      = Ok (u_end, tw_end) /\
    if by_speaker (processor s)
    then exists u2s tr wp,
           utt2speak = Some u2s /\
           broadcast tw_end.1 u2s = Ok tr /\ broadcast tw_end.2 u2s = Ok wp /\
           transforms (processor s') = Some tr /\ warps (processor s') = Some wp
    else transforms (processor s') = Some tw_end.1 /\
         warps (processor s') = Some tw_end.2.
Proof.
  intros Hrun u orig u0. destruct (process_run _ _ _ _ _ _ _ Hrun)
    as (utt2speak & gmm & n & d & lv & self1 & u1 & post1 & tw & tr & wp & passes & tw0 & u_end
        & Hv & _ & _ & _ & _ & _ & _ & _ & _ & Hbroadcast & -> & Hlen & _ & Hest0 & Hchain & _).
  destruct (adopted_grid given_ubm (processor s)) as (_ & _ & _ & Hby & Hiters).
  rewrite Hby in Hbroadcast. rewrite Hiters in Hlen.
  rewrite original_features_adopted in Hest0, Hchain.
  apply em_chain_iterate in Hchain. rewrite Hlen in Hchain.
  exists utt2speak, lv, tw0, u_end, tw. simpl.
  split; [exact Hv|]. split; [reflexivity|]. split; [exact Hest0|].
  split; [exact Hchain|].
  destruct (by_speaker (processor s)).
  - destruct Hbroadcast as (u2s & -> & Htr & Hwp). exists u2s, tr, wp. auto.
  - destruct Hbroadcast as [-> ->]. auto.
Qed.

(** ** [process]: what a run does not read *)

Section Discarded.
Context `{Collaborators} `{Numerics}.

Lemma mirrors_bind {A B} (f g h : VtlnProcessor -> VtlnProcessor)
    (m1 m2 : M A) (k1 k2 : A -> M B) :
  mirrors f g m1 m2 -> (forall a, mirrors g h (k1 a) (k2 a)) ->
  mirrors f h (bind m1 k1) (bind m2 k2).
Proof.
  intros Hm Hk s. unfold bind.
  destruct (Hm s) as (Hr & Hc & Hs).
  destruct (m2 s) as [[a|e] s2], (m1 (over f s)) as [[a'|e'] s1];
    simpl in *; try discriminate.
  - injection Hr as ->. rewrite (Hs eq_refl). apply Hk.
  - injection Hr as ->. repeat split; [assumption | discriminate].
Qed.

Lemma mirrors_get {B} (f h : VtlnProcessor -> VtlnProcessor)
    (k1 k2 : VtlnProcessor -> M B) :
  (forall self, mirrors f h (k1 (f self)) (k2 self)) ->
  mirrors f h (bind get_self k1) (bind get_self k2).
Proof. intros Hk s. unfold bind, get_self. simpl. apply Hk. Qed.

Lemma mirrors_put (f g : VtlnProcessor -> VtlnProcessor) (p1 p2 : VtlnProcessor) :
  p1 = g p2 -> mirrors f g (put_self p1) (put_self p2).
Proof. intros -> s. unfold put_self, over. simpl. repeat split; auto. Qed.

Lemma mirrors_record (f : VtlnProcessor -> VtlnProcessor) (c : call) :
  mirrors f f (record c) (record c).
Proof. intros s. unfold record, over. simpl. repeat split; auto. Qed.

Lemma mirrors_lift {A} (f : VtlnProcessor -> VtlnProcessor) (r : result A) :
  mirrors f f (lift r) (lift r).
Proof. intros s. unfold lift, over. simpl. repeat split; auto. Qed.

Lemma mirrors_ret {A} (f : VtlnProcessor -> VtlnProcessor) (a : A) :
  mirrors f f (ret a) (ret a).
Proof. intros s. unfold ret, over. simpl. repeat split; auto. Qed.

Lemma mirrors_raise {A} (f g : VtlnProcessor -> VtlnProcessor) (e : exn) :
  mirrors f g (raise e : M A) (raise e).
Proof. intros s. unfold raise, over. simpl. repeat split. discriminate. Qed.

Lemma mirrors_same {A} (m : M A) : mirrors id id m m.
Proof.
  intros [p c]. unfold over, id. simpl. repeat split.
  intros _. destruct (m _).2; reflexivity.
Qed.

Lemma mirrors_for_loop {A} (f : VtlnProcessor -> VtlnProcessor) (cs : list Z)
    (body : A -> Z -> M A) (a : A) :
  (forall a c, mirrors f f (body a c) (body a c)) ->
  mirrors f f (for_loop cs body a) (for_loop cs body a).
Proof.
  intros Hbody. revert a. induction cs as [|c cs IH]; intros a; simpl.
  - apply mirrors_ret.
  - apply mirrors_bind with (g := f); [apply Hbody | apply IH].
Qed.

Variables (lv0 : option LinearVtln) (tr0 : option (dict mat)) (wp0 : option (dict Qc)).

Lemma acquire_ubm_mirrors (utterances : Utterances) (given : option Ubm) :
  mirrors (holding lv0 tr0 wp0) (holding lv0 tr0 wp0)
    (acquire_ubm utterances given) (acquire_ubm utterances given).
Proof.
  unfold acquire_ubm. apply mirrors_get. intros self.
  destruct given as [u|].
  - destruct (ubm_gmm u).
    + eapply mirrors_bind with (g := (holding lv0 tr0 wp0)); [apply mirrors_put; reflexivity | intros _; apply mirrors_ret].
    + apply mirrors_raise.
  - eapply mirrors_bind with (g := (holding lv0 tr0 wp0)); [apply mirrors_record | intros _; apply mirrors_ret].
Qed.

Lemma initialize_lvtln_mirrors (u : Ubm) :
  mirrors (holding lv0 tr0 wp0) (with_tables tr0 wp0)
    (initialize_lvtln u) (initialize_lvtln u).
Proof.
  unfold initialize_lvtln. apply mirrors_get. intros self.
  eapply mirrors_bind with (g := (holding lv0 tr0 wp0)); [apply mirrors_lift | intros gmm].
  eapply mirrors_bind with (g := (holding lv0 tr0 wp0)); [apply mirrors_lift | intros n].
  eapply mirrors_bind with (g := (holding lv0 tr0 wp0)); [apply mirrors_lift | intros d].
  eapply mirrors_bind with (g := (holding lv0 tr0 wp0)); [apply mirrors_record | intros _].
  eapply mirrors_bind with (g := (holding lv0 tr0 wp0)); [apply mirrors_lift | intros lv].
  eapply mirrors_bind with (g := (with_tables tr0 wp0)); [apply mirrors_put; reflexivity | intros _; apply mirrors_ret].
Qed.

Lemma base_transform_mirrors (utterances : Utterances) (vad : dict (list bool))
    (featsub_unwarped : FeaturesCollection) (a : unit) (c : Z) :
  mirrors (with_tables tr0 wp0) (with_tables tr0 wp0)
    (base_transform utterances vad featsub_unwarped a c)
    (base_transform utterances vad featsub_unwarped a c).
Proof.
  unfold base_transform. apply mirrors_get. intros self.
  eapply mirrors_bind with (g := (with_tables tr0 wp0)); [apply mirrors_record | intros _].
  eapply mirrors_bind with (g := (with_tables tr0 wp0)); [apply mirrors_record | intros _].
  eapply mirrors_bind with (g := (with_tables tr0 wp0)); [apply mirrors_lift | intros lv].
  apply mirrors_put; reflexivity.
Qed.

Lemma reestimate_mirrors (u : Ubm) (orig_features : FeaturesCollection)
    (posteriors : Posteriors) (utt2speak : option (dict string)) :
  mirrors (with_tables tr0 wp0) id
    (reestimate u orig_features posteriors utt2speak)
    (reestimate u orig_features posteriors utt2speak).
Proof.
  unfold reestimate. apply mirrors_get. intros self.
  eapply mirrors_bind with (g := (with_tables tr0 wp0)); [apply mirrors_record | intros _].
  eapply mirrors_bind with (g := (with_tables tr0 wp0)); [apply mirrors_lift | intros tw].
  apply mirrors_put; reflexivity.
Qed.

Lemma process_mirrors (utterances : Utterances) (given_ubm : option Ubm)
    (group_by : string) (njobs : Z) :
  mirrors (holding lv0 tr0 wp0) id
    (process utterances given_ubm group_by njobs)
    (process utterances given_ubm group_by njobs).
Proof.
  unfold process. apply mirrors_get. intros self.
  eapply mirrors_bind with (g := (holding lv0 tr0 wp0)); [apply mirrors_lift | intros utt2speak].
  eapply mirrors_bind with (g := (holding lv0 tr0 wp0)); [apply acquire_ubm_mirrors | intros u].
  eapply mirrors_bind with (g := (with_tables tr0 wp0)); [apply initialize_lvtln_mirrors | intros n].
  apply mirrors_get. intros self1.
  eapply mirrors_bind with (g := (with_tables tr0 wp0)); [apply mirrors_put; reflexivity | intros _].
  apply mirrors_get. intros self2.
  eapply mirrors_bind with (g := (with_tables tr0 wp0)); [apply mirrors_record | intros _].
  eapply mirrors_bind with (g := (with_tables tr0 wp0)); [apply mirrors_record | intros _].
  eapply mirrors_bind with (g := (with_tables tr0 wp0));
    [apply mirrors_for_loop; intros; apply base_transform_mirrors | intros _].
  apply mirrors_get. intros self3.
  eapply mirrors_bind with (g := with_tables tr0 wp0).
  { simpl. destruct (sliding_window_cmvn self1);
      [apply mirrors_put; reflexivity | apply mirrors_ret]. }
  intros _.
  eapply mirrors_bind with (g := (with_tables tr0 wp0)); [apply mirrors_record | intros _].
  eapply mirrors_bind with (g := (with_tables tr0 wp0)); [apply mirrors_record | intros _].
  eapply mirrors_bind with (g := id); [apply reestimate_mirrors | intros _].
  apply mirrors_same.
Qed.

End Discarded.

(** X23.  [process] starts afresh: run on a processor that already holds a
    model, transforms and warps (of an earlier run, or loaded), it has the
    outcome and makes the calls of the run on the processor without them, and
    when it returns it leaves the very same processor. *)
Theorem process_discards_model `{Collaborators} `{Numerics} (utterances : Utterances)
    (given_ubm : option Ubm) (group_by : string) (njobs : Z) (s : pstate)
    (lv0 : option LinearVtln) (tr0 : option (dict mat)) (wp0 : option (dict Qc)) :
  let held := {| processor := holding lv0 tr0 wp0 (processor s); calls := calls s |} in
  let fresh := process utterances given_ubm group_by njobs s in
  let again := process utterances given_ubm group_by njobs held in
  again.1 = fresh.1 /\
  calls again.2 = calls fresh.2 /\
  (is_ok fresh.1 = true -> again.2 = fresh.2).
Proof.
  cbv zeta.
  destruct (process_mirrors lv0 tr0 wp0 utterances given_ubm group_by njobs s)
    as (Hr & Hc & Hs).
  split; [exact Hr|]. split; [exact Hc|].
  intros Hok. unfold over in Hs. rewrite (Hs Hok).
  destruct (process utterances given_ubm group_by njobs s).2. reflexivity.
Qed.

(** ** Runs of the reference implementation *)






(** The outcome of a run, to compute with. *)
Ltac run_returns Hrun :=
  exfalso;
  match type of Hrun with
  | ?run = (Raise _, _) =>
      let Hok := fresh "Hok" in
      assert (Hok : is_ok run.1 = true) by (vm_compute; reflexivity);
      rewrite Hrun in Hok; discriminate Hok
  end.

Ltac run_raises Hrun :=
  exfalso;
  match type of Hrun with
  | ?run = (Ok _, _) =>
      let Hok := fresh "Hok" in
      assert (Hok : is_ok run.1 = false) by (vm_compute; reflexivity);
      rewrite Hrun in Hok; discriminate Hok
  end.

Section ReferenceRuns.
Local Existing Instance Reference.carriers.
Local Existing Instance Reference.collaborators.
Local Existing Instance Reference.numerics.
Local Abbreviation reference_process :=
  (@process Reference.carriers Reference.collaborators Reference.numerics).

Lemma process_warps_bounded_witness :
  exists r s',
    @process Reference.carriers Reference.collaborators Reference.numerics
      Reference.utterances None "utterance" 1 Reference.start = (Ok r, s') /\
    dict_get "utt1"%string r = Some 1 /\
    frac 1 2 <= 1 /\ 1 <= frac 3 2 + frac 1 2 * frac 1 2.
Proof.
  destruct (@process Reference.carriers Reference.collaborators Reference.numerics
              Reference.utterances None "utterance" 1 Reference.start)
    as [[r|e] s'] eqn:Hrun; [|run_returns Hrun].
  assert (Hget : match (@process Reference.carriers Reference.collaborators
                          Reference.numerics Reference.utterances None "utterance" 1
                          Reference.start).1 with
                 | Ok r => bool_decide (dict_get "utt1"%string r = Some 1)
                 | Raise _ => false
                 end = true) by (vm_compute; reflexivity).
  rewrite Hrun in Hget. simpl in Hget. apply bool_decide_eq_true in Hget.
  exists r, s'. split; [reflexivity|]. split; [exact Hget|].
  apply (@process_warps_bounded Reference.carriers Reference.collaborators
           Reference.numerics _ _ _ _ _ _ _ "utt1"%string 1 Hrun); [reflexivity|exact Hget].
Defined.

Lemma process_given_ubm_witness :
  reference_process Reference.utterances (Some (false, O)) "utterance" 1 Reference.start
  = (Raise (ValueError "Given UBM-GMM has not been trained"), Reference.start) /\
  exists r s',
    reference_process Reference.utterances (Some (true, O)) "utterance" 1 Reference.start
    = (Ok r, s') /\
    ubm (processor s') = ubm_get_params (true, O) /\
    exists cs, calls s' = cs /\ Forall (fun c => is_call_ubm_process c = false) cs.
Proof.
  split.
  - apply (@process_given_ubm Reference.carriers Reference.collaborators Reference.numerics
             Reference.utterances (false, O) "utterance" 1 Reference.start Reference.start
             []); reflexivity.
  - destruct (reference_process Reference.utterances (Some (true, O)) "utterance" 1 Reference.start)
      as [[r|e] s'] eqn:Hrun; [|run_returns Hrun].
    destruct (@process_given_ubm Reference.carriers Reference.collaborators
                Reference.numerics Reference.utterances (true, O) "utterance" 1
                Reference.start s' r) as [_ Hgiven].
    destruct (Hgiven Hrun) as (_ & Hubm & cs & Hcs & Hquiet).
    exists r, s'. split; [reflexivity|]. split; [exact Hubm|]. exists cs. auto.
Defined.

Lemma process_frame_witness :
  exists r s',
    reference_process Reference.utterances None "utterance" 1 Reference.start = (Ok r, s') /\
    features (processor s') = features Reference.vtln /\
    sliding_window_cmvn (processor s') = sliding_window_cmvn Reference.vtln /\
    ubm (processor s') = ubm Reference.vtln.
Proof.
  destruct (reference_process Reference.utterances None "utterance" 1 Reference.start)
    as [[r|e] s'] eqn:Hrun; [|run_returns Hrun].
  destruct (@process_frame Reference.carriers Reference.collaborators Reference.numerics
              _ _ _ _ _ _ _ Hrun) as (_ & Hf & Hc & Hu).
  exists r, s'. auto.
Defined.

Lemma process_returns_stored_witness :
  exists r s',
    reference_process Reference.utterances None "utterance" 1 Reference.start = (Ok r, s') /\
    warps (processor s') = Some r /\
    map fst r = ["utt1"; "utt2"]%string.
Proof.
  destruct (reference_process Reference.utterances None "utterance" 1 Reference.start)
    as [[r|e] s'] eqn:Hrun; [|run_returns Hrun].
  destruct (@process_returns_stored Reference.carriers Reference.collaborators
              Reference.numerics _ _ _ _ _ _ Hrun) as (Hw & Hkeys & _).
  exists r, s'. split; [reflexivity|]. split; [exact Hw|].
  apply Hkeys; [reflexivity|]. apply (bool_decide_unpack _). vm_compute. exact I.
Defined.

Lemma process_by_speaker_witness :
  exists r s' stored,
    reference_process Reference.utterances None "speaker" 1 Reference.start = (Ok r, s') /\
    warps (processor s') = Some stored /\
    is_Some (dict_get "spk1"%string r).
Proof.
  destruct (reference_process Reference.utterances None "speaker" 1 Reference.start)
    as [[r|e] s'] eqn:Hrun; [|run_returns Hrun].
  destruct (@process_by_speaker Reference.carriers Reference.collaborators
              Reference.numerics _ _ _ _ _ _ Hrun) as (_ & stored & Hw & Hkeys & _).
  exists r, s', stored. split; [reflexivity|]. split; [exact Hw|].
  apply Hkeys. apply (bool_decide_unpack _). vm_compute. exact I.
Defined.

End ReferenceRuns.

Lemma warps_file_errors_witness :
  @save_warps TextFiles.carriers TextFiles.yaml TextFiles.processed "warps.yml"
    {["warps.yml"%string := @RegularFile TextFiles.carriers []]}
  = (Raise (OSError "file already exists"), {["warps.yml"%string := @RegularFile TextFiles.carriers []]}) /\
  @load_warps TextFiles.carriers TextFiles.yaml "warps.yml" ∅
  = Raise (OSError "file not found").
Proof.
  split.
  - apply (@warps_file_errors TextFiles.carriers TextFiles.yaml TextFiles.processed
             "warps.yml" {["warps.yml"%string := @RegularFile TextFiles.carriers []]}).
    unfold isfile. rewrite lookup_singleton_eq. reflexivity.
  - apply (@warps_file_errors TextFiles.carriers TextFiles.yaml TextFiles.processed
             "warps.yml" ∅).
    unfold isfile. rewrite lookup_empty. reflexivity.
Defined.

Section ReferenceFlow.
Local Existing Instance Reference.carriers.
Local Existing Instance Reference.collaborators.
Local Existing Instance Reference.numerics.

Lemma process_em_iterations_witness :
  exists r s' lv tw0 u_end tw_end,
    @process Reference.carriers Reference.collaborators Reference.numerics
      Reference.utterances None "utterance" 1 Reference.start = (Ok r, s') /\
    lvtln (processor s') = Some lv /\
    em_iterate (with_lvtln (Some lv) Reference.vtln) Reference.unwarped
      (Some Reference.utterances) 2 (true, O) tw0 = Ok (u_end, tw_end) /\
    exists tr wp,
      broadcast tw_end.1 Reference.utterances = Ok tr /\
      broadcast tw_end.2 Reference.utterances = Ok wp /\
      transforms (processor s') = Some tr /\ warps (processor s') = Some wp.
Proof.
  destruct (@process Reference.carriers Reference.collaborators Reference.numerics
              Reference.utterances None "utterance" 1 Reference.start)
    as [[r|e] s'] eqn:Hrun; [|run_returns Hrun].
  destruct (@process_em_iterations Reference.carriers Reference.collaborators
              Reference.numerics _ _ _ _ _ _ _ Hrun)
    as (utt2speak & lv & tw0 & u_end & tw_end & Hv & Hlv & _ & Hem & Hstored).
  vm_compute in Hv. injection Hv as <-.
  simpl in Hstored. destruct Hstored as (u2s & tr & wp & Hu2s & Htr & Hwp & Hst).
  injection Hu2s as <-.
  exists r, s', lv, tw0, u_end, tw_end. split; [reflexivity|]. split; [exact Hlv|].
  split; [exact Hem|]. exists tr, wp. tauto.
Defined.

Lemma process_discards_model_witness :
  is_ok (@process Reference.carriers Reference.collaborators Reference.numerics
           Reference.utterances None "utterance" 1 Reference.start).1 = true /\
  (@process Reference.carriers Reference.collaborators Reference.numerics
     Reference.utterances None "utterance" 1
     {| processor := holding None (Some []) (Some [("utt9"%string, 1)]) Reference.vtln;
        calls := [] |}).2
  = (@process Reference.carriers Reference.collaborators Reference.numerics
       Reference.utterances None "utterance" 1 Reference.start).2.
Proof.
  split; [vm_compute; reflexivity|].
  apply (@process_discards_model Reference.carriers Reference.collaborators
           Reference.numerics Reference.utterances None "utterance" 1 Reference.start
           None (Some []) (Some [("utt9"%string, 1)])).
  vm_compute. reflexivity.
Defined.

End ReferenceFlow.

(** ** [process]: the warp grid in binary64 arithmetic *)

(** With exact arithmetic, [Floating.process] is [process]. *)
Lemma process_exact `{Collaborators} `{Numerics} (utterances : Utterances)
    (given_ubm : option Ubm) (group_by : string) (njobs : Z) :
  Floating.process exact_arithmetic utterances given_ubm group_by njobs
  = process utterances given_ubm group_by njobs.
Proof. reflexivity. Qed.

Lemma num_classes_exact (min_warp max_warp warp_step : Qc) :
  Floating.num_classes_of exact_arithmetic min_warp max_warp warp_step
  = num_classes_of min_warp max_warp warp_step.
Proof. reflexivity. Qed.

Lemma default_class_exact (min_warp warp_step : Qc) :
  Floating.default_class_of exact_arithmetic min_warp warp_step
  = default_class_of min_warp warp_step.
Proof. reflexivity. Qed.

(** Rounding changes the grid: on [0.5, 1.15] with step 0.1 the quotient
    rounds to a number below 6.5 and [int] gives 7 classes, one less than in
    exact arithmetic; on [0.9, 1.25] with step 0.1 it gives 5 classes. *)
Lemma num_classes_rounded :
  Floating.num_classes_of binary64 (frac 1 2) (frac 115 100) (frac 1 10) = Ok 7%Z /\
  num_classes_of (frac 1 2) (frac 115 100) (frac 1 10) = Ok 8%Z /\
  Floating.num_classes_of binary64 (frac 9 10) (frac 5 4) (frac 1 10) = Ok 5%Z.
Proof. vm_compute. auto. Qed.

Section Preserved.
Context `{Carriers}.
Variable I : VtlnProcessor -> Prop.

Lemma preserves_bind {A B} (m : M A) (k : A -> M B) :
  preserves I m -> (forall a, preserves I (k a)) -> preserves I (bind m k).
Proof.
  intros Hm Hk s Hs. unfold bind. specialize (Hm s Hs).
  destruct (m s) as [[a|e] s1]; simpl in *; [apply Hk, Hm | exact Hm].
Qed.

Lemma preserves_get {B} (k : VtlnProcessor -> M B) :
  (forall self, I self -> preserves I (k self)) -> preserves I (bind get_self k).
Proof. intros Hk s Hs. unfold bind, get_self. simpl. apply Hk; exact Hs. Qed.

Lemma preserves_lift {A B} (r : result A) (k : A -> M B) :
  (forall a, r = Ok a -> preserves I (k a)) -> preserves I (bind (lift r) k).
Proof.
  intros Hk s Hs. unfold bind, lift. destruct r as [a|e]; simpl; [|exact Hs].
  apply (Hk a eq_refl), Hs.
Qed.

Lemma preserves_record {B} (c : call) (k : unit -> M B) :
  preserves I (k tt) -> preserves I (bind (record c) k).
Proof. intros Hk s Hs. unfold bind, record. simpl. apply Hk. exact Hs. Qed.

Lemma preserves_put {B} (v : VtlnProcessor) (k : unit -> M B) :
  I v -> preserves I (k tt) -> preserves I (bind (put_self v) k).
Proof. intros Hv Hk s Hs. unfold bind, put_self. simpl. apply Hk. exact Hv. Qed.

Lemma preserves_put_self (v : VtlnProcessor) : I v -> preserves I (put_self v).
Proof. intros Hv s Hs. exact Hv. Qed.

Lemma preserves_ret {A} (a : A) : preserves I (ret a).
Proof. intros s Hs. exact Hs. Qed.

Lemma preserves_for_loop {A T} (xs : list A) (body : T -> A -> M T) (acc : T) :
  (forall acc x, preserves I (body acc x)) -> preserves I (for_loop xs body acc).
Proof.
  intros Hbody. revert acc. induction xs as [|x xs IH]; intros acc; simpl.
  - apply preserves_ret.
  - apply preserves_bind; [apply Hbody | apply IH].
Qed.

End Preserved.

Section Built.
Context `{Collaborators} `{Numerics}.
Variables (n d : Z).

Lemma grid_model_assignment (tr : dict mat) (wp : dict Qc) (self : VtlnProcessor) :
  grid_model n d self -> grid_model n d (with_assignment tr wp self).
Proof. intros Hg. exact Hg. Qed.

Lemma grid_model_cmvn (cfg : option CmvnConfig) (self : VtlnProcessor) :
  grid_model n d self -> grid_model n d (with_cmvn cfg self).
Proof. intros Hg. exact Hg. Qed.

Lemma base_transform_keeps (utterances : Utterances) (vad : dict (list bool))
    (featsub_unwarped : FeaturesCollection) (a : unit) (c : Z) :
  preserves (grid_model n d) (base_transform utterances vad featsub_unwarped a c).
Proof.
  unfold base_transform. apply preserves_get. intros self Hself.
  apply preserves_record, preserves_record, preserves_lift. intros lv' Hcmt.
  apply preserves_put_self.
  destruct (compute_mapping_transform_classes _ _ _ _ _ _ _ Hcmt n d Hself) as [Hn Hd].
  exists lv'. auto.
Qed.

Lemma reestimate_keeps (u : Ubm) (orig_features : FeaturesCollection)
    (posteriors : Posteriors) (utt2speak : option (dict string)) :
  preserves (grid_model n d) (reestimate u orig_features posteriors utt2speak).
Proof.
  unfold reestimate. apply preserves_get. intros self Hself.
  apply preserves_record, preserves_lift. intros tw _.
  apply preserves_put_self, grid_model_assignment, Hself.
Qed.

Lemma em_pass_keeps (orig_features : FeaturesCollection)
    (utt2speak : option (dict string)) (u : Ubm) (i : Z) :
  preserves (grid_model n d) (em_pass orig_features utt2speak u i).
Proof.
  unfold em_pass. apply preserves_get. intros self Hself.
  apply preserves_lift. intros features _.
  apply preserves_record, preserves_record, preserves_record.
  apply preserves_bind; [apply reestimate_keeps | intros _; apply preserves_ret].
Qed.

Lemma broadcast_to_utterances_keeps (utt2speak : option (dict string)) :
  preserves (grid_model n d) (broadcast_to_utterances utt2speak).
Proof.
  unfold broadcast_to_utterances. apply preserves_get. intros self Hself.
  destruct (by_speaker self); [|apply preserves_ret].
  apply preserves_lift. intros u2s _. apply preserves_lift. intros tr _.
  apply preserves_lift. intros tr' _. apply preserves_lift. intros wp _.
  apply preserves_lift. intros wp' _.
  apply preserves_put_self, grid_model_assignment, Hself.
Qed.

Lemma report_keeps (utterances : Utterances) (group_by : string) :
  preserves (grid_model n d) (report utterances group_by).
Proof.
  unfold report. apply preserves_get. intros self Hself.
  apply preserves_lift. intros wp _.
  destruct (bool_decide _); [apply preserves_ret|].
  apply preserves_lift. intros items _. apply preserves_ret.
Qed.

(** Once the model is there, its number of classes and its default class
    stay, however the rest of the run ends. *)
Lemma train_keeps (utterances : Utterances) (group_by : string)
    (utt2speak : option (dict string)) (u : Ubm) (num_classes : Z) :
  preserves (grid_model n d) (train utterances group_by utt2speak u num_classes).
Proof.
  unfold train. apply preserves_get. intros self Hself.
  apply preserves_put; [apply grid_model_cmvn, Hself|].
  apply preserves_get. intros self1 Hself1.
  apply preserves_record, preserves_record.
  apply preserves_bind; [apply preserves_for_loop; intros; apply base_transform_keeps|].
  intros _. apply preserves_get. intros self2 Hself2.
  apply preserves_bind.
  { destruct (sliding_window_cmvn self);
      [apply preserves_put_self, grid_model_cmvn, Hself2 | apply preserves_ret]. }
  intros _. apply preserves_record, preserves_record.
  apply preserves_bind; [apply reestimate_keeps | intros _].
  apply preserves_bind.
  { unfold em_refinement. apply preserves_get. intros self3 _.
    apply preserves_for_loop. intros. apply em_pass_keeps. }
  intros u'. apply preserves_bind; [apply broadcast_to_utterances_keeps | intros _].
  apply report_keeps.
Qed.

End Built.

Lemma acquire_ubm_returns `{Collaborators} (utterances : Utterances)
    (given_ubm : option Ubm) (s : pstate) :
  (forall g, given_ubm = Some g -> is_Some (ubm_gmm g)) ->
  acquire_ubm utterances given_ubm s
  = (Ok (acquired utterances given_ubm (processor s)),
     {| processor := adopted given_ubm (processor s);
        calls := calls s ++ ubm_calls given_ubm (processor s) |}).
Proof.
  intros Hgiven. unfold acquire_ubm, bind, get_self. destruct given_ubm as [g|]; simpl.
  - destruct (Hgiven g eq_refl) as (gmm' & ->).
    unfold put_self, ret. simpl. rewrite app_nil_r. reflexivity.
  - reflexivity.
Qed.

(** C2, as amended.  In every run of [process] that gets as far as building
    the model (the checks pass, a trained UBM is there, the grid is computed
    and Kaldi accepts it), whether the run then returns or raises, the model
    has [int(1.5 + (max_warp - min_warp) / warp_step)] classes and default
    class [int(0.5 + (1 - min_warp) / warp_step)], both computed in binary64
    arithmetic with [int] truncating toward zero where the claim says
    [round].  With a positive step, no class of the model has a warp nearer
    to 1.0 than the default class whenever rounding has not changed the
    value of its formula. *)
Theorem process_model_grid `{Collaborators} `{Numerics} (utterances : Utterances)
    (given_ubm : option Ubm) (group_by : string) (njobs : Z) (s : pstate) (gmm : Gmm)
    (n d : Z) :
  let p := processor s in
  is_ok (validate p utterances group_by) = true ->
  (forall g, given_ubm = Some g -> is_Some (ubm_gmm g)) ->
  ubm_gmm (acquired utterances given_ubm p) = Some gmm ->
  Floating.num_classes_of binary64 (min_warp p) (max_warp p) (warp_step p) = Ok n ->
  Floating.default_class_of binary64 (min_warp p) (warp_step p) = Ok d ->
  (0 <= d < n)%Z ->
  exists lv,
    lvtln (processor
             (Floating.process binary64 utterances given_ubm group_by njobs s).2)
    = Some lv /\
    lv_num_classes lv = n /\
    lv_default_class lv = d /\
    (0 < warp_step p -> default_class_of (min_warp p) (warp_step p) = Ok d ->
     forall c, (0 <= c < n)%Z ->
       distance_to_unwarped (min_warp p) (warp_step p) d
       <= distance_to_unwarped (min_warp p) (warp_step p) c).
Proof.
  intros p Hv Hgiven Hgmm Hn Hd Hrange.
  destruct (adopted_grid given_ubm p) as (Hmin & Hmax & Hstep & _).
  destruct (validate p utterances group_by) as [utt2speak|e] eqn:Hval; [|discriminate].
  assert (Hrun : exists s3,
             Floating.process binary64 utterances given_ubm group_by njobs s
             = train utterances group_by utt2speak
                 (acquired utterances given_ubm p) n s3 /\
             grid_model n d (processor s3)).
  { eexists. split.
    - unfold Floating.process.
      run_step ltac:(reflexivity).
      run_step ltac:(unfold lift; fold p; rewrite Hval; reflexivity).
      run_step ltac:(apply acquire_ubm_returns, Hgiven).
      run_step ltac:(
        unfold Floating.initialize_lvtln;
        run_step ltac:(reflexivity);
        run_step ltac:(unfold lift; simpl; fold p; rewrite Hgmm; reflexivity);
        run_step ltac:(unfold lift; simpl; fold p; rewrite Hmin, Hmax, Hstep, Hn;
                       reflexivity);
        run_step ltac:(unfold lift; simpl; fold p; rewrite Hmin, Hstep, Hd; reflexivity);
        run_step ltac:(reflexivity);
        run_step ltac:(unfold lift, LinearVtln_new; rewrite decide_True by exact Hrange;
                       reflexivity);
        run_step ltac:(reflexivity);
        reflexivity).
      reflexivity.
    - simpl. eexists. split; [reflexivity|].
      unfold lv_num_classes. simpl. rewrite length_replicate. split; [lia|reflexivity]. }
  destruct Hrun as (s3 & Hrun & Hbuilt).
  assert (Hgrid : grid_model n d
            (processor
               (Floating.process binary64 utterances given_ubm group_by njobs s).2)).
  { rewrite Hrun. apply train_keeps, Hbuilt. }
  destruct Hgrid as (lv & Hlv & Hlvn & Hlvd). exists lv.
  split; [exact Hlv|]. split; [exact Hlvn|]. split; [exact Hlvd|].
  intros Hpos Hexact c Hc. eapply default_class_nearest; try eassumption; lia.
Qed.

(** X17.  Two errors of the creation of the model that the checks at the head
    of [process] do not catch.  Once the UBM is there, a [warp_step] of zero
    raises [ZeroDivisionError], and a default class outside
    [[0, num_classes)], both computed in binary64 arithmetic, makes Kaldi's
    constructor fail; in both cases the UBM has already been trained or
    adopted, and no model has been stored. *)
Theorem process_model_creation_errors `{Collaborators} `{Numerics}
    (utterances : Utterances) (given_ubm : option Ubm) (group_by : string) (njobs : Z)
    (s : pstate) (gmm : Gmm) :
  let p := processor s in
  let after_ubm := {| processor := adopted given_ubm p;
                      calls := calls s ++ ubm_calls given_ubm p |} in
  is_ok (validate p utterances group_by) = true ->
  (forall g, given_ubm = Some g -> is_Some (ubm_gmm g)) ->
  ubm_gmm (acquired utterances given_ubm p) = Some gmm ->
  (warp_step p = 0 ->
   Floating.process binary64 utterances given_ubm group_by njobs s
   = (Raise ZeroDivisionError, after_ubm)) /\
  (forall n d,
     Floating.num_classes_of binary64 (min_warp p) (max_warp p) (warp_step p) = Ok n ->
     Floating.default_class_of binary64 (min_warp p) (warp_step p) = Ok d ->
     ~ (0 <= d < n)%Z ->
     Floating.process binary64 utterances given_ubm group_by njobs s
     = (Raise (KaldiError "default class out of range"),
        {| processor := adopted given_ubm p;
           calls := calls s ++ ubm_calls given_ubm p
                    ++ [call_LinearVtln_new (gmm_dim gmm) n d] |})).
Proof.
  intros p after_ubm Hv Hgiven Hgmm.
  destruct (adopted_grid given_ubm p) as (Hmin & Hmax & Hstep & _).
  destruct (validate p utterances group_by) as [utt2speak|e] eqn:Hval; [|discriminate].
  split.
  - intros Hzero. unfold Floating.process.
    run_step ltac:(reflexivity).
    run_step ltac:(unfold lift; fold p; rewrite Hval; reflexivity).
    run_step ltac:(apply acquire_ubm_returns, Hgiven).
    apply bind_stop. unfold Floating.initialize_lvtln.
    run_step ltac:(reflexivity).
    run_step ltac:(unfold lift; simpl; fold p; rewrite Hgmm; reflexivity).
    apply bind_stop. unfold lift, Floating.num_classes_of. simpl. fold p.
    rewrite Hstep, Hzero. reflexivity.
  - intros n d Hn Hd Hrange. unfold Floating.process.
    run_step ltac:(reflexivity).
    run_step ltac:(unfold lift; fold p; rewrite Hval; reflexivity).
    run_step ltac:(apply acquire_ubm_returns, Hgiven).
    apply bind_stop. unfold Floating.initialize_lvtln.
    run_step ltac:(reflexivity).
    run_step ltac:(unfold lift; simpl; fold p; rewrite Hgmm; reflexivity).
    run_step ltac:(unfold lift; simpl; fold p; rewrite Hmin, Hmax, Hstep, Hn; reflexivity).
    run_step ltac:(unfold lift; simpl; fold p; rewrite Hmin, Hstep, Hd; reflexivity).
    run_step ltac:(reflexivity).
    apply bind_stop. unfold lift, LinearVtln_new. rewrite decide_False by exact Hrange.
    simpl. rewrite <- app_assoc. reflexivity.
Qed.

Section ReferenceGrid.
Local Existing Instance Reference.carriers.
Local Existing Instance Reference.collaborators.
Local Existing Instance Reference.numerics.
Local Abbreviation reference_process :=
  (@process Reference.carriers Reference.collaborators Reference.numerics).
Local Abbreviation binary64_process :=
  (@Floating.process binary64 Reference.carriers Reference.collaborators
     Reference.numerics).

Lemma process_model_grid_witness :
  is_ok (binary64_process Reference.utterances None "utterance" 1
           Reference.flat_start).1 = false /\
  exists lv,
    lvtln (processor (binary64_process Reference.utterances None "utterance" 1
                        Reference.flat_start).2) = Some lv /\
    lv_num_classes lv = 3%Z /\ lv_default_class lv = 2%Z.
Proof.
  split; [vm_compute; reflexivity|].
  destruct (@process_model_grid Reference.carriers Reference.collaborators
              Reference.numerics Reference.utterances None "utterance" 1
              Reference.flat_start tt 3 2) as (lv & Hlv & Hn & Hd & _).
  - reflexivity.
  - intros g [=].
  - reflexivity.
  - vm_compute. reflexivity.
  - vm_compute. reflexivity.
  - lia.
  - exists lv. auto.
Defined.

(** C2 as stated fails: on the grid [0.75, 1.0] with step 1, whose numbers
    binary64 holds exactly, the model has [int(1.75) = 1] class and default
    class [int(0.75) = 0], where rounding gives 2 and 1. *)
Lemma process_model_grid_not_rounded :
  let run := binary64_process Reference.utterances None "utterance" 1
               Reference.narrow_start in
  let v := Reference.narrow in
  (min_warp v <= max_warp v /\ 0 < warp_step v) /\
  is_ok run.1 = true /\
  option_map lv_num_classes (lvtln (processor run.2)) = Some 1%Z /\
  (let* steps := float_truediv binary64
                   (float_sub binary64 (float_of binary64 (max_warp v))
                      (float_of binary64 (min_warp v)))
                   (float_of binary64 (warp_step v)) in
   Ok (float_add binary64 (float_of binary64 (frac 3 2)) steps))
  = Ok (float_of binary64 (frac 7 4)) /\
  py_round (frac 7 4) = 2%Z /\
  option_map lv_default_class (lvtln (processor run.2)) = Some 0%Z /\
  (let* steps := float_truediv binary64
                   (float_sub binary64 (float_of binary64 1)
                      (float_of binary64 (min_warp v)))
                   (float_of binary64 (warp_step v)) in
   Ok (float_add binary64 (float_of binary64 (frac 1 2)) steps))
  = Ok (float_of binary64 (frac 3 4)) /\
  py_round (frac 3 4) = 1%Z.
Proof.
  cbv zeta. split; [split; [unfold Qcle, Qle; simpl; lia | reflexivity]|].
  repeat split; vm_compute; reflexivity.
Qed.

Lemma process_warps_on_grid_witness :
  exists r s' lv,
    reference_process Reference.utterances None "utterance" 1 Reference.start
    = (Ok r, s') /\
    lvtln (processor s') = Some lv /\
    lv_num_classes lv = 3%Z /\
    forall key w, dict_get key r = Some w -> on_grid (frac 1 2) (frac 1 2) 3 w.
Proof.
  destruct (reference_process Reference.utterances None "utterance" 1 Reference.start)
    as [[r|e] s'] eqn:Hrun; [|run_returns Hrun].
  destruct (@process_warps_on_grid Reference.carriers Reference.collaborators
              Reference.numerics _ _ _ _ _ _ _ Hrun) as (lv & stored & Hlv & _ & _ & Hr).
  assert (Hn : option_map lv_num_classes
                 (lvtln (processor
                           (reference_process Reference.utterances None "utterance" 1
                              Reference.start).2)) = Some 3%Z)
    by (vm_compute; reflexivity).
  rewrite Hrun in Hn. simpl in Hn. rewrite Hlv in Hn. injection Hn as Hn.
  exists r, s', lv. rewrite <- Hn. auto.
Defined.

Lemma process_calls_witness :
  exists r s' passes,
    reference_process Reference.utterances None "utterance" 1 Reference.start
    = (Ok r, s') /\
    length passes = 2%nat /\
    calls s' =
      [call_ubm_process (false, O); call_LinearVtln_new 1 3 1;
       call_extract_features; call_extract_features]
      ++ sweep_calls (frac 1 2) (frac 1 2) [0; 1; 2]%Z
      ++ [call_gaussian_selection (true, O) Reference.unwarped;
          call_gaussian_selection_to_post (true, O) Reference.unwarped;
          call_estimate (true, O) Reference.unwarped
            (gaussian_selection_to_post (true, O) Reference.unwarped)]
      ++ concat passes.
Proof.
  destruct (reference_process Reference.utterances None "utterance" 1 Reference.start)
    as [[r|e] s'] eqn:Hrun; [|run_returns Hrun].
  destruct (@process_calls Reference.carriers Reference.collaborators
              Reference.numerics _ _ _ _ _ _ _ Hrun)
    as (gmm & lv & utt2speak & passes & _ & Hlv & _ & Hcalls & Hlen & _).
  assert (Hnd : option_map (fun lv => (lv_num_classes lv, lv_default_class lv))
                  (lvtln (processor
                            (reference_process Reference.utterances None "utterance" 1
                               Reference.start).2)) = Some (3%Z, 1%Z))
    by (vm_compute; reflexivity).
  rewrite Hrun in Hnd. simpl in Hnd. rewrite Hlv in Hnd. injection Hnd as Hn Hd.
  exists r, s', passes. split; [reflexivity|]. split; [exact Hlen|].
  rewrite Hcalls, Hn, Hd. destruct gmm. reflexivity.
Defined.

Lemma process_failure_cmvn_witness :
  exists e s',
    reference_process Reference.utterances None "utterance" 1 Reference.flat_start
    = (Raise e, s') /\
    stopped_in_fit (calls s') = true /\
    sliding_window_cmvn (processor s') = None /\
    sliding_window_cmvn Reference.flat = Some tt.
Proof.
  destruct (reference_process Reference.utterances None "utterance" 1 Reference.flat_start)
    as [[r|e] s'] eqn:Hrun; [run_raises Hrun|].
  exists e, s'. split; [reflexivity|].
  assert (Hstop : stopped_in_fit
                    (calls (reference_process Reference.utterances None "utterance" 1
                              Reference.flat_start).2) = true)
    by (vm_compute; reflexivity).
  rewrite Hrun in Hstop. simpl in Hstop. split; [exact Hstop|].
  destruct (@process_failure_cmvn Reference.carriers Reference.collaborators
              Reference.numerics _ _ _ _ _ _ _ Hrun) as (cs & Hcs & Hfit & _).
  simpl in Hcs. rewrite <- Hcs in Hfit. auto.
Defined.

Lemma process_model_creation_errors_witness :
  binary64_process Reference.utterances None "utterance" 1 Reference.stalled_start
  = (Raise ZeroDivisionError,
     {| processor := Reference.stalled; calls := [call_ubm_process (false, O)] |}) /\
  binary64_process Reference.utterances None "utterance" 1 Reference.above_start
  = (Raise (KaldiError "default class out of range"),
     {| processor := Reference.above;
        calls := [call_ubm_process (false, O); call_LinearVtln_new 1 5 (-3)] |}).
Proof.
  split.
  - apply (@process_model_creation_errors Reference.carriers Reference.collaborators
             Reference.numerics Reference.utterances None "utterance" 1
             Reference.stalled_start tt); try reflexivity.
    intros g [=].
  - apply (@process_model_creation_errors Reference.carriers Reference.collaborators
             Reference.numerics Reference.utterances None "utterance" 1
             Reference.above_start tt); try reflexivity.
    + intros g [=].
    + lia.
Defined.

End ReferenceGrid.
